(** * A shallow embedding of the sudoku tunnel

    The development follows the Go packages of the repository:
    - [Sudoku]    pkg/obfs/sudoku/conn.go   (puzzle codec and its boost variant)
    - [Tunnel]    internal/tunnel           (control multiplexer, bandwidth monitor,
                                             key derivation)
    - [Httpmask]  pkg/obfs/httpmask         (HTTP masquerade consumer)
    - [Apis]      apis                      (handshake payload, server handshake)

    Bytes are integers in [0, 256); byte slices are lists of them.  Fixed
    width integers are [Z] with their wrap-around written out.  Go panics are
    [None]; Go errors are values of [error]. *)

From Stdlib Require Import String Ascii.
From Stdlib Require Import ZArith List Lia Bool QArith Permutation Sorted.
Import ListNotations.
Open Scope Z_scope.

(* ------------------------------------------------------------------ *)
(** ** Machine integers and byte slices *)

Definition byte := Z.
Definition bytes := list Z.

Definition is_byte (b : Z) : Prop := 0 <= b < 256.

(** Conversions [byte(x)], [uint16(x)], [uint64(x)] and [int64(x)]. *)
Definition to_byte (x : Z) : Z := x mod 256.
Definition to_uint16 (x : Z) : Z := x mod 2 ^ 16.
Definition to_uint64 (x : Z) : Z := x mod 2 ^ 64.
Definition to_int64 (x : Z) : Z := (x + 2 ^ 63) mod 2 ^ 64 - 2 ^ 63.

Definition MinInt64 : Z := - 2 ^ 63.
Definition MaxInt64 : Z := 2 ^ 63 - 1.

(** [s[:n]] and [s[n:]] on slices whose bounds were checked by the caller. *)
Definition slice_to (n : Z) (s : bytes) : bytes := firstn (Z.to_nat n) s.
Definition slice_from (n : Z) (s : bytes) : bytes := skipn (Z.to_nat n) s.
Definition len (s : bytes) : Z := Z.of_nat (length s).
Definition len_list {A} (s : list A) : Z := Z.of_nat (length s).

(** [copy(p, src)] where [p] has length [plen]: what lands in [p], and what
    is left of [src]. *)
Definition copy_out (plen : nat) (src : bytes) : bytes * bytes :=
  (firstn plen src, skipn plen src).

(** [encoding/binary.BigEndian]. *)
Fixpoint be_encode (width : nat) (v : Z) : bytes :=
  match width with
  | O => []
  | S w => be_encode w (v / 256) ++ [v mod 256]
  end.

Definition be_decode (s : bytes) : Z :=
  fold_left (fun acc b => acc * 256 + b) s 0.

Definition PutUint64 (v : Z) : bytes := be_encode 8 (to_uint64 v).
Definition PutUint16 (v : Z) : bytes := be_encode 2 (to_uint16 v).
Definition Uint64 (s : bytes) : Z := be_decode (firstn 8 s).
Definition Uint16 (s : bytes) : Z := be_decode (firstn 2 s).

Definition bytes_eqb (a b : bytes) : bool :=
  if list_eq_dec Z.eq_dec a b then true else false.

(** Go strings as byte slices: [[]byte(s)]. *)
Definition bytes_of_string (s : string) : bytes :=
  map (fun c => Z.of_nat (Ascii.nat_of_ascii c)) (list_ascii_of_string s).

(** Errors the modelled code returns or passes on. *)
Inductive error : Type :=
| EOF
| ErrUnexpectedEOF
| ErrBufferFull
| ErrTimeout
| ErrOther (msg : string).

(* ------------------------------------------------------------------ *)
(** ** Library interfaces the code is written against *)

(** [crypto/sha256], [crypto/hmac] and [crypto/aes]+[cipher.NewCTR]: the
    key stream of AES-CTR is given byte by byte. *)
Class Crypto : Type := {
  sha256 : bytes -> bytes;
  hmac_sha256 : bytes -> bytes -> bytes;   (* key, message *)
  aes_ctr : bytes -> bytes -> nat -> Z     (* key, iv, position *)
}.

Class CryptoLaws (C : Crypto) : Prop := {
  sha256_length : forall m, length (sha256 m) = 32%nat;
  hmac_length : forall k m, length (hmac_sha256 k m) = 32%nat;
  aes_ctr_byte : forall k iv n, is_byte (aes_ctr k iv n)
}.

(** [math/rand.Rand]: [Float32] draws from [0,1), [Intn n] from [0,n) and
    panics when [n <= 0]. *)
Class Rand : Type := {
  rng : Type;
  Float32 : rng -> Q * rng;
  Intn : Z -> rng -> option (Z * rng)
}.

Class RandLaws (R : Rand) : Prop := {
  Float32_range : forall r, (0 <= fst (Float32 r))%Q /\ (fst (Float32 r) < 1)%Q;
  Intn_range : forall n r, 0 < n ->
    exists v r', Intn n r = Some (v, r') /\ 0 <= v < n;
  Intn_panic : forall n r, n <= 0 -> Intn n r = None
}.

(* ------------------------------------------------------------------ *)
(** ** bufio.Reader, as far as the code uses it

    [src] lists what the successive [Read] calls of the wrapped transport
    return (each chunk no longer than the buffer it is read into); once the
    list is used up the transport returns [src_err].  [err] is the pending
    error [b.err]. *)

Module Bufio.

Record Reader : Type := {
  buf : bytes;
  err : option error;
  src : list bytes;
  src_err : error;
  size : Z
}.

Definition set_buf v b := Build_Reader v (err b) (src b) (src_err b) (size b).
Definition set_err v b := Build_Reader (buf b) v (src b) (src_err b) (size b).
Definition set_src v b := Build_Reader (buf b) (err b) v (src_err b) (size b).

Definition defaultBufSize : Z := 4096.

Definition NewReaderSize (chunks : list bytes) (e : error) (sz : Z) : Reader :=
  {| buf := []; err := None; src := chunks; src_err := e; size := sz |}.

Definition NewReader (chunks : list bytes) (e : error) : Reader :=
  NewReaderSize chunks e defaultBufSize.

Definition Buffered (b : Reader) : nat := length (buf b).

(** [b.rd.Read(p)]. *)
Definition rd_Read (b : Reader) : (bytes * option error) * Reader :=
  match src b with
  | [] => (([], Some (src_err b)), b)
  | c :: rest => ((c, None), set_src rest b)
  end.

(** [b.fill()]: read until some bytes arrive or the transport fails.  (The
    library gives up after 100 empty reads; a transport that does this is
    not modelled.) *)
Fixpoint fill_from (chunks : list bytes) : bytes * list bytes * bool :=
  match chunks with
  | [] => ([], [], true)
  | [] :: rest => fill_from rest
  | c :: rest => (c, rest, false)
  end.

Definition fill (b : Reader) : Reader :=
  let '(c, rest, failed) := fill_from (src b) in
  let b1 := set_src rest (set_buf (buf b ++ c) b) in
  if failed then set_err (Some (src_err b)) b1 else b1.

(** [b.readErr()]. *)
Definition readErr (b : Reader) : option error * Reader := (err b, set_err None b).

Fixpoint Peek_loop (fuel : nat) (n : nat) (b : Reader) : Reader :=
  match fuel with
  | O => b
  | S f =>
    if (Buffered b <? n)%nat && (Z.of_nat (Buffered b) <? size b)
       && match err b with None => true | Some _ => false end
    then Peek_loop f n (fill b) else b
  end.

Definition Peek (n : nat) (b : Reader) : (bytes * option error) * Reader :=
  let b1 := Peek_loop (S (S (length (src b)))) n b in
  if size b1 <? Z.of_nat n then ((buf b1, Some ErrBufferFull), b1)
  else if (Buffered b1 <? n)%nat then
    let (e, b2) := readErr b1 in
    ((buf b1, Some (match e with Some e' => e' | None => ErrBufferFull end)), b2)
  else ((firstn n (buf b1), None), b1).

Fixpoint index_byte (s : bytes) (delim : Z) : option nat :=
  match s with
  | [] => None
  | c :: rest =>
    if c =? delim then Some O
    else match index_byte rest delim with Some i => Some (S i) | None => None end
  end.

Fixpoint ReadSlice_loop (fuel : nat) (delim : Z) (b : Reader)
  : option ((bytes * option error) * Reader) :=
  match fuel with
  | O => None
  | S f =>
    match index_byte (buf b) delim with
    | Some i => Some ((firstn (S i) (buf b), None), set_buf (skipn (S i) (buf b)) b)
    | None =>
      match err b with
      | Some e => Some ((buf b, Some e), set_err None (set_buf [] b))
      | None =>
        if size b <=? Z.of_nat (Buffered b)
        then Some ((buf b, Some ErrBufferFull), set_buf [] b)
        else ReadSlice_loop f delim (fill b)
      end
    end
  end.

(** [b.ReadSlice(delim)]; [None] only if the fuel runs out. *)
Definition ReadSlice (delim : Z) (b : Reader) : option ((bytes * option error) * Reader) :=
  ReadSlice_loop (S (S (length (src b)))) delim b.

(** [b.Read(p)] for a [p] of length [plen > 0]. *)
Definition Read (plen : Z) (b : Reader) : (bytes * option error) * Reader :=
  match buf b with
  | [] =>
    match err b with
    | Some e => (([], Some e), set_err None b)
    | None =>
      if size b <=? plen then
        (* large read, empty buffer: read directly into p *)
        rd_Read b
      else
        let '((c, e), b1) := rd_Read b in
        match c with
        | [] => (([], e), b1)
        | _ => ((slice_to plen c, None), set_err e (set_buf (slice_from plen c) b1))
        end
    end
  | _ => ((slice_to plen (buf b), None), set_buf (slice_from plen (buf b)) b)
  end.

(** Bytes the reader can still deliver: buffered, then in the transport. *)
Definition remaining (b : Reader) : bytes := buf b ++ concat (src b).

End Bufio.

(* ------------------------------------------------------------------ *)
(** ** pkg/obfs/sudoku *)

Module Sudoku.

Definition IOBufferSize : Z := 32 * 1024.

Definition Puzzle : Type := (Z * Z * Z * Z)%type.

(** Modelled from the spec: the puzzle table (type [Table], built by
    [NewTable]) is not among the sources.  Section 3 of the specification
    gives its fields: [encode[b]], the codewords of every plaintext byte;
    [padding_pool]; and the mode flag [is_ascii]. *)
Record Table : Type := {
  EncodeTable : Z -> list Puzzle;
  PaddingPool : bytes;
  IsASCII : bool
}.

(** A CTR stream created by [cipher.NewCTR(block, iv)]: its key, its IV and
    how many key-stream bytes were used. *)
Record Stream : Type := {
  s_key : bytes;
  s_iv : bytes;
  s_pos : nat
}.

Section WithLibraries.
Context {C : Crypto} {R : Rand}.

(** [Stream.XORKeyStream(dst, src)]. *)
Fixpoint xor_from (k iv : bytes) (pos : nat) (src : bytes) : bytes :=
  match src with
  | [] => []
  | b :: rest => Z.lxor b (aes_ctr k iv pos) :: xor_from k iv (S pos) rest
  end.

Definition XORKeyStream (s : Stream) (src : bytes) : bytes * Stream :=
  (xor_from (s_key s) (s_iv s) (s_pos s) src,
   {| s_key := s_key s; s_iv := s_iv s; s_pos := (s_pos s + length src)%nat |}).

(** The [Conn] struct.  [wire] holds what was written to the embedded
    [net.Conn], [connErr] the error its [Write] returns (if any); [reader]
    is the [bufio.Reader] over its read side.  The scratch slice [rawBuf]
    (of [IOBufferSize] bytes) and the two mutexes carry no state. *)
Record Conn : Type := {
  wire : bytes;
  connErr : option error;
  table : Table;
  reader : Bufio.Reader;
  recorder : option bytes;
  recording : bool;
  pendingData : bytes;
  hintBuf : bytes;
  rngState : rng;
  paddingRate : Q;
  boostWrite : bool;
  boostRead : bool;
  boostASCII : bool;
  boostEnc : option Stream;
  boostDec : option Stream;
  encBitBuf : Z;
  encBits : Z;
  decBitBuf : Z;
  decBits : Z
}.

Definition set_wire v sc := Build_Conn v (connErr sc) (table sc) (reader sc) (recorder sc) (recording sc) (pendingData sc) (hintBuf sc) (rngState sc) (paddingRate sc) (boostWrite sc) (boostRead sc) (boostASCII sc) (boostEnc sc) (boostDec sc) (encBitBuf sc) (encBits sc) (decBitBuf sc) (decBits sc).
Definition set_reader v sc := Build_Conn (wire sc) (connErr sc) (table sc) v (recorder sc) (recording sc) (pendingData sc) (hintBuf sc) (rngState sc) (paddingRate sc) (boostWrite sc) (boostRead sc) (boostASCII sc) (boostEnc sc) (boostDec sc) (encBitBuf sc) (encBits sc) (decBitBuf sc) (decBits sc).
Definition set_recorder v sc := Build_Conn (wire sc) (connErr sc) (table sc) (reader sc) v (recording sc) (pendingData sc) (hintBuf sc) (rngState sc) (paddingRate sc) (boostWrite sc) (boostRead sc) (boostASCII sc) (boostEnc sc) (boostDec sc) (encBitBuf sc) (encBits sc) (decBitBuf sc) (decBits sc).
Definition set_recording v sc := Build_Conn (wire sc) (connErr sc) (table sc) (reader sc) (recorder sc) v (pendingData sc) (hintBuf sc) (rngState sc) (paddingRate sc) (boostWrite sc) (boostRead sc) (boostASCII sc) (boostEnc sc) (boostDec sc) (encBitBuf sc) (encBits sc) (decBitBuf sc) (decBits sc).
Definition set_pendingData v sc := Build_Conn (wire sc) (connErr sc) (table sc) (reader sc) (recorder sc) (recording sc) v (hintBuf sc) (rngState sc) (paddingRate sc) (boostWrite sc) (boostRead sc) (boostASCII sc) (boostEnc sc) (boostDec sc) (encBitBuf sc) (encBits sc) (decBitBuf sc) (decBits sc).
Definition set_hintBuf v sc := Build_Conn (wire sc) (connErr sc) (table sc) (reader sc) (recorder sc) (recording sc) (pendingData sc) v (rngState sc) (paddingRate sc) (boostWrite sc) (boostRead sc) (boostASCII sc) (boostEnc sc) (boostDec sc) (encBitBuf sc) (encBits sc) (decBitBuf sc) (decBits sc).
Definition set_rngState v sc := Build_Conn (wire sc) (connErr sc) (table sc) (reader sc) (recorder sc) (recording sc) (pendingData sc) (hintBuf sc) v (paddingRate sc) (boostWrite sc) (boostRead sc) (boostASCII sc) (boostEnc sc) (boostDec sc) (encBitBuf sc) (encBits sc) (decBitBuf sc) (decBits sc).
Definition set_boostWrite v sc := Build_Conn (wire sc) (connErr sc) (table sc) (reader sc) (recorder sc) (recording sc) (pendingData sc) (hintBuf sc) (rngState sc) (paddingRate sc) v (boostRead sc) (boostASCII sc) (boostEnc sc) (boostDec sc) (encBitBuf sc) (encBits sc) (decBitBuf sc) (decBits sc).
Definition set_boostRead v sc := Build_Conn (wire sc) (connErr sc) (table sc) (reader sc) (recorder sc) (recording sc) (pendingData sc) (hintBuf sc) (rngState sc) (paddingRate sc) (boostWrite sc) v (boostASCII sc) (boostEnc sc) (boostDec sc) (encBitBuf sc) (encBits sc) (decBitBuf sc) (decBits sc).
Definition set_boostASCII v sc := Build_Conn (wire sc) (connErr sc) (table sc) (reader sc) (recorder sc) (recording sc) (pendingData sc) (hintBuf sc) (rngState sc) (paddingRate sc) (boostWrite sc) (boostRead sc) v (boostEnc sc) (boostDec sc) (encBitBuf sc) (encBits sc) (decBitBuf sc) (decBits sc).
Definition set_boostEnc v sc := Build_Conn (wire sc) (connErr sc) (table sc) (reader sc) (recorder sc) (recording sc) (pendingData sc) (hintBuf sc) (rngState sc) (paddingRate sc) (boostWrite sc) (boostRead sc) (boostASCII sc) v (boostDec sc) (encBitBuf sc) (encBits sc) (decBitBuf sc) (decBits sc).
Definition set_boostDec v sc := Build_Conn (wire sc) (connErr sc) (table sc) (reader sc) (recorder sc) (recording sc) (pendingData sc) (hintBuf sc) (rngState sc) (paddingRate sc) (boostWrite sc) (boostRead sc) (boostASCII sc) (boostEnc sc) v (encBitBuf sc) (encBits sc) (decBitBuf sc) (decBits sc).
Definition set_enc buf bits sc := Build_Conn (wire sc) (connErr sc) (table sc) (reader sc) (recorder sc) (recording sc) (pendingData sc) (hintBuf sc) (rngState sc) (paddingRate sc) (boostWrite sc) (boostRead sc) (boostASCII sc) (boostEnc sc) (boostDec sc) buf bits (decBitBuf sc) (decBits sc).
Definition set_dec buf bits sc := Build_Conn (wire sc) (connErr sc) (table sc) (reader sc) (recorder sc) (recording sc) (pendingData sc) (hintBuf sc) (rngState sc) (paddingRate sc) (boostWrite sc) (boostRead sc) (boostASCII sc) (boostEnc sc) (boostDec sc) (encBitBuf sc) (encBits sc) buf bits.

(** [sc.Conn.Write(out)]: the transport takes the bytes, or fails. *)
Definition conn_Write (out : bytes) (sc : Conn) : option error * Conn :=
  match connErr sc with
  | Some e => (Some e, sc)
  | None => (None, set_wire (wire sc ++ out) sc)
  end.

(** The byte classifier of the read paths: [true] for padding. *)
Definition isPadding (ascii : bool) (b : Z) : bool :=
  if ascii then Z.land b 0x40 =? 0 else negb (Z.land b 0x90 =? 0).

Definition packBoostByte (sc : Conn) (bits : Z) : Z :=
  if boostASCII sc then Z.lor 0x40 (Z.land bits 0x3F)
  else
    let high := to_byte (Z.shiftl (Z.land bits 0x30) 1) in
    let low := Z.land bits 0x0F in
    Z.lor high low.

Definition unpackBoostByte (sc : Conn) (b : Z) : Z :=
  if boostASCII sc then Z.land b 0x3F
  else Z.lor (Z.shiftr (Z.land b 0x60) 1) (Z.land b 0x0F).


(** [s[i]]; an index out of range panics. *)
Definition index_at {A} (s : list A) (i : Z) : option A :=
  if i <? 0 then None else nth_error s (Z.to_nat i).

Definition Qltb (x y : Q) : bool := negb (Qle_bool y x).

(** [NewConn].  [seeded] is the generator seeded from the system's entropy.
    The rate is computed on rationals: [float32] rounding is left out. *)
Definition NewConn (c_src : list bytes) (c_err : error) (c_werr : option error)
    (t : Table) (pMin pMax : Z) (record : bool) (seeded : rng) : Conn :=
  let min := (inject_Z pMin / 100)%Q in
  let span := (inject_Z (pMax - pMin) / 100)%Q in
  let (f, localRng) := Float32 seeded in
  let rate := (min + f * span)%Q in
  {| wire := []; connErr := c_werr; table := t;
     reader := Bufio.NewReaderSize c_src c_err IOBufferSize;
     recorder := if record then Some [] else None;
     recording := record;
     pendingData := []; hintBuf := [];
     rngState := localRng; paddingRate := rate;
     boostWrite := false; boostRead := false; boostASCII := false;
     boostEnc := None; boostDec := None;
     encBitBuf := 0; encBits := 0; decBitBuf := 0; decBits := 0 |}.

(** [cipher.NewCTR(aes.NewCipher(key), iv)]. *)
Definition NewCTR (key iv : bytes) : Stream := {| s_key := key; s_iv := iv; s_pos := 0%nat |}.

Definition aes_BlockSize : Z := 16.

Definition EnableBoost (write read : bool) (aesKey iv : bytes) (isASCII : bool)
    (sc : Conn) : option error * Conn :=
  if len aesKey <? 16 then (Some (ErrOther "aesKey too short"), sc)
  else if len iv <? aes_BlockSize then (Some (ErrOther "iv too short"), sc)
  else
    let block := slice_to aes_BlockSize aesKey in
    let sc1 :=
      if write then
        set_boostASCII isASCII (set_boostWrite true (set_enc 0 0
          (set_boostEnc (Some (NewCTR block (slice_to aes_BlockSize iv))) sc)))
      else sc in
    let sc2 :=
      if read then
        set_hintBuf [] (set_boostASCII isASCII (set_boostRead true (set_dec 0 0
          (set_boostDec (Some (NewCTR block (slice_to aes_BlockSize iv))) sc1))))
      else sc1 in
    (None, sc2).

Definition StopRecording (sc : Conn) : Conn :=
  set_recorder None (set_recording false sc).

Definition GetBufferedAndRecorded (sc : option Conn) : bytes :=
  match sc with
  | None => []
  | Some sc =>
    let recorded := match recorder sc with Some r => r | None => [] end in
    let buffered := Bufio.Buffered (reader sc) in
    if (0 <? buffered)%nat then
      let '((peeked, _), _) := Bufio.Peek buffered (reader sc) in
      recorded ++ peeked
    else recorded
  end.

(** [sc.rng.Float32() < sc.paddingRate]. *)
Definition coin (sc : Conn) : bool * Conn :=
  let (f, r') := Float32 (rngState sc) in
  (Qltb f (paddingRate sc), set_rngState r' sc).

(** [pads[sc.rng.Intn(padLen)]]. *)
Definition pad_byte (sc : Conn) : option (Z * Conn) :=
  let pads := PaddingPool (table sc) in
  match Intn (len pads) (rngState sc) with
  | None => None
  | Some (i, r') =>
    match index_at pads i with
    | None => None
    | Some b => Some (b, set_rngState r' sc)
    end
  end.

(** [if sc.rng.Float32() < sc.paddingRate { out = append(out, pads[...]) }]. *)
Definition maybe_pad (out : bytes) (sc : Conn) : option (bytes * Conn) :=
  let (c, sc1) := coin sc in
  if c then
    match pad_byte sc1 with
    | None => None
    | Some (b, sc2) => Some (out ++ [b], sc2)
    end
  else Some (out, sc1).

(** [s[i] = v] on an index in range. *)
Definition set_at {A} (s : list A) (i : nat) (v : A) : list A :=
  firstn i s ++ v :: skipn (S i) s.

(** [perm[i], perm[j] = perm[j], perm[i]]. *)
Definition swap (perm : list Z) (i j : Z) : option (list Z) :=
  match index_at perm i, index_at perm j with
  | Some a, Some b => Some (set_at (set_at perm (Z.to_nat i) b) (Z.to_nat j) a)
  | _, _ => None
  end.

(** [rng.Shuffle(n, swap)]: for [i] from [n-1] down to 1, swap [i] with a
    draw from [0, i]. *)
Fixpoint Shuffle_loop (i : nat) (perm : list Z) (r : rng) : option (list Z * rng) :=
  match i with
  | O => Some (perm, r)
  | S i' =>
    match Intn (Z.of_nat i + 1) r with
    | None => None
    | Some (j, r') =>
      match swap perm (Z.of_nat i) j with
      | None => None
      | Some perm' => Shuffle_loop i' perm' r'
      end
    end
  end.

Definition Shuffle (n : nat) (perm : list Z) (r : rng) : option (list Z * rng) :=
  Shuffle_loop (n - 1) perm r.

(** [puzzle[idx]]. *)
Definition hint (pz : Puzzle) (idx : Z) : option Z :=
  let '(h0, h1, h2, h3) := pz in
  index_at [h0; h1; h2; h3] idx.

(** The loop [for _, idx := range perm] of [Write]. *)
Fixpoint write_hints (pz : Puzzle) (perm : list Z) (out : bytes) (sc : Conn)
  : option (bytes * Conn) :=
  match perm with
  | [] => Some (out, sc)
  | idx :: rest =>
    match maybe_pad out sc with
    | None => None
    | Some (out1, sc1) =>
      match hint pz idx with
      | None => None
      | Some h => write_hints pz rest (out1 ++ [h]) sc1
      end
    end
  end.

(** The loop [for _, b := range p] of [Write]. *)
Fixpoint write_bytes (p : bytes) (out : bytes) (sc : Conn) : option (bytes * Conn) :=
  match p with
  | [] => Some (out, sc)
  | b :: rest =>
    match maybe_pad out sc with
    | None => None
    | Some (out1, sc1) =>
      let puzzles := EncodeTable (table sc1) b in
      match Intn (Z.of_nat (length puzzles)) (rngState sc1) with
      | None => None
      | Some (k, r1) =>
        match index_at puzzles k with
        | None => None
        | Some puzzle =>
          match Shuffle 4 [0; 1; 2; 3] r1 with
          | None => None
          | Some (perm, r2) =>
            match write_hints puzzle perm out1 (set_rngState r2 sc1) with
            | None => None
            | Some (out2, sc2) => write_bytes rest out2 sc2
            end
          end
        end
      end
    end
  end.

(** The loop [for sc.encBits >= 6] of [writeBoost]; [n] bounds its trips. *)
Fixpoint enc_drain (n : nat) (out : bytes) (sc : Conn) : option (bytes * Conn) :=
  match n with
  | O => Some (out, sc)
  | S n' =>
    if 6 <=? encBits sc then
      let bits := encBits sc - 6 in
      let chunk := Z.land (to_byte (Z.shiftr (encBitBuf sc) bits)) 0x3F in
      let encoded := packBoostByte sc chunk in
      match maybe_pad out (set_enc (encBitBuf sc) bits sc) with
      | None => None
      | Some (out1, sc1) =>
        let out2 := out1 ++ [encoded] in
        let buf' :=
          if bits =? 0 then 0
          else Z.land (encBitBuf sc1) (to_uint64 (to_uint64 (Z.shiftl 1 bits) - 1)) in
        enc_drain n' out2 (set_enc buf' bits sc1)
      end
    else Some (out, sc)
  end.

(** The loop [for _, b := range encBuf] of [writeBoost]. *)
Fixpoint enc_bytes (encBuf : bytes) (out : bytes) (sc : Conn) : option (bytes * Conn) :=
  match encBuf with
  | [] => Some (out, sc)
  | b :: rest =>
    let buf' := Z.lor (to_uint64 (Z.shiftl (encBitBuf sc) 8)) b in
    let bits := encBits sc + 8 in
    match enc_drain (Z.to_nat bits) out (set_enc buf' bits sc) with
    | None => None
    | Some (out1, sc1) => enc_bytes rest out1 sc1
    end
  end.

Definition writeBoost (p : bytes) (sc : Conn) : option ((Z * option error) * Conn) :=
  match boostEnc sc with
  | None => Some ((0, Some (ErrOther "boost encoder not initialized")), sc)
  | Some enc =>
    let (encBuf, enc') := XORKeyStream enc p in
    let sc0 := set_boostEnc (Some enc') sc in
    match enc_bytes encBuf [] sc0 with
    | None => None
    | Some (out, sc1) =>
      match maybe_pad out sc1 with
      | None => None
      | Some (out1, sc2) =>
        let (e, sc3) := conn_Write out1 sc2 in
        Some ((len p, e), sc3)
      end
    end
  end.

Definition Write (p : bytes) (sc : Conn) : option ((Z * option error) * Conn) :=
  if len p =? 0 then Some ((0, None), sc)
  else if boostWrite sc then writeBoost p sc
  else
    match write_bytes p [] sc with
    | None => None
    | Some (out, sc1) =>
      match maybe_pad out sc1 with
      | None => None
      | Some (out1, sc2) =>
        let (e, sc3) := conn_Write out1 sc2 in
        Some ((len p, e), sc3)
      end
    end.

Definition flushBoostPadding (sc : Conn) : option (option error * Conn) :=
  if negb (boostWrite sc) || (encBits sc =? 0) then Some (None, sc)
  else if 6 - encBits sc <? 0 then None (* negative shift count *)
  else
    let remaining :=
      to_byte (Z.land (to_uint64 (Z.shiftl (encBitBuf sc) (6 - encBits sc))) 0x3F) in
    let encoded := packBoostByte sc remaining in
    match maybe_pad [] sc with
    | None => None
    | Some (out, sc1) =>
      match maybe_pad (out ++ [encoded]) sc1 with
      | None => None
      | Some (out1, sc2) =>
        let (e, sc3) := conn_Write out1 (set_enc 0 0 sc2) in
        Some (e, sc3)
      end
    end.

(** [Close]: flush the boost residue, then close the transport (which has
    no further effect on the state kept here). *)
Definition Close (sc : Conn) : option (option error * Conn) :=
  if boostWrite sc then
    match flushBoostPadding sc with
    | None => None
    | Some (_, sc1) => Some (None, sc1)
    end
  else Some (None, sc).

(** [n = copy(p, sc.pendingData)] and the update of [pendingData]. *)
Definition deliver (plen : nat) (sc : Conn) : (bytes * option error) * Conn :=
  ((firstn plen (pendingData sc), None),
   set_pendingData (skipn plen (pendingData sc)) sc).

(** [sc.recorder.Write(chunk)] under the [recording] flag; a nil recorder
    panics. *)
Definition record_chunk (chunk : bytes) (sc : Conn) : option Conn :=
  if recording sc then
    match recorder sc with
    | None => None
    | Some r => Some (set_recorder (Some (r ++ chunk)) sc)
    end
  else Some sc.

(** The loop [for sc.decBits >= 8] of [readBoost]; [n] bounds its trips.
    [Some e] on the left is the early [return 0, e]. *)
Fixpoint dec_drain (n : nat) (sc : Conn) : option error * Conn :=
  match n with
  | O => (None, sc)
  | S n' =>
    if 8 <=? decBits sc then
      let bits := decBits sc - 8 in
      let byteVal := to_byte (Z.shiftr (decBitBuf sc) bits) in
      let buf' :=
        if bits =? 0 then 0
        else Z.land (decBitBuf sc) (to_uint64 (to_uint64 (Z.shiftl 1 bits) - 1)) in
      let sc1 := set_dec buf' bits sc in
      match boostDec sc1 with
      | None => (Some (ErrOther "boost decoder missing"), sc1)
      | Some dec =>
        let (tmp, dec') := XORKeyStream dec [byteVal] in
        dec_drain n' (set_pendingData (pendingData sc1 ++ [hd 0 tmp])
                        (set_boostDec (Some dec') sc1))
      end
    else (None, sc)
  end.

(** The loop [for _, b := range chunk] of [readBoost]. *)
Fixpoint dec_chunk (chunk : bytes) (sc : Conn) : option error * Conn :=
  match chunk with
  | [] => (None, sc)
  | b :: rest =>
    if isPadding (boostASCII sc) b then dec_chunk rest sc
    else
      let chunkBits := unpackBoostByte sc b in
      let buf' := Z.lor (to_uint64 (Z.shiftl (decBitBuf sc) 6)) chunkBits in
      let bits := decBits sc + 6 in
      match dec_drain (Z.to_nat bits) (set_dec buf' bits sc) with
      | (Some e, sc1) => (Some e, sc1)
      | (None, sc1) => dec_chunk rest sc1
      end
  end.

(** The outer [for] of [readBoost]: [None] is a panic or the end of the
    fuel. *)
Fixpoint readBoost_loop (fuel : nat) (plen : nat) (sc : Conn)
  : option ((bytes * option error) * Conn) :=
  match fuel with
  | O => None
  | S f =>
    match pendingData sc with
    | _ :: _ => Some (deliver plen sc)
    | [] =>
      let '((chunk, rErr), rd') := Bufio.Read IOBufferSize (reader sc) in
      let sc1 := set_reader rd' sc in
      let step :=
        match chunk with
        | [] => Some (None, sc1)
        | _ =>
          match record_chunk chunk sc1 with
          | None => None
          | Some sc2 => Some (dec_chunk chunk sc2)
          end
        end in
      match step with
      | None => None
      | Some (Some e, sc3) => Some (([], Some e), sc3)
      | Some (None, sc3) =>
        match rErr with
        | Some e => Some (([], Some e), sc3)
        | None =>
          match pendingData sc3 with
          | _ :: _ => Some (deliver plen sc3)
          | [] => readBoost_loop f plen sc3
          end
        end
      end
    end
  end.

(** [readBoost(p)] for a [p] of length [plen]. *)
Definition readBoost (plen : nat) (sc : Conn) : option ((bytes * option error) * Conn) :=
  match pendingData sc with
  | _ :: _ => Some (deliver plen sc)
  | [] =>
    readBoost_loop
      (S (S (length (Bufio.src (reader sc)) + Bufio.Buffered (reader sc)))) plen sc
  end.

(** Modelled from the spec: what section 3 of the specification requires of
    a puzzle table ([NewTable] is not among the sources): every byte has at
    least one codeword, the padding pool is not empty, and the classifier of
    the table's mode tells codeword bytes from padding bytes. *)
Definition hints_of (pz : Puzzle) : bytes :=
  let '(h0, h1, h2, h3) := pz in [h0; h1; h2; h3].

Record table_ok (t : Table) : Prop := {
  encode_nonempty : forall b, is_byte b -> EncodeTable t b <> [];
  pool_nonempty : PaddingPool t <> [];
  hints_classified : forall b pz h,
      In pz (EncodeTable t b) -> In h (hints_of pz) ->
      is_byte h /\ isPadding (IsASCII t) h = false;
  pool_classified : forall x,
      In x (PaddingPool t) -> is_byte x /\ isPadding (IsASCII t) x = true
}.

(** What one padding coin leaves on the wire: nothing, or one pool byte. *)
Inductive opt_pad (t : Table) : bytes -> Prop :=
| pad_none : opt_pad t []
| pad_one : forall x, In x (PaddingPool t) -> opt_pad t [x].

(** The wire image of one plaintext byte as [Write] lays it out: a coin
    before the codeword, then a coin before each of its four bytes. *)
Definition written_piece (t : Table) (b : Z) (piece : bytes) : Prop :=
  exists pz h0 h1 h2 h3 p p0 p1 p2 p3,
    In pz (EncodeTable t b) /\ Permutation [h0; h1; h2; h3] (hints_of pz) /\
    opt_pad t p /\ opt_pad t p0 /\ opt_pad t p1 /\ opt_pad t p2 /\ opt_pad t p3 /\
    piece = p ++ p0 ++ h0 :: p1 ++ h1 :: p2 ++ h2 :: p3 ++ [h3].

(** The wire image of one plaintext byte in the specification's words: a
    coin before the codeword, one between each two of its four bytes, and one
    after its last byte. *)
Definition claimed_piece (t : Table) (b : Z) (piece : bytes) : Prop :=
  exists pz h0 h1 h2 h3 p0 p1 p2 p3 p4,
    In pz (EncodeTable t b) /\ Permutation [h0; h1; h2; h3] (hints_of pz) /\
    opt_pad t p0 /\ opt_pad t p1 /\ opt_pad t p2 /\ opt_pad t p3 /\ opt_pad t p4 /\
    piece = p0 ++ h0 :: p1 ++ h1 :: p2 ++ h2 :: p3 ++ h3 :: p4.

(** A buffer's wire image: the pieces of its bytes in order, then the
    trailing coin. *)
Definition wire_image (piece : Table -> Z -> bytes -> Prop) (t : Table) (p out : bytes) : Prop :=
  exists pieces trailing,
    Forall2 (piece t) p pieces /\ opt_pad t trailing /\ out = concat pieces ++ trailing.

(** The three draws of [Shuffle(4, ...)] applied to [0,1,2,3]. *)
Definition fisher_yates (j3 j2 j1 : Z) : option (list Z) :=
  match swap [0; 1; 2; 3] 3 j3 with
  | None => None
  | Some p3 =>
    match swap p3 2 j2 with
    | None => None
    | Some p2 => swap p2 1 j1
    end
  end.

(** The same layout in terms of the generator's draws.  A padding coin is a
    [Float32] draw compared with the rate, and when it comes up an [Intn]
    draw over the pool. *)
Definition pad_drawn (t : Table) (rate : Q) (r : rng) (pad : bytes) (r' : rng) : Prop :=
  let (f, r1) := Float32 r in
  if Qltb f rate then
    exists i x,
      Intn (len (PaddingPool t)) r1 = Some (i, r') /\
      index_at (PaddingPool t) i = Some x /\ pad = [x]
  else pad = [] /\ r' = r1.

(** The codeword of a byte is [encode[b]] at an [Intn] draw over its
    length, and the order of its four bytes comes from the three draws of
    the shuffle. *)
Definition codeword_drawn (t : Table) (b : Z) (r : rng) (hs : list Z) (r' : rng) : Prop :=
  exists k r1 pz j3 r2 j2 r3 j1 i0 i1 i2 i3 h0 h1 h2 h3,
    Intn (len_list (EncodeTable t b)) r = Some (k, r1) /\
    index_at (EncodeTable t b) k = Some pz /\
    Intn 4 r1 = Some (j3, r2) /\ Intn 3 r2 = Some (j2, r3) /\ Intn 2 r3 = Some (j1, r') /\
    fisher_yates j3 j2 j1 = Some [i0; i1; i2; i3] /\
    hint pz i0 = Some h0 /\ hint pz i1 = Some h1 /\
    hint pz i2 = Some h2 /\ hint pz i3 = Some h3 /\
    hs = [h0; h1; h2; h3].

(** One plaintext byte: the coin before the codeword, the codeword and its
    order, then a coin before each of its bytes. *)
Definition piece_drawn (t : Table) (rate : Q) (b : Z) (r : rng) (piece : bytes) (r' : rng)
  : Prop :=
  exists p r1 h0 h1 h2 h3 r2 p0 r3 p1 r4 p2 r5 p3,
    pad_drawn t rate r p r1 /\
    codeword_drawn t b r1 [h0; h1; h2; h3] r2 /\
    pad_drawn t rate r2 p0 r3 /\ pad_drawn t rate r3 p1 r4 /\
    pad_drawn t rate r4 p2 r5 /\ pad_drawn t rate r5 p3 r' /\
    piece = p ++ p0 ++ h0 :: p1 ++ h1 :: p2 ++ h2 :: p3 ++ [h3].

(** A buffer: its bytes' pieces one after the other, each drawing from the
    generator where the one before left it. *)
Inductive pieces_drawn (t : Table) (rate : Q) : rng -> bytes -> list bytes -> rng -> Prop :=
| drawn_nil : forall r, pieces_drawn t rate r [] [] r
| drawn_cons : forall r b piece r1 p pieces r',
    piece_drawn t rate b r piece r1 ->
    pieces_drawn t rate r1 p pieces r' ->
    pieces_drawn t rate r (b :: p) (piece :: pieces) r'.

(** [io.ReadFull(sc, buf)] through [readBoost], for a [buf] of [want] bytes:
    call [Read] on the unfilled rest until it is full or a call fails. *)
Fixpoint ReadFull_loop (fuel : nat) (want : nat) (got : bytes) (sc : Conn)
  : option ((bytes * option error) * Conn) :=
  if (want <=? length got)%nat then Some ((got, None), sc)
  else
    match fuel with
    | O => None
    | S f =>
      match readBoost (want - length got) sc with
      | None => None
      | Some ((d, Some e), sc1) =>
        let got1 := got ++ d in
        if (want <=? length got1)%nat then Some ((got1, None), sc1)
        else
          match got1, e with
          | _ :: _, EOF => Some ((got1, Some ErrUnexpectedEOF), sc1)
          | _, _ => Some ((got1, Some e), sc1)
          end
      | Some ((d, None), sc1) => ReadFull_loop f want (got ++ d) sc1
      end
    end.

Definition ReadFull (want : nat) (sc : Conn) : option ((bytes * option error) * Conn) :=
  ReadFull_loop (S want) want [] sc.

End WithLibraries.

(** *** The bit accumulators on their own

    The two shift buffers of the boost codec without the connection around
    them: the 6-bit chunks the encoder cuts from a byte stream, and the
    bytes the decoder assembles from 6-bit chunks.  A state is the pair
    (bit buffer, number of bits). *)

Definition bits_mask (bits : Z) : Z := to_uint64 (to_uint64 (Z.shiftl 1 bits) - 1).

Fixpoint enc_drain_bits (n : nat) (buf bits : Z) : list Z * (Z * Z) :=
  match n with
  | O => ([], (buf, bits))
  | S n' =>
    if 6 <=? bits then
      let bits' := bits - 6 in
      let chunk := Z.land (to_byte (Z.shiftr buf bits')) 0x3F in
      let buf' := if bits' =? 0 then 0 else Z.land buf (bits_mask bits') in
      let (cs, st) := enc_drain_bits n' buf' bits' in
      (chunk :: cs, st)
    else ([], (buf, bits))
  end.

Definition enc_byte_bits (st : Z * Z) (b : Z) : list Z * (Z * Z) :=
  let (buf, bits) := st in
  enc_drain_bits (Z.to_nat (bits + 8)) (Z.lor (to_uint64 (Z.shiftl buf 8)) b) (bits + 8).

Fixpoint enc_bits (bs : bytes) (st : Z * Z) : list Z * (Z * Z) :=
  match bs with
  | [] => ([], st)
  | b :: rest =>
    let (cs, st1) := enc_byte_bits st b in
    let (cs', st2) := enc_bits rest st1 in
    (cs ++ cs', st2)
  end.

Definition flush_bits (st : Z * Z) : list Z :=
  let (buf, bits) := st in
  if bits =? 0 then []
  else [to_byte (Z.land (to_uint64 (Z.shiftl buf (6 - bits))) 0x3F)].

Fixpoint dec_drain_bits (n : nat) (buf bits : Z) : bytes * (Z * Z) :=
  match n with
  | O => ([], (buf, bits))
  | S n' =>
    if 8 <=? bits then
      let bits' := bits - 8 in
      let byteVal := to_byte (Z.shiftr buf bits') in
      let buf' := if bits' =? 0 then 0 else Z.land buf (bits_mask bits') in
      let (bs, st) := dec_drain_bits n' buf' bits' in
      (byteVal :: bs, st)
    else ([], (buf, bits))
  end.

Definition dec_sym_bits (st : Z * Z) (sym : Z) : bytes * (Z * Z) :=
  let (buf, bits) := st in
  dec_drain_bits (Z.to_nat (bits + 6)) (Z.lor (to_uint64 (Z.shiftl buf 6)) sym) (bits + 6).

Fixpoint dec_bits (syms : list Z) (st : Z * Z) : bytes * (Z * Z) :=
  match syms with
  | [] => ([], st)
  | sym :: rest =>
    let (bs, st1) := dec_sym_bits st sym in
    let (bs', st2) := dec_bits rest st1 in
    (bs ++ bs', st2)
  end.

(** The states in which the encoder rests between bytes: 0, 2 or 4 bits
    held back. *)
Definition phase (k : Z) : Prop := k = 0 \/ k = 2 \/ k = 4.

(** A 6-bit chunk. *)
Definition sym6 (sym : Z) : Prop := 0 <= sym < 64.

(** What the classifier keeps of a run of wire bytes. *)
Definition data_of (ascii : bool) (w : bytes) : bytes :=
  filter (fun x => negb (isPadding ascii x)) w.

(** The two accumulators when the encoder has taken whole bytes and the
    decoder every chunk cut so far: with [k] bits of the last byte [c] still
    in the encoder, the decoder holds the other [8 - k]. *)
Definition joint (k c : Z) : (Z * Z) * (Z * Z) :=
  if k =? 0 then ((0, 0), (0, 0))
  else ((c mod 2 ^ k, k), (c / 2 ^ k, 8 - k)).

(** The byte split between the two accumulators, if any. *)
Definition split_byte (k c : Z) : bytes := if k =? 0 then [] else [c].

Fixpoint list_eqb (a b : list Z) : bool :=
  match a, b with
  | [], [] => true
  | x :: a', y :: b' => (x =? y) && list_eqb a' b'
  | _, _ => false
  end.

Definition state_eqb (s s' : Z * Z) : bool :=
  (fst s =? fst s') && (snd s =? snd s').

(** One byte through the encoder and its chunks through the decoder. *)
Definition joint_step_ok (k c b : Z) : bool :=
  let (e, d) := joint k c in
  let (syms, e') := enc_byte_bits e b in
  let (outs, d') := dec_bits syms d in
  let k' := (k + 2) mod 6 in
  state_eqb e' (fst (joint k' b)) && state_eqb d' (snd (joint k' b))
  && list_eqb (outs ++ split_byte k' b) (split_byte k c ++ [b])
  && forallb (fun sym => (0 <=? sym) && (sym <? 64)) syms.

(** The flush chunk through the decoder. *)
Definition joint_flush_ok (k c : Z) : bool :=
  let (e, d) := joint k c in
  list_eqb (fst (dec_bits (flush_bits e) d)) (split_byte k c)
  && forallb (fun sym => (0 <=? sym) && (sym <? 64)) (flush_bits e).

Section WithLibraries.
Context {C : Crypto} {R : Rand}.

(** The plaintext the boost decoder of [sc] makes of a run of wire bytes,
    and all the plaintext [sc] can still deliver: what is pending, then
    what its reader's chunks decode to. *)
Definition plain_of (sc : Conn) (stream : bytes) : bytes :=
  match boostDec sc with
  | None => []
  | Some st =>
    xor_from (s_key st) (s_iv st) (s_pos st)
      (fst (dec_bits (map (unpackBoostByte sc) (data_of (boostASCII sc) stream))
              (decBitBuf sc, decBits sc)))
  end.

Definition avail (sc : Conn) : bytes :=
  pendingData sc ++ plain_of sc (concat (Bufio.src (reader sc))).

(** A connection as [NewConn] and [EnableBoost] leave its read side: an
    empty read buffer of [IOBufferSize] bytes, a recorder while recording,
    and a boost decoder. *)
Definition read_ready (sc : Conn) : Prop :=
  Bufio.buf (reader sc) = [] /\ Bufio.err (reader sc) = None /\
  Bufio.size (reader sc) = IOBufferSize /\
  (recording sc = true -> recorder sc <> None) /\
  boostDec sc <> None.

(** *** The puzzle read path *)

(** Modelled from the spec: [packHintsToKey] and the table's [DecodeMap]
    are not among the sources.  A [Decoder] is their composition: the
    plaintext byte the table has for four hints, in whatever order they
    came, if it has one. *)
Definition Decoder : Type := Z -> Z -> Z -> Z -> option Z.

Definition ErrMapMiss : error := ErrOther "INVALID_SUDOKU_MAP_MISS".

(** The loop [for _, b := range chunk] of [Read]; [Some e] on the left is
    the early [return 0, e]. *)
Fixpoint hint_chunk (decode : Decoder) (chunk : bytes) (sc : Conn) : option error * Conn :=
  match chunk with
  | [] => (None, sc)
  | b :: rest =>
    if isPadding (IsASCII (table sc)) b then hint_chunk decode rest sc
    else
      let sc1 := set_hintBuf (hintBuf sc ++ [b]) sc in
      if len (hintBuf sc1) =? 4 then
        let hb := hintBuf sc1 in
        match decode (nth 0 hb 0) (nth 1 hb 0) (nth 2 hb 0) (nth 3 hb 0) with
        | None => (Some ErrMapMiss, sc1)
        | Some val =>
          hint_chunk decode rest
            (set_hintBuf [] (set_pendingData (pendingData sc1 ++ [val]) sc1))
        end
      else hint_chunk decode rest sc1
  end.

(** The outer [for] of [Read]: [None] is a panic or the end of the fuel. *)
Fixpoint Read_loop (decode : Decoder) (fuel : nat) (plen : nat) (sc : Conn)
  : option ((bytes * option error) * Conn) :=
  match fuel with
  | O => None
  | S f =>
    match pendingData sc with
    | _ :: _ => Some (deliver plen sc)
    | [] =>
      let '((chunk, rErr), rd') := Bufio.Read IOBufferSize (reader sc) in
      let sc1 := set_reader rd' sc in
      let step :=
        match chunk with
        | [] => Some (None, sc1)
        | _ =>
          match record_chunk chunk sc1 with
          | None => None
          | Some sc2 => Some (hint_chunk decode chunk sc2)
          end
        end in
      match step with
      | None => None
      | Some (Some e, sc3) => Some (([], Some e), sc3)
      | Some (None, sc3) =>
        match rErr with
        | Some e => Some (([], Some e), sc3)
        | None =>
          match pendingData sc3 with
          | _ :: _ => Some (deliver plen sc3)
          | [] => Read_loop decode f plen sc3
          end
        end
      end
    end
  end.

(** [sc.Read(p)] for a [p] of length [plen]. *)
Definition Read (decode : Decoder) (plen : nat) (sc : Conn)
  : option ((bytes * option error) * Conn) :=
  if boostRead sc then readBoost plen sc
  else
    match pendingData sc with
    | _ :: _ => Some (deliver plen sc)
    | [] =>
      Read_loop decode
        (S (S (length (Bufio.src (reader sc)) + Bufio.Buffered (reader sc)))) plen sc
    end.

(** [io.ReadFull(r, buf)] for a [buf] of [want] bytes over any [Read]:
    call it on the unfilled rest until the buffer is full or a call fails. *)
Fixpoint ReadFull_loop_of (read : nat -> Conn -> option ((bytes * option error) * Conn))
    (fuel : nat) (want : nat) (got : bytes) (sc : Conn)
  : option ((bytes * option error) * Conn) :=
  if (want <=? length got)%nat then Some ((got, None), sc)
  else
    match fuel with
    | O => None
    | S f =>
      match read (want - length got)%nat sc with
      | None => None
      | Some ((d, Some e), sc1) =>
        let got1 := got ++ d in
        if (want <=? length got1)%nat then Some ((got1, None), sc1)
        else
          match got1, e with
          | _ :: _, EOF => Some ((got1, Some ErrUnexpectedEOF), sc1)
          | _, _ => Some ((got1, Some e), sc1)
          end
      | Some ((d, None), sc1) => ReadFull_loop_of read f want (got ++ d) sc1
      end
    end.

Definition ReadFull_of (read : nat -> Conn -> option ((bytes * option error) * Conn))
    (want : nat) (sc : Conn) : option ((bytes * option error) * Conn) :=
  ReadFull_loop_of read (S want) want [] sc.

(** Successive [Write] calls, up to the first that fails. *)
Fixpoint Write_all (ps : list bytes) (sc : Conn) : option (option error * Conn) :=
  match ps with
  | [] => Some (None, sc)
  | p :: rest =>
    match Write p sc with
    | None => None
    | Some ((_, Some e), sc1) => Some (Some e, sc1)
    | Some ((_, None), sc1) => Write_all rest sc1
    end
  end.

(** The hint accumulator on its own: what the codeword bytes of a stream
    decode to, four at a time, from an accumulator holding [hb], and the
    hints left over; [None] on a map miss. *)
Fixpoint hint_bytes (decode : Decoder) (data : bytes) (hb : bytes) : option (bytes * bytes) :=
  match data with
  | [] => Some ([], hb)
  | b :: rest =>
    let hb1 := hb ++ [b] in
    if len hb1 =? 4 then
      match decode (nth 0 hb1 0) (nth 1 hb1 0) (nth 2 hb1 0) (nth 3 hb1 0) with
      | None => None
      | Some val =>
        match hint_bytes decode rest [] with
        | None => None
        | Some (out, hb') => Some (val :: out, hb')
        end
      end
    else hint_bytes decode rest hb1
  end.

(** Modelled from the spec: what section 3 of the specification requires of
    the table's [decode]: the four hints of a codeword of [b], in any order,
    decode to [b]. *)
Definition decoder_ok (t : Table) (decode : Decoder) : Prop :=
  forall b pz h0 h1 h2 h3,
    is_byte b -> In pz (EncodeTable t b) ->
    Permutation [h0; h1; h2; h3] (hints_of pz) ->
    decode h0 h1 h2 h3 = Some b.

(** The read side of a connection between two reads, as [NewConn] leaves
    it: an empty read buffer of [IOBufferSize] bytes without a pending
    error, and a recorder while recording. *)
Definition reader_fresh (sc : Conn) : Prop :=
  Bufio.buf (reader sc) = [] /\ Bufio.err (reader sc) = None /\
  Bufio.size (reader sc) = IOBufferSize /\
  (recording sc = true -> recorder sc <> None).

(** All the plaintext a connection can still deliver through the puzzle
    codec: what is pending, then what its reader's chunks decode to; [None]
    when they hold a map miss. *)
Definition avail_puzzle (decode : Decoder) (sc : Conn) : option bytes :=
  match hint_bytes decode (data_of (IsASCII (table sc)) (concat (Bufio.src (reader sc))))
          (hintBuf sc) with
  | Some (out, _) => Some (pendingData sc ++ out)
  | None => None
  end.

(** What was recorded, as [GetBufferedAndRecorded] reads it. *)
Definition recorded (sc : Conn) : bytes :=
  match recorder sc with Some r => r | None => [] end.

End WithLibraries.

End Sudoku.

(* ------------------------------------------------------------------ *)
(** ** internal/tunnel *)

Module Tunnel.

Definition controlVersion : Z := 0x01.
Definition hmacLen : Z := 16.
Definition readChunkSize : Z := 32 * 1024.

Definition ControlCmdBoostRequest : Z := 0x01.
Definition ControlCmdBoostAck : Z := 0x02.

Definition controlMagic : bytes := [0xF7; 72; 66; 67].  (* 0xF7 'H' 'B' 'C' *)

(** [bytes.Index(s, sep)]: the first position of [sep] in [s], or -1. *)
Fixpoint has_prefix (sep s : bytes) : bool :=
  match sep, s with
  | [], _ => true
  | _ :: _, [] => false
  | a :: sep', b :: s' => (a =? b) && has_prefix sep' s'
  end.

Fixpoint index_of (s sep : bytes) : option nat :=
  if has_prefix sep s then Some O
  else match s with
       | [] => None
       | _ :: rest => match index_of rest sep with Some i => Some (S i) | None => None end
       end.

Definition Index (s sep : bytes) : Z :=
  match index_of s sep with Some i => Z.of_nat i | None => -1 end.

(** *** bandwidth monitor *)

Record bandwidthSample : Type := { t : Z; len_ : Z }.

Record BandwidthMonitor : Type := {
  window : list bandwidthSample;
  total : Z;
  threshold : Z;
  windowDur : Z;
  triggered : bool;
  pendingTick : bool
}.

Definition NewBandwidthMonitor (thresholdBytes window : Z) : BandwidthMonitor :=
  {| window := []; total := 0; threshold := thresholdBytes; windowDur := window;
     triggered := false; pendingTick := false |}.

(** The trimming loop of [Add]: drop the leading samples older than the
    cut-off and take them off the total. *)
Fixpoint trim_stale (w : list bandwidthSample) (cutoff tot : Z)
  : list bandwidthSample * Z :=
  match w with
  | [] => ([], tot)
  | s :: rest =>
    if t s <? cutoff then trim_stale rest cutoff (to_int64 (tot - len_ s))
    else (w, tot)
  end.

(** [m.Add(n)]; [now] is the reading of [time.Now()], in nanoseconds. *)
Definition Add (now : Z) (n : Z) (m : BandwidthMonitor) : bool * BandwidthMonitor :=
  if n <=? 0 then (false, m)
  else
    let w1 := window m ++ [{| t := now; len_ := n |}] in
    let tot1 := to_int64 (total m + n) in
    let cutoff := now - windowDur m in
    let (w2, tot2) := trim_stale w1 cutoff tot1 in
    let m1 := {| window := w2; total := tot2; threshold := threshold m;
                 windowDur := windowDur m; triggered := triggered m;
                 pendingTick := pendingTick m |} in
    if triggered m1 then (false, m1)
    else if threshold m1 <=? total m1 then
      if pendingTick m1 then
        (true, {| window := w2; total := tot2; threshold := threshold m;
                  windowDur := windowDur m; triggered := true;
                  pendingTick := pendingTick m |})
      else
        (false, {| window := w2; total := tot2; threshold := threshold m;
                   windowDur := windowDur m; triggered := triggered m;
                   pendingTick := true |})
    else
      (false, {| window := w2; total := tot2; threshold := threshold m;
                 windowDur := windowDur m; triggered := triggered m;
                 pendingTick := false |}).

(** A run of [Add] calls, each with its clock reading. *)
Fixpoint Add_all (calls : list (Z * Z)) (m : BandwidthMonitor) : list bool * BandwidthMonitor :=
  match calls with
  | [] => ([], m)
  | (now, n) :: rest =>
    let (r, m1) := Add now n m in
    let (rs, m2) := Add_all rest m1 in
    (r :: rs, m2)
  end.

(** The firing rule in the specification's words, over the history of
    admissions (the calls with [n > 0]).  [rolling_total] is the sum of the
    samples not older than the window at the time of an admission;
    [fires_when above] answers [true] on an admission whose rolling total is
    [above] the threshold when the admission before it was so too and no
    earlier call answered [true]. *)
Definition sum_len (w : list bandwidthSample) : Z := fold_right Z.add 0 (map len_ w).

Definition in_window (cutoff : Z) (s : bandwidthSample) : bool := negb (t s <? cutoff).

Definition rolling_total (dur : Z) (hist : list bandwidthSample) (now : Z) : Z :=
  sum_len (filter (in_window (now - dur)) hist).

Fixpoint fires_when (above : Z -> Z -> bool) (thr dur : Z) (hist : list bandwidthSample)
    (prev fired : bool) (calls : list (Z * Z)) : list bool :=
  match calls with
  | [] => []
  | (now, n) :: rest =>
    if n <=? 0 then false :: fires_when above thr dur hist prev fired rest
    else
      let hist' := hist ++ [{| t := now; len_ := n |}] in
      let over := above thr (rolling_total dur hist' now) in
      let fire := over && prev && negb fired in
      fire :: fires_when above thr dur hist' over (fired || fire) rest
  end.

(** Samples in time order. *)
Definition by_time (a b : bandwidthSample) : Prop := t a <= t b.

(** The clock never runs backwards over a run of calls starting at [t0]. *)
Fixpoint clock_monotone (t0 : Z) (calls : list (Z * Z)) : Prop :=
  match calls with
  | [] => True
  | (now, _) :: rest => t0 <= now /\ clock_monotone now rest
  end.

(** The bytes admitted over a run of calls. *)
Fixpoint admitted (calls : list (Z * Z)) : Z :=
  match calls with
  | [] => 0
  | (_, n) :: rest => (if n <=? 0 then 0 else n) + admitted rest
  end.



Section WithLibraries.
Context {C : Crypto}.

Definition DeriveControlKey (seed : string) : bytes :=
  sha256 (bytes_of_string (seed ++ "|hb-control")%string).

Definition DeriveBoostAESKey (seed : string) : bytes :=
  sha256 (bytes_of_string (seed ++ "|hb-aes")%string).

(** *** control multiplexer *)

(** The [ControlConn] struct.  [conn_src]/[conn_err] are what the wrapped
    connection's [Read] returns; the two callbacks are kept as the lists of
    their invocations ([handled], [reported]); a nil callback is
    [has_handler]/[has_onData] being false. *)
Record ControlConn : Type := {
  conn_src : list bytes;
  conn_err : error;
  hmacKey : bytes;
  has_handler : bool;
  handled : list (Z * bytes);
  has_onData : bool;
  reported : list Z;
  readBuf : bytes;
  dataBuf : bytes
}.

Definition set_conn_src v c := Build_ControlConn v (conn_err c) (hmacKey c) (has_handler c) (handled c) (has_onData c) (reported c) (readBuf c) (dataBuf c).
Definition set_handled v c := Build_ControlConn (conn_src c) (conn_err c) (hmacKey c) (has_handler c) v (has_onData c) (reported c) (readBuf c) (dataBuf c).
Definition set_reported v c := Build_ControlConn (conn_src c) (conn_err c) (hmacKey c) (has_handler c) (handled c) (has_onData c) v (readBuf c) (dataBuf c).
Definition set_readBuf v c := Build_ControlConn (conn_src c) (conn_err c) (hmacKey c) (has_handler c) (handled c) (has_onData c) (reported c) v (dataBuf c).
Definition set_dataBuf v c := Build_ControlConn (conn_src c) (conn_err c) (hmacKey c) (has_handler c) (handled c) (has_onData c) (reported c) (readBuf c) v.

Definition NewControlConn (base_src : list bytes) (base_err : error) (key : bytes)
    (handler onData : bool) : ControlConn :=
  {| conn_src := base_src; conn_err := base_err; hmacKey := key;
     has_handler := handler; handled := []; has_onData := onData; reported := [];
     readBuf := []; dataBuf := [] |}.

(** The frame [SendControl(cmd, payload)] writes. *)
Definition control_frame (key : bytes) (cmd : Z) (payload : bytes) : bytes :=
  let header := controlMagic ++ [controlVersion; cmd] ++ PutUint16 (len payload) ++ payload in
  let fullMAC := hmac_sha256 key (slice_from (len controlMagic) header) in
  header ++ slice_to hmacLen fullMAC.

Definition verifyMAC (c : ControlConn) (body macBytes : bytes) : bool :=
  let expected := hmac_sha256 (hmacKey c) body in
  bytes_eqb (slice_to hmacLen expected) macBytes.

Definition appendData (b : bytes) (c : ControlConn) : ControlConn :=
  if len b =? 0 then c
  else
    let c1 := set_dataBuf (dataBuf c ++ b) c in
    if has_onData c1 then set_reported (reported c1 ++ [len b]) c1 else c1.

(** The scan state once [readBuf] starts with a whole candidate frame. *)
Definition frame_version (rb : bytes) : Z := nth 4 rb 0.
Definition frame_cmd (rb : bytes) : Z := nth 5 rb 0.
Definition frame_payloadLen (rb : bytes) : Z := Uint16 (slice_to 2 (slice_from 6 rb)).
Definition frame_total (rb : bytes) : Z :=
  len controlMagic + 1 + 1 + 2 + frame_payloadLen rb + hmacLen.
Definition frame_payload (rb : bytes) : bytes :=
  slice_to (frame_payloadLen rb) (slice_from (len controlMagic + 4) (slice_to (frame_total rb) rb)).
Definition frame_body (rb : bytes) : bytes :=
  slice_to (frame_total rb - hmacLen - len controlMagic)
    (slice_from (len controlMagic) (slice_to (frame_total rb) rb)).
Definition frame_mac (rb : bytes) : bytes :=
  slice_from (frame_total rb - hmacLen) (slice_to (frame_total rb) rb).

(** One trip round the [for] loop of [processBuffer]: [Return] where the
    code returns, [Continue] where it goes round again. *)
Inductive trip : Type :=
| Return (c : ControlConn)
| Continue (c : ControlConn).

Definition processBuffer_body (c : ControlConn) : trip :=
  let idx := Index (readBuf c) controlMagic in
  if idx =? -1 then
    let c1 := if 0 <? len (readBuf c) then appendData (readBuf c) c else c in
    Return (set_readBuf [] c1)
  else
    let c1 :=
      if 0 <? idx then
        set_readBuf (slice_from idx (readBuf c)) (appendData (slice_to idx (readBuf c)) c)
      else c in
    let rb := readBuf c1 in
    if len rb <? len controlMagic + 1 + 1 + 2 + hmacLen then Return c1
    else if negb (bytes_eqb (slice_to (len controlMagic) rb) controlMagic) then
      Continue (set_readBuf (slice_from 1 rb) (appendData (slice_to 1 rb) c1))
    else
      let version := frame_version rb in
      let cmd := frame_cmd rb in
      let total := frame_total rb in
      if len rb <? total then Return c1
      else
        let payload := frame_payload rb in
        let macBytes := frame_mac rb in
        let ok := (version =? controlVersion) && verifyMAC c1 (frame_body rb) macBytes in
        if ok then
          let c2 := if has_handler c1 then set_handled (handled c1 ++ [(cmd, payload)]) c1
                    else c1 in
          Continue (set_readBuf (slice_from total rb) c2)
        else
          (* Not a valid control frame, emit first byte as data to progress. *)
          Continue (set_readBuf (slice_from 1 rb) (appendData (slice_to 1 rb) c1)).

(** [processBuffer]; every [Continue] shortens [readBuf], which bounds the
    fuel.  [None] is the end of the fuel. *)
Fixpoint processBuffer_loop (fuel : nat) (c : ControlConn) : option ControlConn :=
  match fuel with
  | O => None
  | S f =>
    match processBuffer_body c with
    | Return c' => Some c'
    | Continue c' => processBuffer_loop f c'
    end
  end.

Definition processBuffer (c : ControlConn) : option ControlConn :=
  processBuffer_loop (S (length (readBuf c))) c.

(** The [for len(c.dataBuf) == 0] loop of [Read]; [chunks] is [conn_src]. *)
Fixpoint Read_loop (chunks : list bytes) (c : ControlConn)
  : option (option error * ControlConn) :=
  match dataBuf c with
  | _ :: _ => Some (None, c)
  | [] =>
    match chunks with
    | [] => Some (Some (conn_err c), set_conn_src [] c)
    | chunk :: rest =>
      let c0 := set_conn_src rest c in
      let step :=
        match chunk with
        | [] => Some c0
        | _ => processBuffer (set_readBuf (readBuf c0 ++ chunk) c0)
        end in
      match step with
      | None => None
      | Some c1 =>
        match dataBuf c1 with
        | _ :: _ => Some (None, c1)
        | [] => Read_loop rest c1
        end
      end
    end
  end.

(** [c.Read(p)] for a [p] of length [plen]. *)
Definition Read (plen : nat) (c : ControlConn) : option ((bytes * option error) * ControlConn) :=
  match Read_loop (conn_src c) c with
  | None => None
  | Some (Some e, c1) => Some (([], Some e), c1)
  | Some (None, c1) =>
    Some ((firstn plen (dataBuf c1), None), set_dataBuf (skipn plen (dataBuf c1)) c1)
  end.

(** The chunks the transport handed over that were not empty. *)
Definition nonempty (chunks : list bytes) : list bytes :=
  filter (fun ch => negb (len ch =? 0)) chunks.

(** Successive [Read] calls with buffers of the given lengths, up to the
    first error: the data returned, and the error if one came. *)
Fixpoint Read_all (sizes : list nat) (c : ControlConn)
  : option ((bytes * option error) * ControlConn) :=
  match sizes with
  | [] => Some (([], None), c)
  | plen :: rest =>
    match Read plen c with
    | None => None
    | Some ((d, Some e), c1) => Some ((d, Some e), c1)
    | Some ((d, None), c1) =>
      match Read_all rest c1 with
      | None => None
      | Some ((d', e), c2) => Some ((d ++ d', e), c2)
      end
    end
  end.

(** [c.SendControl(cmd, payload)]: what it hands to the wrapped
    connection's [Write], and the error it returns; [w_err] is what that
    [Write] answers. *)
Definition SendControl (w_err : option error) (c : ControlConn) (cmd : Z) (payload : bytes)
  : bytes * option error :=
  if 0xFFFF <? len payload then ([], Some (ErrOther "control payload too large"))
  else (control_frame (hmacKey c) cmd payload, w_err).

End WithLibraries.
End Tunnel.

(* ------------------------------------------------------------------ *)
(** ** pkg/obfs/httpmask *)

Module Httpmask.

Definition POST : bytes := bytes_of_string "POST".
Definition LF : Z := 10.
Definition CR : Z := 13.

(** The header loop of [ConsumeHeader]: each trip consumes a line. *)
Fixpoint ConsumeHeader_loop (fuel : nat) (consumed : bytes) (r : Bufio.Reader)
  : option ((bytes * option error) * Bufio.Reader) :=
  match fuel with
  | O => None
  | S f =>
    match Bufio.ReadSlice LF r with
    | None => None
    | Some ((line, Some e), r1) => Some ((consumed, Some e), r1)
    | Some ((line, None), r1) =>
      let consumed1 := consumed ++ line in
      match line with
      | [c0; c1] =>
        if (c0 =? CR) && (c1 =? LF) then Some ((consumed1, None), r1)
        else ConsumeHeader_loop f consumed1 r1
      | [c0] =>
        if c0 =? LF then Some ((consumed1, None), r1)
        else ConsumeHeader_loop f consumed1 r1
      | _ => ConsumeHeader_loop f consumed1 r1
      end
    end
  end.

(** [ConsumeHeader(r)]: the bytes it reports as consumed, and the error. *)
Definition ConsumeHeader (r : Bufio.Reader) : option ((bytes * option error) * Bufio.Reader) :=
  match Bufio.ReadSlice LF r with
  | None => None
  | Some ((line, Some e), r1) => Some (([], Some e), r1)
  | Some ((line, None), r1) =>
    let consumed := line in
    if (length line <? 4)%nat || negb (bytes_eqb (firstn 4 line) POST) then
      Some ((consumed, Some (ErrOther "invalid method or garbage")), r1)
    else
      ConsumeHeader_loop (S (length (Bufio.remaining r1))) consumed r1
  end.

(** *** The request header the client writes *)

Definition userAgents : list string := [
  "Mozilla/5.0 (Windows NT 10.0; Win64; x64) AppleWebKit/537.36 (KHTML, like Gecko) Chrome/119.0.0.0 Safari/537.36";
  "Mozilla/5.0 (Macintosh; Intel Mac OS X 10_15_7) AppleWebKit/605.1.15 (KHTML, like Gecko) Version/17.0 Safari/605.1.15";
  "Mozilla/5.0 (X11; Linux x86_64) AppleWebKit/537.36 (KHTML, like Gecko) Chrome/118.0.0.0 Safari/537.36";
  "Mozilla/5.0 (Windows NT 10.0; Win64; x64; rv:109.0) Gecko/20100101 Firefox/119.0"
]%string.

Definition paths : list string := [
  "/api/v1/upload"; "/data/sync"; "/uploads/raw"; "/api/report"; "/feed/update"
]%string.

Definition contentTypes : list string := [
  "application/octet-stream"; "application/x-protobuf"
]%string.

Definition CRLF : bytes := [CR; LF].

(** [fmt.Appendf(buf, "%d", n)]: the decimal digits of [n], after a minus
    sign when it is negative. *)
Fixpoint digits (fuel : nat) (n : Z) : bytes :=
  match fuel with
  | O => []
  | S f => (if n <? 10 then [] else digits f (n / 10)) ++ [48 + n mod 10]
  end.

Definition format_d (n : Z) : bytes :=
  if n <? 0 then 45 :: digits (S (Z.to_nat (Z.log2 (- n)))) (- n)
  else digits (S (Z.to_nat (Z.log2 n))) n.

Section WithLibraries.
Context {R : Rand}.

(** [r.Int63n(n)] of [math/rand], which [Rand] does not list: a draw from
    [0, n), and a panic when [n <= 0]. *)
Variable Int63n : Z -> rng -> option (Z * rng).

(** [WriteRandomRequestHeader(w, host)]: what it hands to [w.Write] and the
    error it returns; [r] is the generator taken from the pool, [w_err] what
    [w.Write] answers. *)
Definition WriteRandomRequestHeader (r : rng) (w_err : option error) (host : string)
  : option ((bytes * option error) * rng) :=
  match Intn (len_list paths) r with
  | None => None
  | Some (i, r1) =>
    match Sudoku.index_at paths i with
    | None => None
    | Some path =>
      match Intn (len_list userAgents) r1 with
      | None => None
      | Some (j, r2) =>
        match Sudoku.index_at userAgents j with
        | None => None
        | Some ua =>
          match Intn (len_list contentTypes) r2 with
          | None => None
          | Some (k, r3) =>
            match Sudoku.index_at contentTypes k with
            | None => None
            | Some ctype =>
              match Int63n (1024 * 1024 * 1024) r3 with
              | None => None
              | Some (x, r4) =>
                let contentLength := to_int64 (1024 * 1024 * 1024 + x) in
                let buf := bytes_of_string "POST " in
                let buf := buf ++ bytes_of_string path in
                let buf := buf ++ bytes_of_string " HTTP/1.1" ++ CRLF ++ bytes_of_string "Host: " in
                let buf := buf ++ bytes_of_string host in
                let buf := buf ++ CRLF ++ bytes_of_string "User-Agent: " in
                let buf := buf ++ bytes_of_string ua in
                let buf := buf ++ CRLF ++ bytes_of_string "Content-Type: " in
                let buf := buf ++ bytes_of_string ctype in
                let buf := buf ++ CRLF ++ bytes_of_string "Content-Length: " in
                let buf := buf ++ format_d contentLength in
                let buf := buf ++ CRLF ++ bytes_of_string "Connection: keep-alive" ++ CRLF
                               ++ bytes_of_string "Cache-Control: no-cache" ++ CRLF ++ CRLF in
                Some ((buf, w_err), r4)
              end
            end
          end
        end
      end
    end
  end.

End WithLibraries.

(** A line of a header block: bytes without a line feed, then the line
    feed; and not the empty line that ends the block. *)
Definition header_line (l : bytes) : Prop :=
  exists body, l = body ++ [LF] /\ ~ In LF body /\ body <> [] /\ body <> [CR].

End Httpmask.

(* ------------------------------------------------------------------ *)
(** ** apis *)

Module Apis.
Import Sudoku.

(** [abs(x)] on [int64]. *)
Definition abs (x : Z) : Z := if x <? 0 then to_int64 (- x) else x.

(** [dst] after [copy(dst, src)]. *)
Definition copy_into (dst src : bytes) : bytes :=
  firstn (length dst) src ++ skipn (length src) dst.

Section WithLibraries.
Context {C : Crypto} {R : Rand}.

(** The fields of [ProtocolConfig] the handshake reads. *)
Record ProtocolConfig : Type := {
  Table_ : Table;
  Key : string;
  AEADMethod : string;
  PaddingMin : Z;
  PaddingMax : Z;
  HandshakeTimeoutSeconds : Z;
  DisableHTTPMask : bool
}.

(** An accepted TCP connection: who it is, and what its [Read] will return. *)
Record NetConn : Type := {
  fd : nat;
  incoming : list bytes;
  incoming_err : error
}.

Record HandshakeError : Type := {
  Err : error;
  RawConn : nat;
  HTTPHeaderData : bytes;
  ReadData : bytes
}.

Inductive Outcome : Type :=
| Accepted (tunnel : Conn) (targetAddr : string)
| Failed (e : HandshakeError)
| Refused (e : error)
| Crashed.

(** [buildHandshakePayload(key)]; [now] is [time.Now().Unix()]. *)
Definition buildHandshakePayload (now : Z) (key : string) : bytes :=
  let payload := repeat 0 16 in
  let payload := copy_into (firstn 8 payload) (PutUint64 now) ++ skipn 8 payload in
  let hash := sha256 (bytes_of_string key) in
  firstn 8 payload ++ copy_into (skipn 8 payload) (firstn 8 hash).

(** The packages [ServerHandshake] calls that are not among the sources:
    [cfg.Validate], [crypto.NewAEADConn], reading through the AEAD
    connection ([io.ReadFull(cConn, buf)], which drives the puzzle codec
    underneath and so changes its state) and [protocol.ReadAddress]. *)
Class Collaborators : Type := {
  Validate : ProtocolConfig -> option error;
  NewAEADConn : string -> string -> option error;
  aead_ReadFull : nat -> Conn -> (bytes * option error) * Conn;
  ReadAddress : Conn -> (string * option error) * Conn
}.

Context {K : Collaborators}.

(** [ts := int64(binary.BigEndian.Uint64(handshakeBuf[:8]))]. *)
Definition handshake_ts (handshakeBuf : bytes) : Z :=
  to_int64 (Uint64 (firstn 8 handshakeBuf)).

(** [abs(now-ts) > 60]. *)
Definition timestamp_rejected (now ts : Z) : bool :=
  60 <? abs (to_int64 (now - ts)).

Definition ErrTimestamp : error := ErrOther "timestamp skew/replay detected".

(** The closure [fail]. *)
Definition fail (rawConn : NetConn) (httpHeaderData : bytes) (sConn : Conn)
    (originalErr : error) : Outcome :=
  let badData := GetBufferedAndRecorded (Some sConn) in
  Failed {| Err := originalErr; RawConn := fd rawConn;
            HTTPHeaderData := httpHeaderData; ReadData := badData |}.

(** What [bufferedConn.Read] hands to the puzzle codec, which reads with a
    32 KiB buffer: first all that [bufReader] still holds, then the
    connection's own chunks. *)
Definition bufferedConn_src (b : Bufio.Reader) : list bytes :=
  match Bufio.buf b with
  | [] => Bufio.src b
  | held => held :: Bufio.src b
  end.

(** [ServerHandshake(rawConn, cfg)]; [now] is the server's Unix time when
    the payload is checked, [seeded] the generator [NewConn] seeds. *)
Definition ServerHandshake (now : Z) (seeded : rng) (rawConn : NetConn)
    (cfg : option ProtocolConfig) : Outcome :=
  match cfg with
  | None => Refused (ErrOther "config is required")
  | Some cfg =>
    match Validate cfg with
    | Some e => Refused (ErrOther "invalid config")
    | None =>
      let bufReader := Bufio.NewReader (incoming rawConn) (incoming_err rawConn) in
      let '(shouldConsumeMask, bufReader) :=
        if negb (DisableHTTPMask cfg) then
          let '((peekBytes, e), b1) := Bufio.Peek 4 bufReader in
          (match e with None => bytes_eqb peekBytes Httpmask.POST | Some _ => false end, b1)
        else (false, bufReader) in
      let masked :=
        if shouldConsumeMask then
          match Httpmask.ConsumeHeader bufReader with
          | None => None
          | Some ((data, e), b1) => Some (data, e, b1)
          end
        else Some ([], None, bufReader) in
      match masked with
      | None => Crashed
      | Some (httpHeaderData, Some e, _) =>
        Failed {| Err := ErrOther "invalid http header"; RawConn := fd rawConn;
                  HTTPHeaderData := httpHeaderData; ReadData := [] |}
      | Some (httpHeaderData, None, bufReader) =>
        let sConn := NewConn (bufferedConn_src bufReader) (Bufio.src_err bufReader) None
                       (Table_ cfg) (PaddingMin cfg) (PaddingMax cfg) true seeded in
        match NewAEADConn (Key cfg) (AEADMethod cfg) with
        | Some e => fail rawConn httpHeaderData sConn (ErrOther "crypto setup failed")
        | None =>
          let '((handshakeBuf, e), sConn) := aead_ReadFull 16 sConn in
          match e with
          | Some e => fail rawConn httpHeaderData sConn (ErrOther "read handshake failed")
          | None =>
            let ts := handshake_ts handshakeBuf in
            if timestamp_rejected now ts then
              fail rawConn httpHeaderData sConn ErrTimestamp
            else
              let sConn := StopRecording sConn in
              let '((targetAddr, e), sConn) := ReadAddress sConn in
              match e with
              | Some e => fail rawConn httpHeaderData sConn (ErrOther "read target address failed")
              | None => Accepted sConn targetAddr
              end
          end
        end
      end
    end
  end.

(** The [BOOST_ACK] handler that [wrapAPIBoost] installs on the client;
    [seed] is [cfg.Key]. *)
Definition ack_handler (seed : string) (cmd : Z) (payload : bytes)
    (st : bool * Conn) : bool * Conn :=
  let aesKey := Tunnel.DeriveBoostAESKey seed in
  let (activated, managed) := st in
  if negb (cmd =? Tunnel.ControlCmdBoostAck) || activated then st
  else if len payload <? 17 then st
  else
    let targetASCII := nth 0 payload 0 =? 0 in
    let iv := slice_from 1 payload in
    if len iv <? 16 then st
    else
      match EnableBoost false true aesKey (slice_to 16 iv) targetASCII managed with
      | (Some _, _) => st
      | (None, managed') => (true, managed')
      end.

(** The control multiplexer [wrapAPIBoost] builds over [conn]. *)
Definition wrapAPIBoost_ctrl (conn_src : list bytes) (conn_err : error) (seed : string)
  : Tunnel.ControlConn :=
  let controlKey := Tunnel.DeriveControlKey seed in
  Tunnel.NewControlConn conn_src conn_err controlKey true true.

End WithLibraries.
End Apis.

(* ------------------------------------------------------------------ *)
(** ** Stand-ins for the libraries, for running the code on examples *)

Module Mock.

(** A digest that is 32 bytes of checksum; a MAC likewise; a key stream
    that walks over key and IV. *)
Definition checksum (m : bytes) : Z := fold_left (fun a b => (a * 31 + b + 7) mod 256) m 0.

#[export] Instance crypto : Crypto := {|
  sha256 := fun m => map (fun i => (checksum m + Z.of_nat i) mod 256) (seq 0 32);
  hmac_sha256 := fun k m => map (fun i => (checksum (k ++ m) + 3 * Z.of_nat i) mod 256) (seq 0 32);
  aes_ctr := fun k iv n => (checksum k + 5 * checksum iv + 11 * Z.of_nat n) mod 256
|}.

(** A generator that replays a tape of numbers: [Float32] reads the next
    one as thousandths, [Intn n] reduces it modulo [n]; an empty tape reads
    as zeros. *)
#[export] Instance rand : Rand := {|
  rng := list Z;
  Float32 := fun tape =>
    match tape with
    | [] => (0 # 1, [])
    | x :: rest => ((x mod 1000) # 1000, rest)
    end;
  Intn := fun n tape =>
    if n <=? 0 then None
    else match tape with
         | [] => Some (0, [])
         | x :: rest => Some (x mod n, rest)
         end
|}.

(** An ASCII-mode table: codeword bytes have bit 6 set, padding bytes do
    not. *)
Definition table : Sudoku.Table := {|
  Sudoku.EncodeTable := fun b =>
    [(0x40 + b mod 16, 0x50 + b / 16 mod 16, 0x60, 0x70);
     (0x41 + b mod 16, 0x51 + b / 16 mod 16, 0x61, 0x71)];
  Sudoku.PaddingPool := [0x20; 0x2A; 0x3F];
  Sudoku.IsASCII := true
|}.

(** An entropy-mode table. *)
Definition table_entropy : Sudoku.Table := {|
  Sudoku.EncodeTable := fun b => [(b mod 16, 0x20 + b / 16 mod 16, 0x40, 0x60)];
  Sudoku.PaddingPool := [0x80; 0x10; 0x9F];
  Sudoku.IsASCII := false
|}.

Definition conn : Sudoku.Conn (R := rand) :=
  Sudoku.NewConn (R := rand) [] EOF None table 20 20 false [500; 100; 2; 900].

Definition cfg : Apis.ProtocolConfig := {|
  Apis.Table_ := table; Apis.Key := "shared-key"; Apis.AEADMethod := "none";
  Apis.PaddingMin := 0; Apis.PaddingMax := 0;
  Apis.HandshakeTimeoutSeconds := 5; Apis.DisableHTTPMask := false
|}.

(** Collaborators that accept every configuration and cipher, deliver
    [payload] as the handshake and then a fixed target address. *)
Definition collaborators (payload : bytes) : Apis.Collaborators (R := rand) := {|
  Apis.Validate := fun _ => None;
  Apis.NewAEADConn := fun _ _ => None;
  Apis.aead_ReadFull := fun n sc => ((firstn n payload, None), sc);
  Apis.ReadAddress := fun sc => (("example.com:443"%string, None), sc)
|}.

(** The server clock and the handshake payload of the failing run: a
    timestamp 2^63 seconds before [clock]. *)
Definition clock : Z := 1700000000.
Definition far_payload : bytes := [0x80; 0; 0; 0; 0x65; 0x53; 0xF1; 0; 1; 2; 3; 4; 5; 6; 7; 8].

Definition direct_cfg : Apis.ProtocolConfig := {|
  Apis.Table_ := table; Apis.Key := "shared-key"; Apis.AEADMethod := "none";
  Apis.PaddingMin := 0; Apis.PaddingMax := 0;
  Apis.HandshakeTimeoutSeconds := 5; Apis.DisableHTTPMask := true
|}.

(** The request of the failing run of the mask stage: a request line, then
    a header line cut short by the end of the stream. *)
Definition request_line : bytes := bytes_of_string "POST /a HTTP/1.1" ++ [13; 10].
Definition cut_request : bytes := request_line ++ bytes_of_string "Host: x".

(** A multiplexer whose scan buffer holds one frame as [SendControl] writes
    it, and one more byte. *)
Definition ctrl_key : bytes := [7; 7; 7].
Definition ctrl : Tunnel.ControlConn :=
  Tunnel.set_readBuf (Tunnel.control_frame ctrl_key Tunnel.ControlCmdBoostAck [0; 1; 2] ++ [9])
    (Tunnel.NewControlConn [] EOF ctrl_key true true).

(** A connection that pads at every coin (rate 1), about to write. *)
Definition padding_conn : Sudoku.Conn (R := rand) :=
  Sudoku.NewConn (R := rand) [] EOF None table 100 100 false [].

(** The payload of the repository's boost round-trip test, a key and an
    IV. *)
Definition boost_payload : bytes := [0x3a; 0x1f; 0x71; 0x42; 0x99; 0x10; 0x7c].
Definition boost_key : bytes := map Z.of_nat (seq 1 32).
Definition boost_iv : bytes := repeat 0xAB 16.

(** The decoder of [table]: its codewords are told apart by their largest
    hint, and the byte is read off the smallest hint and the sum. *)
Definition decode : Sudoku.Decoder := fun h0 h1 h2 h3 =>
  let hs := [h0; h1; h2; h3] in
  let hi := fold_right Z.max 0 hs in
  let lo := fold_right Z.min 255 hs in
  let sum := fold_right Z.add 0 hs in
  if hi =? 0x70 then Some ((lo - 0x40) + 16 * (sum - 0x160 - (lo - 0x40)))
  else if hi =? 0x71 then Some ((lo - 0x41) + 16 * (sum - 0x164 - (lo - 0x41)))
  else None.

(** [Int63n] for the tape generator. *)
Definition int63n : Z -> rng (Rand := rand) -> option (Z * rng (Rand := rand)) :=
  fun n tape =>
    if n <=? 0 then None
    else match tape with
         | [] => Some (0, [])
         | x :: rest => Some (x mod n, rest)
         end.

(** A recording connection as [ServerHandshake] makes it, over a transport
    that delivers two chunks. *)
Definition recording_conn : Sudoku.Conn (R := rand) :=
  Sudoku.NewConn (R := rand) [[0x20; 0x41; 0x55]; [0x60; 0x70; 0x2A]] EOF None table 0 0 true [].

End Mock.

(* ------------------------------------------------------------------ *)
(** ** Facts *)

(** A property checked on every integer below [n]. *)
Lemma forallb_below (P : Z -> bool) (n : nat) :
  forallb P (map Z.of_nat (seq 0 n)) = true ->
  forall v, 0 <= v < Z.of_nat n -> P v = true.
Proof.
  intros H v Hv. rewrite forallb_forall in H. apply H.
  apply in_map_iff. exists (Z.to_nat v). split; [lia|].
  apply in_seq. lia.
Qed.

Module SudokuFacts.
Import Sudoku.
Section WithLibraries.
Context {C : Crypto} {R : Rand}.

(** Packing a 6-bit value: the carrier's classifier bits, and unpacking. *)
Lemma packBoostByte_facts (sc : Conn) (v : Z) :
  0 <= v < 64 ->
  (boostASCII sc = true -> Z.land (packBoostByte sc v) 0x40 <> 0) /\
  (boostASCII sc = false -> Z.land (packBoostByte sc v) 0x90 = 0) /\
  isPadding (boostASCII sc) (packBoostByte sc v) = false /\
  unpackBoostByte sc (packBoostByte sc v) = v.
Proof.
  intros Hv.
  unfold packBoostByte, unpackBoostByte, isPadding.
  destruct (boostASCII sc).
  - pose proof (forallb_below
      (fun v => negb (Z.land (Z.lor 0x40 (Z.land v 0x3F)) 0x40 =? 0)
                && (Z.land (Z.lor 0x40 (Z.land v 0x3F)) 0x3F =? v)) 64
      eq_refl v Hv) as H.
    apply andb_true_iff in H. destruct H as [H1 H2].
    apply negb_true_iff in H1. apply Z.eqb_eq in H2.
    split; [intros _; apply Z.eqb_neq; exact H1|].
    split; [discriminate|].
    split; [exact H1 | exact H2].
  - set (pk := fun v => Z.lor (to_byte (Z.shiftl (Z.land v 0x30) 1)) (Z.land v 0x0F)).
    pose proof (forallb_below
      (fun v => (Z.land (pk v) 0x90 =? 0)
                && (Z.lor (Z.shiftr (Z.land (pk v) 0x60) 1) (Z.land (pk v) 0x0F) =? v)) 64
      eq_refl v Hv) as H.
    apply andb_true_iff in H. destruct H as [H1 H2].
    apply Z.eqb_eq in H2. fold (pk v).
    split; [discriminate|].
    split; [intros _; apply Z.eqb_eq; exact H1|].
    split; [rewrite H1; reflexivity | exact H2].
Qed.

(** C8.  Every 6-bit value packed into a carrier byte passes the receiving
    classifier as data (bit 6 set in ASCII mode, bits 7 and 4 clear in
    entropy mode), and unpacking the carrier gives the value back, in both
    modes. *)
Theorem packBoostByte_classified_and_invertible :
  forall (sc : Conn) (v : Z),
    0 <= v < 64 ->
    (boostASCII sc = true -> Z.land (packBoostByte sc v) 0x40 <> 0) /\
    (boostASCII sc = false -> Z.land (packBoostByte sc v) 0x90 = 0) /\
    isPadding (boostASCII sc) (packBoostByte sc v) = false /\
    unpackBoostByte sc (packBoostByte sc v) = v.
Proof. intros sc v Hv. exact (packBoostByte_facts sc v Hv). Qed.

End WithLibraries.

Lemma packBoostByte_classified_and_invertible_witness :
  0 <= 37 < 64 /\
  unpackBoostByte Mock.conn (packBoostByte Mock.conn 37) = 37.
Proof.
  split; [lia|].
  apply (packBoostByte_classified_and_invertible (R := Mock.rand) Mock.conn 37). lia.
Defined.

End SudokuFacts.

(* ------------------------------------------------------------------ *)
(** ** Big-endian encoding *)

Lemma be_encode_length (w : nat) (v : Z) : length (be_encode w v) = w.
Proof.
  revert v. induction w as [|w IH]; intro v; simpl; [reflexivity|].
  rewrite length_app, IH. simpl. lia.
Qed.

Lemma be_decode_app (a : bytes) (b : Z) :
  be_decode (a ++ [b]) = be_decode a * 256 + b.
Proof. unfold be_decode. rewrite fold_left_app. reflexivity. Qed.

Lemma be_decode_encode (w : nat) (v : Z) :
  0 <= v < 256 ^ Z.of_nat w -> be_decode (be_encode w v) = v.
Proof.
  revert v. induction w as [|w IH]; intros v Hv.
  - simpl in *. unfold be_decode. simpl. lia.
  - cbn [be_encode]. rewrite be_decode_app, IH.
    + pose proof (Z.div_mod v 256). lia.
    + rewrite Nat2Z.inj_succ, Z.pow_succ_r in Hv by lia.
      split; [apply Z.div_pos; lia|].
      apply Z.div_lt_upper_bound; lia.
Qed.

Lemma be_encode_zero (w : nat) : be_encode w 0 = repeat 0 w.
Proof.
  induction w as [|w IH]; [reflexivity|].
  cbn [be_encode]. change (0 / 256) with 0. rewrite IH.
  change (0 mod 256) with 0. symmetry. apply (repeat_cons w 0).
Qed.

Lemma be_decode_zero (w : nat) : be_decode (repeat 0 w) = 0.
Proof. rewrite <- be_encode_zero. apply be_decode_encode. split; [lia|]. apply Z.pow_pos_nonneg; lia. Qed.

Lemma firstn_exact {A} (a b : list A) (n : nat) :
  length a = n -> firstn n (a ++ b) = a.
Proof.
  intros <-. rewrite firstn_app, Nat.sub_diag, firstn_all. cbn [firstn]. apply app_nil_r.
Qed.

Lemma skipn_exact {A} (a b : list A) (n : nat) :
  length a = n -> skipn n (a ++ b) = b.
Proof.
  intros <-. rewrite skipn_app, Nat.sub_diag, skipn_all. reflexivity.
Qed.

Lemma In_firstn {A} (x : A) (n : nat) (l : list A) : In x (firstn n l) -> In x l.
Proof.
  intro H. rewrite <- (firstn_skipn n l). apply in_or_app. left. exact H.
Qed.

Lemma In_skipn {A} (x : A) (n : nat) (l : list A) : In x (skipn n l) -> In x l.
Proof.
  intro H. rewrite <- (firstn_skipn n l). apply in_or_app. right. exact H.
Qed.


Lemma Forall_firstn {A} (P : A -> Prop) (n : nat) (l : list A) :
  Forall P l -> Forall P (firstn n l).
Proof.
  intro H. apply Forall_forall. intros x Hx.
  rewrite Forall_forall in H. apply H. eapply In_firstn; eauto.
Qed.

Lemma Forall_skipn {A} (P : A -> Prop) (n : nat) (l : list A) :
  Forall P l -> Forall P (skipn n l).
Proof.
  intro H. apply Forall_forall. intros x Hx.
  rewrite Forall_forall in H. apply H. eapply In_skipn; eauto.
Qed.

Lemma bytes_of_string_app (a b : string) :
  bytes_of_string (a ++ b)%string = bytes_of_string a ++ bytes_of_string b.
Proof.
  unfold bytes_of_string. rewrite <- map_app. f_equal.
  induction a as [|c a IH]; simpl; [reflexivity|]. rewrite IH. reflexivity.
Qed.

Lemma bytes_eqb_eq (a b : bytes) : bytes_eqb a b = true <-> a = b.
Proof. unfold bytes_eqb. destruct (list_eq_dec Z.eq_dec a b); split; congruence. Qed.

Lemma to_int64_id (x : Z) : MinInt64 <= x <= MaxInt64 -> to_int64 x = x.
Proof.
  unfold to_int64, MinInt64, MaxInt64. intro H.
  rewrite Z.mod_small; lia.
Qed.

Module MockFacts.
Import Mock.

Lemma crypto_laws : CryptoLaws crypto.
Proof.
  constructor; intros.
  - unfold sha256, crypto. rewrite length_map, length_seq. reflexivity.
  - unfold hmac_sha256, crypto. rewrite length_map, length_seq. reflexivity.
  - unfold is_byte, aes_ctr, crypto. apply Z.mod_pos_bound. lia.
Qed.

Lemma rand_laws : RandLaws rand.
Proof.
  constructor.
  - intro r. destruct r as [|x rest]; unfold Qle, Qlt; cbn; [lia|].
    pose proof (Z.mod_pos_bound x 1000). lia.
  - intros n r Hn. cbn. destruct (n <=? 0) eqn:E; [lia|].
    destruct r as [|x rest].
    + exists 0, []. split; [reflexivity | lia].
    + exists (x mod n), rest. split; [reflexivity | apply Z.mod_pos_bound; lia].
  - intros n r Hn. cbn. destruct (n <=? 0) eqn:E; [reflexivity | lia].
Qed.

End MockFacts.

(* ------------------------------------------------------------------ *)
(** ** Key derivation and the handshake payload *)

Module ApisFacts.
Import Sudoku Apis.

Section WithLibraries.
Context {C : Crypto} {R : Rand}.

Lemma len_ge_length (s : bytes) (n : Z) : (len s <? n) = false <-> n <= len s.
Proof. rewrite Z.ltb_ge. reflexivity. Qed.

(** C7.  The control multiplexer checks its frames under the key
    SHA-256(seed ++ "|hb-control"), and the boost cipher of either direction
    is keyed with the first 16 bytes of SHA-256(seed ++ "|hb-aes"). *)
Theorem derived_key_material :
  forall (L : CryptoLaws C) (seed : string),
    let ctrl_key := sha256 (bytes_of_string seed ++ bytes_of_string "|hb-control") in
    let aes_key := firstn 16 (sha256 (bytes_of_string seed ++ bytes_of_string "|hb-aes")) in
    Tunnel.DeriveControlKey seed = ctrl_key /\
    (forall src e, Tunnel.hmacKey (wrapAPIBoost_ctrl src e seed) = ctrl_key) /\
    (forall src e body mac,
        Tunnel.verifyMAC (wrapAPIBoost_ctrl src e seed) body mac =
        bytes_eqb (firstn 16 (hmac_sha256 ctrl_key body)) mac) /\
    length aes_key = 16%nat /\
    (forall write read iv isASCII sc,
        16 <= len iv ->
        exists sc',
          EnableBoost write read (Tunnel.DeriveBoostAESKey seed) iv isASCII sc = (None, sc') /\
          (write = true -> boostEnc sc' = Some (NewCTR aes_key (firstn 16 iv))) /\
          (read = true -> boostDec sc' = Some (NewCTR aes_key (firstn 16 iv)))) /\
    (forall payload managed,
        17 <= len payload ->
        exists managed',
          ack_handler seed Tunnel.ControlCmdBoostAck payload (false, managed) = (true, managed') /\
          boostDec managed' = Some (NewCTR aes_key (firstn 16 (skipn 1 payload)))).
Proof.
  intros L seed ctrl_key aes_key.
  assert (Hk : Tunnel.DeriveControlKey seed = ctrl_key).
  { unfold Tunnel.DeriveControlKey. rewrite bytes_of_string_app. reflexivity. }
  assert (Ha : Tunnel.DeriveBoostAESKey seed
               = sha256 (bytes_of_string seed ++ bytes_of_string "|hb-aes")).
  { unfold Tunnel.DeriveBoostAESKey. rewrite bytes_of_string_app. reflexivity. }
  assert (Hlen : len (Tunnel.DeriveBoostAESKey seed) = 32).
  { unfold len. rewrite Ha, sha256_length. reflexivity. }
  assert (Hen : forall write read iv isASCII sc,
             16 <= len iv ->
             exists sc',
               EnableBoost write read (Tunnel.DeriveBoostAESKey seed) iv isASCII sc = (None, sc') /\
               (write = true -> boostEnc sc' = Some (NewCTR aes_key (firstn 16 iv))) /\
               (read = true -> boostDec sc' = Some (NewCTR aes_key (firstn 16 iv)))).
  { intros write read iv isASCII sc Hiv. unfold EnableBoost.
    rewrite Hlen. change (32 <? 16) with false. cbv iota.
    unfold aes_BlockSize.
    destruct (len iv <? 16) eqn:E; [apply Z.ltb_lt in E; lia|].
    eexists. split; [reflexivity|].
    unfold slice_to. change (Z.to_nat 16) with 16%nat. rewrite Ha. fold aes_key.
    destruct write, read; split; intro Hx; try discriminate Hx; reflexivity. }
  split; [exact Hk|].
  split; [intros; exact Hk|].
  split.
  { intros src e body mac. unfold Tunnel.verifyMAC, wrapAPIBoost_ctrl. cbn.
    rewrite Hk. reflexivity. }
  split.
  { unfold aes_key. rewrite length_firstn, sha256_length. reflexivity. }
  split; [exact Hen|].
  intros payload managed Hp.
  unfold ack_handler.
  rewrite Z.eqb_refl. cbn [negb orb].
  destruct (len payload <? 17) eqn:E; [apply Z.ltb_lt in E; lia|].
  assert (Hiv : len (slice_from 1 payload) = len payload - 1).
  { unfold len, slice_from in *. rewrite length_skipn. change (Z.to_nat 1) with 1%nat. lia. }
  destruct (len (slice_from 1 payload) <? 16) eqn:E2; [apply Z.ltb_lt in E2; lia|].
  destruct (Hen false true (slice_to 16 (slice_from 1 payload)) (nth 0 payload 0 =? 0) managed)
    as (sc' & Heq & _ & Hdec).
  { unfold len, slice_to in *. rewrite length_firstn. change (Z.to_nat 16) with 16%nat. lia. }
  rewrite Heq. exists sc'. split; [reflexivity|].
  rewrite (Hdec eq_refl). unfold slice_to, slice_from.
  change (Z.to_nat 16) with 16%nat. change (Z.to_nat 1) with 1%nat.
  rewrite firstn_firstn. reflexivity.
Qed.

(** C9.  The handshake payload is 16 bytes: the Unix time, big-endian, in
    the first eight (not all zero when the clock is not at the epoch), and
    the first eight bytes of SHA-256(key) in the last eight. *)
Theorem buildHandshakePayload_format :
  forall (L : CryptoLaws C) (now : Z) (key : string),
    0 < now <= MaxInt64 ->
    let p := buildHandshakePayload now key in
    length p = 16%nat /\
    firstn 8 p = be_encode 8 now /\
    Uint64 p = now /\
    firstn 8 p <> repeat 0 8 /\
    skipn 8 p = firstn 8 (sha256 (bytes_of_string key)).
Proof.
  intros L now key Hnow p.
  assert (Hu : to_uint64 now = now).
  { unfold to_uint64, MaxInt64 in *. apply Z.mod_small. lia. }
  assert (Hh : length (firstn 8 (sha256 (bytes_of_string key))) = 8%nat).
  { rewrite length_firstn, sha256_length. reflexivity. }
  assert (Hp : p = be_encode 8 now ++ firstn 8 (sha256 (bytes_of_string key))).
  { unfold p, buildHandshakePayload, PutUint64. rewrite Hu.
    set (h := firstn 8 (sha256 (bytes_of_string key))) in *.
    change (firstn 8 (repeat 0 16)) with (repeat 0 8).
    change (skipn 8 (repeat 0 16)) with (repeat 0 8).
    unfold copy_into. rewrite !repeat_length, !be_encode_length.
    rewrite (firstn_all2 (be_encode 8 now)) by (rewrite be_encode_length; lia).
    change (skipn 8 (repeat 0 8)) with (@nil Z). rewrite app_nil_r.
    rewrite (firstn_exact (be_encode 8 now)) by apply be_encode_length.
    rewrite (skipn_exact (be_encode 8 now)) by apply be_encode_length.
    rewrite repeat_length, Hh.
    rewrite (firstn_all2 h) by lia.
    change (skipn 8 (repeat 0 8)) with (@nil Z). rewrite app_nil_r.
    reflexivity. }
  assert (Hf : firstn 8 p = be_encode 8 now).
  { rewrite Hp. apply firstn_exact, be_encode_length. }
  assert (Hd : be_decode (be_encode 8 now) = now).
  { apply be_decode_encode. unfold MaxInt64 in *. change (256 ^ Z.of_nat 8) with (2 ^ 64). lia. }
  split. { rewrite Hp, length_app, be_encode_length, Hh. reflexivity. }
  split; [exact Hf|].
  split. { unfold Uint64. rewrite Hf. exact Hd. }
  split.
  { rewrite Hf. intro Hz. rewrite Hz in Hd. rewrite be_decode_zero in Hd. lia. }
  rewrite Hp. apply skipn_exact, be_encode_length.
Qed.

End WithLibraries.

Lemma derived_key_material_witness :
  Tunnel.DeriveControlKey (C := Mock.crypto) "seed"
  = sha256 (Crypto := Mock.crypto) (bytes_of_string "seed" ++ bytes_of_string "|hb-control").
Proof.
  exact (proj1 (derived_key_material (C := Mock.crypto) (R := Mock.rand)
                  MockFacts.crypto_laws "seed")).
Defined.

Lemma buildHandshakePayload_format_witness :
  0 < 1700000000 <= MaxInt64 /\
  length (buildHandshakePayload (C := Mock.crypto) 1700000000 "handshake-key") = 16%nat.
Proof.
  split; [unfold MaxInt64; lia|].
  apply (buildHandshakePayload_format (C := Mock.crypto) MockFacts.crypto_laws
           1700000000 "handshake-key").
  unfold MaxInt64; lia.
Defined.

(** What the check [abs(now-ts) > 60] decides on [int64], for a server
    clock after the epoch: it rejects a skew of more than 60 seconds, except
    the one skew of 2^63 seconds. *)
Lemma timestamp_rejected_iff (now ts : Z) :
  0 <= now <= 2 ^ 62 -> MinInt64 <= ts <= MaxInt64 ->
  timestamp_rejected now ts = true <-> (60 < Z.abs (now - ts) /\ now - ts <> 2 ^ 63).
Proof.
  intros Hn Ht. unfold timestamp_rejected, abs.
  rewrite Z.ltb_lt.
  destruct (to_int64 (now - ts) <? 0) eqn:Eb;
    [apply Z.ltb_lt in Eb | apply Z.ltb_ge in Eb];
    revert Eb; unfold to_int64, MinInt64, MaxInt64 in *;
    change (2 ^ 64) with 18446744073709551616 in *;
    change (2 ^ 63) with 9223372036854775808 in *;
    change (2 ^ 62) with 4611686018427387904 in *;
    intro Eb; Z.div_mod_to_equations; lia.
Qed.

(** C6.  A payload whose timestamp lies 2^63 seconds before the server's
    clock passes the check [abs(now-ts) > 60]: the difference wraps to the
    least [int64], whose [abs] is itself, and the handshake is accepted. *)
Theorem timestamp_check_passes_wrapped_skew :
  handshake_ts Mock.far_payload = Mock.clock - 2 ^ 63 /\
  60 < Z.abs (Mock.clock - handshake_ts Mock.far_payload) /\
  to_int64 (Mock.clock - handshake_ts Mock.far_payload) = MinInt64 /\
  abs MinInt64 = MinInt64 /\
  timestamp_rejected Mock.clock (handshake_ts Mock.far_payload) = false /\
  match ServerHandshake (R := Mock.rand) (K := Mock.collaborators Mock.far_payload)
          Mock.clock [] {| fd := 3; incoming := []; incoming_err := ErrTimeout |}
          (Some Mock.direct_cfg) with
  | Accepted _ targetAddr => targetAddr = "example.com:443"%string
  | _ => False
  end.
Proof.
  split; [vm_compute; reflexivity|].
  split; [vm_compute; reflexivity|].
  split; [vm_compute; reflexivity|].
  split; [vm_compute; reflexivity|].
  split; [vm_compute; reflexivity|].
  vm_compute. reflexivity.
Qed.

(** C3.  When the stream ends inside the header block, [ServerHandshake]
    fails in the mask stage with [HTTPHeaderData] holding only the complete
    lines and empty [ReadData]; the bytes of the cut line were taken out of
    [bufReader] and out of the connection, and are in neither field. *)
Theorem mask_failure_loses_partial_line :
  let rawConn := {| fd := 3; incoming := [Mock.cut_request]; incoming_err := EOF |} in
  let peeked := snd (Bufio.Peek 4 (Bufio.NewReader (incoming rawConn) (incoming_err rawConn))) in
  match ServerHandshake (R := Mock.rand) (K := Mock.collaborators Mock.far_payload)
          Mock.clock [] rawConn (Some Mock.cfg) with
  | Failed e =>
    RawConn e = 3%nat /\ HTTPHeaderData e = Mock.request_line /\ ReadData e = []
  | _ => False
  end /\
  (exists r',
     Httpmask.ConsumeHeader peeked = Some ((Mock.request_line, Some EOF), r') /\
     Bufio.remaining r' = []) /\
  Mock.request_line ++ [] <> Mock.cut_request.
Proof.
  split; [vm_compute; repeat split|].
  split; [eexists; split; vm_compute; reflexivity|].
  vm_compute. discriminate.
Qed.

End ApisFacts.

(* ------------------------------------------------------------------ *)
(** ** The control multiplexer *)

Module ControlFacts.
Import Tunnel.

Lemma has_prefix_split (sep s : bytes) :
  has_prefix sep s = true <-> exists rest, s = sep ++ rest.
Proof.
  revert s. induction sep as [|a sep IH]; intro s; simpl.
  - split; [intros _; exists s; reflexivity | reflexivity].
  - destruct s as [|b s].
    + split; [discriminate | intros [rest H]; discriminate H].
    + rewrite andb_true_iff, Z.eqb_eq, IH. split.
      * intros [-> [rest ->]]. exists rest. reflexivity.
      * intros [rest H]. injection H as -> ->. split; [reflexivity | exists rest; reflexivity].
Qed.

Lemma index_of_unfold (s sep : bytes) :
  index_of s sep =
  if has_prefix sep s then Some O
  else match s with
       | [] => None
       | _ :: rest => match index_of rest sep with Some i => Some (S i) | None => None end
       end.
Proof. destruct s; reflexivity. Qed.

Lemma index_of_app_none (a b sep : bytes) :
  index_of (a ++ b) sep = None -> index_of a sep = None /\ index_of b sep = None.
Proof.
  induction a as [|x a IH]; intro H.
  - simpl in H. split; [|exact H].
    rewrite index_of_unfold in H |- *.
    destruct (has_prefix sep []) eqn:E; [|reflexivity].
    apply has_prefix_split in E. destruct E as [rest E].
    destruct sep; [|discriminate E].
    simpl in H. discriminate H.
  - rewrite index_of_unfold in H. simpl app in H.
    destruct (has_prefix sep (x :: a ++ b)) eqn:E; [discriminate H|].
    destruct (index_of (a ++ b) sep) eqn:E2; [discriminate H|].
    destruct (IH eq_refl) as [Ha Hb]. split; [|exact Hb].
    rewrite index_of_unfold, Ha.
    destruct (has_prefix sep (x :: a)) eqn:E3; [|reflexivity].
    apply has_prefix_split in E3. destruct E3 as [rest E3].
    assert (has_prefix sep (x :: a ++ b) = true).
    { apply has_prefix_split. exists (rest ++ b).
      change (x :: a ++ b) with ((x :: a) ++ b). rewrite E3, app_assoc. reflexivity. }
    congruence.
Qed.

Lemma index_of_concat_none (chunks : list bytes) (sep : bytes) :
  index_of (concat chunks) sep = None ->
  Forall (fun ch => index_of ch sep = None) chunks.
Proof.
  induction chunks as [|ch chunks IH]; intro H; [constructor|].
  simpl in H. apply index_of_app_none in H. destruct H as [H1 H2].
  constructor; [exact H1 | exact (IH H2)].
Qed.

Lemma be_decode_nonneg (s : bytes) : Forall is_byte s -> 0 <= be_decode s.
Proof.
  intro H. unfold be_decode.
  assert (G : forall acc, 0 <= acc -> 0 <= fold_left (fun a b => a * 256 + b) s acc).
  { induction H as [|b s Hb Hs IH]; intros acc Hacc; simpl; [exact Hacc|].
    apply IH. unfold is_byte in Hb. lia. }
  apply G. lia.
Qed.

Section WithLibraries.
Context {C : Crypto}.

Ltac ctrl_simpl :=
  unfold set_conn_src, set_handled, set_reported, set_readBuf, set_dataBuf in *;
  cbn [conn_src conn_err hmacKey has_handler handled has_onData reported readBuf dataBuf] in *.

Lemma appendData_readBuf (b : bytes) (c : ControlConn) :
  readBuf (appendData b c) = readBuf c.
Proof.
  unfold appendData. destruct (len b =? 0); [reflexivity|].
  cbn. destruct (has_onData c); reflexivity.
Qed.

Lemma appendData_handled (b : bytes) (c : ControlConn) :
  handled (appendData b c) = handled c.
Proof.
  unfold appendData. destruct (len b =? 0); [reflexivity|].
  cbn. destruct (has_onData c); reflexivity.
Qed.

Lemma appendData_conn_src (b : bytes) (c : ControlConn) :
  conn_src (appendData b c) = conn_src c.
Proof.
  unfold appendData. destruct (len b =? 0); [reflexivity|].
  cbn. destruct (has_onData c); reflexivity.
Qed.

(** [appendData] reports the length of what it appends in the same step. *)
Lemma appendData_reports (b : bytes) (c : ControlConn) :
  b <> [] ->
  dataBuf (appendData b c) = dataBuf c ++ b /\
  reported (appendData b c) = if has_onData c then reported c ++ [len b] else reported c.
Proof.
  intro Hb. unfold appendData.
  destruct (len b =? 0) eqn:E.
  - apply Z.eqb_eq in E. unfold len in E. destruct b; [congruence | simpl in E; lia].
  - cbn. destruct (has_onData c); split; reflexivity.
Qed.

Lemma frame_total_ge (rb : bytes) : Forall is_byte rb -> 24 <= frame_total rb.
Proof.
  intro H. unfold frame_total, frame_payloadLen, Uint16, hmacLen.
  pose proof (be_decode_nonneg (firstn 2 (slice_to 2 (slice_from 6 rb)))) as Hn.
  change (len controlMagic) with 4.
  assert (0 <= be_decode (firstn 2 (slice_to 2 (slice_from 6 rb)))); [|lia].
  apply Hn. unfold slice_to, slice_from.
  repeat apply Forall_firstn. apply Forall_skipn. exact H.
Qed.

Lemma length_slice_from (n : Z) (s : bytes) :
  0 < n -> s <> [] -> (length (slice_from n s) < length s)%nat.
Proof.
  intros Hn Hs. unfold slice_from. rewrite length_skipn.
  destruct s; [congruence|]. simpl length. lia.
Qed.

(** Every [Continue] leaves a shorter [readBuf]. *)
Lemma processBuffer_body_progress (c c' : ControlConn) :
  Forall is_byte (readBuf c) ->
  processBuffer_body c = Continue c' ->
  (length (readBuf c') < length (readBuf c))%nat /\ Forall is_byte (readBuf c').
Proof.
  intros Hb. unfold processBuffer_body.
  destruct (Index (readBuf c) controlMagic =? -1); [discriminate|].
  set (c1 := if 0 <? Index (readBuf c) controlMagic then _ else c).
  assert (H1 : (length (readBuf c1) <= length (readBuf c))%nat /\ Forall is_byte (readBuf c1)).
  { unfold c1. destruct (0 <? Index (readBuf c) controlMagic); [|split; [lia | exact Hb]].
    cbn. unfold slice_from. rewrite length_skipn. split; [lia | apply Forall_skipn; exact Hb]. }
  destruct H1 as [Hle Hb1].
  destruct (len (readBuf c1) <? len controlMagic + 1 + 1 + 2 + hmacLen) eqn:Elen; [discriminate|].
  apply Z.ltb_ge in Elen. change (len controlMagic + 1 + 1 + 2 + hmacLen) with 24 in Elen.
  assert (Hne : readBuf c1 <> []).
  { intro E. rewrite E in Elen. unfold len in Elen. simpl in Elen. lia. }
  pose proof (frame_total_ge _ Hb1) as Ht.
  assert (Hone : forall c2, readBuf c2 = slice_from 1 (readBuf c1) ->
             (length (readBuf c2) < length (readBuf c))%nat /\ Forall is_byte (readBuf c2)).
  { intros c2 ->. split.
    - pose proof (length_slice_from 1 (readBuf c1) ltac:(lia) Hne). lia.
    - apply Forall_skipn. exact Hb1. }
  destruct (negb (bytes_eqb (slice_to (len controlMagic) (readBuf c1)) controlMagic)).
  { intro H. injection H as <-. apply Hone. reflexivity. }
  destruct (len (readBuf c1) <? frame_total (readBuf c1)); [discriminate|].
  destruct ((frame_version (readBuf c1) =? controlVersion)
            && verifyMAC c1 (frame_body (readBuf c1)) (frame_mac (readBuf c1))).
  - intro H. injection H as <-. cbn. split.
    + pose proof (length_slice_from (frame_total (readBuf c1)) (readBuf c1) ltac:(lia) Hne). lia.
    + apply Forall_skipn. exact Hb1.
  - intro H. injection H as <-. apply Hone. reflexivity.
Qed.

(** The fuel of [processBuffer] is enough: more fuel changes nothing, and
    the loop ends by a [return]. *)
Lemma processBuffer_loop_enough (n : nat) :
  forall (f : nat) (c : ControlConn),
    Forall is_byte (readBuf c) ->
    (length (readBuf c) <= n)%nat -> (length (readBuf c) < f)%nat ->
    processBuffer_loop f c = processBuffer c /\ processBuffer c <> None.
Proof.
  induction n as [n IH] using lt_wf_ind.
  intros f c Hb Hn Hf. unfold processBuffer.
  destruct f as [|f]; [lia|]. cbn [processBuffer_loop].
  destruct (processBuffer_body c) as [c'|c'] eqn:E.
  - split; [reflexivity | discriminate].
  - destruct (processBuffer_body_progress c c' Hb E) as [Hlt Hb'].
    destruct (IH (length (readBuf c')) ltac:(lia) f c' Hb' ltac:(lia) ltac:(lia)) as [H1 H2].
    destruct (IH (length (readBuf c')) ltac:(lia) (length (readBuf c)) c' Hb' ltac:(lia) ltac:(lia))
      as [H3 _].
    rewrite H1, H3. split; [reflexivity | exact H2].
Qed.

Lemma processBuffer_total (c : ControlConn) :
  Forall is_byte (readBuf c) -> exists c', processBuffer c = Some c'.
Proof.
  intro Hb.
  destruct (processBuffer_loop_enough (length (readBuf c)) (S (length (readBuf c))) c Hb
              ltac:(lia) ltac:(lia)) as [_ H].
  destruct (processBuffer c) as [c'|]; [exists c'; reflexivity | congruence].
Qed.


Lemma Index_prefix (s sep : bytes) : has_prefix sep s = true -> Index s sep = 0.
Proof. intro H. unfold Index. rewrite index_of_unfold, H. reflexivity. Qed.



(** Without the magic in [readBuf], [processBuffer] forwards all of it. *)
Lemma processBuffer_no_magic (c : ControlConn) :
  index_of (readBuf c) controlMagic = None ->
  processBuffer c =
  Some (set_readBuf [] (if 0 <? len (readBuf c) then appendData (readBuf c) c else c)).
Proof.
  intro H. unfold processBuffer. cbn [processBuffer_loop].
  unfold processBuffer_body, Index. rewrite H. reflexivity.
Qed.

(** [Read_loop] on a stream without the magic: it skips empty reads and
    moves the first chunk that holds bytes into [dataBuf]. *)
Lemma Read_loop_passthrough (chunks : list bytes) :
  forall (c : ControlConn),
    Forall (fun ch => index_of ch controlMagic = None) chunks ->
    readBuf c = [] -> dataBuf c = [] ->
    exists (res : option error) (c' : ControlConn) (used : list bytes),
      Read_loop chunks c = Some (res, c') /\
      readBuf c' = [] /\
      chunks = used ++ conn_src c' /\
      dataBuf c' = concat used /\
      handled c' = handled c /\
      hmacKey c' = hmacKey c /\ conn_err c' = conn_err c /\
      has_onData c' = has_onData c /\ has_handler c' = has_handler c /\
      reported c' = (if has_onData c then reported c ++ map len (nonempty used) else reported c) /\
      match res with
      | Some e => e = conn_err c /\ conn_src c' = [] /\ dataBuf c' = []
      | None => dataBuf c' <> []
      end.
Proof.
  induction chunks as [|ch chunks IH]; intros c Hm Hr Hd.
  - exists (Some (conn_err c)), (set_conn_src [] c), [].
    cbn [Read_loop]. rewrite Hd. ctrl_simpl. rewrite Hr, Hd.
    destruct (has_onData c); cbn; rewrite ?app_nil_r; repeat split; reflexivity.
  - inversion Hm as [|? ? Hch Hrest]; subst.
    cbn [Read_loop]. rewrite Hd.
    destruct ch as [|b ch].
    + destruct (IH (set_conn_src chunks c) Hrest Hr Hd)
        as (res & c' & used & Hloop & Hrb & Hsrc & Hdata & Hh & Hk & He & Ho & Hha & Hrep & Hres).
      change (dataBuf (set_conn_src chunks c)) with (dataBuf c). rewrite Hd.
      exists res, c', ([] :: used).
      split; [exact Hloop|]. split; [exact Hrb|].
      split; [cbn; rewrite Hsrc at 1; reflexivity|].
      split; [exact Hdata|]. split; [exact Hh|].
      split; [exact Hk|]. split; [exact He|]. split; [exact Ho|]. split; [exact Hha|].
      split; [exact Hrep | exact Hres].
    + set (c0 := set_conn_src chunks c).
      assert (Hr0 : readBuf c0 = []) by exact Hr.
      assert (Hd0 : dataBuf c0 = []) by exact Hd.
      assert (Hp : processBuffer (set_readBuf (readBuf c0 ++ b :: ch) c0)
                   = Some (set_readBuf [] (appendData (b :: ch) (set_readBuf (b :: ch) c0)))).
      { rewrite processBuffer_no_magic.
        - rewrite Hr0. cbn [app]. unfold set_readBuf at 2 3. cbn [readBuf].
          replace (0 <? len (b :: ch)) with true; [reflexivity|].
          symmetry. apply Z.ltb_lt. unfold len. simpl length. lia.
        - rewrite Hr0. exact Hch. }
      rewrite Hp.
      destruct (appendData_reports (b :: ch) (set_readBuf (b :: ch) c0) ltac:(discriminate))
        as [Hdat Hrep].
      assert (Hdat' : dataBuf (set_readBuf [] (appendData (b :: ch) (set_readBuf (b :: ch) c0)))
                      = b :: ch).
      { unfold set_readBuf at 1. cbn [dataBuf]. rewrite Hdat.
        unfold set_readBuf. cbn [dataBuf]. rewrite Hd0. reflexivity. }
      rewrite Hdat'.
      eexists None, _, [b :: ch]. split; [reflexivity|].
      split; [reflexivity|].
      split. { unfold set_readBuf at 1. cbn [conn_src]. rewrite appendData_conn_src. reflexivity. }
      split. { rewrite Hdat'. cbn. rewrite app_nil_r. reflexivity. }
      split. { unfold set_readBuf at 1. cbn [handled]. rewrite appendData_handled. reflexivity. }
      assert (Hz : (len (b :: ch) =? 0) = false)
        by (apply Z.eqb_neq; unfold len; simpl length; lia).
      assert (Hne : nonempty [b :: ch] = [b :: ch]).
      { unfold nonempty. cbn [filter]. rewrite Hz. reflexivity. }
      rewrite Hne. unfold appendData. rewrite Hz.
      unfold c0. ctrl_simpl.
      destruct (has_onData c); ctrl_simpl; cbn [map];
        repeat split; try reflexivity; rewrite Hd; discriminate.
Qed.

Lemma Read_loop_pending (chunks : list bytes) (c : ControlConn) :
  dataBuf c <> [] -> Read_loop chunks c = Some (None, c).
Proof.
  intro H. destruct (dataBuf c) as [|b d] eqn:E; [congruence|].
  destruct chunks; cbn [Read_loop]; rewrite E; reflexivity.
Qed.

Lemma firstn_nonempty {A} (n : nat) (l : list A) :
  (0 < n)%nat -> l <> [] -> (1 <= length (firstn n l))%nat.
Proof.
  intros Hn Hl. destruct n; [lia|]. destruct l; [congruence|]. simpl. lia.
Qed.

(** Successive reads of a stream whose chunks do not hold the magic: what
    was returned and what is still pending make up, in order, what the
    transport handed over; every chunk's length was reported; no handler
    ran; and an error comes only once everything was returned. *)
Lemma Read_all_passthrough (sizes : list nat) :
  forall (c : ControlConn),
    Forall (fun ch => index_of ch controlMagic = None) (conn_src c) ->
    readBuf c = [] ->
    Forall (fun n => (0 < n)%nat) sizes ->
    exists (d : bytes) (res : option error) (c' : ControlConn) (used : list bytes),
      Read_all sizes c = Some ((d, res), c') /\
      readBuf c' = [] /\
      conn_src c = used ++ conn_src c' /\
      d ++ dataBuf c' = dataBuf c ++ concat used /\
      handled c' = handled c /\
      conn_err c' = conn_err c /\ has_onData c' = has_onData c /\
      reported c' = (if has_onData c then reported c ++ map len (nonempty used) else reported c) /\
      match res with
      | Some e => e = conn_err c /\ conn_src c' = [] /\ dataBuf c' = []
      | None => (length sizes <= length d)%nat
      end.
Proof.
  induction sizes as [|plen sizes IH]; intros c Hm Hr Hs.
  - exists [], None, c, []. cbn. rewrite !app_nil_r.
    destruct (has_onData c); repeat split; solve [reflexivity | assumption | lia].
  - inversion Hs as [|? ? Hplen Hsizes]; subst.
    cbn [Read_all]. unfold Read.
    destruct (dataBuf c) as [|b0 d0] eqn:Ed.
    + (* nothing pending: read from the transport *)
      destruct (Read_loop_passthrough (conn_src c) c Hm Hr Ed)
        as (res & c1 & used & Hloop & Hrb & Hsrc & Hdata & Hh & _ & He & Ho & _ & Hrep & Hres).
      rewrite Hloop.
      destruct res as [e|].
      * destruct Hres as (-> & Hnil & Hdn).
        exists [], (Some (conn_err c)), c1, used.
        split; [reflexivity|]. split; [exact Hrb|]. split; [exact Hsrc|].
        split; [cbn; rewrite Hdata; reflexivity|].
        split; [exact Hh|]. split; [exact He|]. split; [exact Ho|].
        split; [exact Hrep|]. repeat split; assumption.
      * set (c2 := set_dataBuf (skipn plen (dataBuf c1)) c1).
        assert (Hm2 : Forall (fun ch => index_of ch controlMagic = None) (conn_src c2)).
        { change (conn_src c2) with (conn_src c1).
          rewrite Hsrc in Hm. apply Forall_app in Hm. apply Hm. }
        destruct (IH c2 Hm2 Hrb Hsizes)
          as (d & res & c' & used' & Hall & Hrb' & Hsrc' & Hdata' & Hh' & He' & Ho' & Hrep' & Hres').
        rewrite Hall.
        change (conn_src c2) with (conn_src c1) in Hsrc'.
        change (dataBuf c2) with (skipn plen (dataBuf c1)) in Hdata'.
        change (handled c2) with (handled c1) in Hh'.
        change (conn_err c2) with (conn_err c1) in He', Hres'.
        change (has_onData c2) with (has_onData c1) in Ho', Hrep'.
        change (reported c2) with (reported c1) in Hrep'.
        exists (firstn plen (dataBuf c1) ++ d), res, c', (used ++ used').
        split; [reflexivity|]. split; [exact Hrb'|].
        split. { rewrite Hsrc, Hsrc', app_assoc. reflexivity. }
        split. { rewrite <- app_assoc, Hdata', app_assoc, firstn_skipn, Hdata, concat_app.
                 reflexivity. }
        split; [congruence|]. split; [congruence|]. split; [congruence|].
        split.
        { rewrite Hrep', Ho, Hrep. unfold nonempty. rewrite filter_app, map_app.
          destruct (has_onData c); [rewrite app_assoc|]; reflexivity. }
        destruct res as [e|].
        -- destruct Hres' as (-> & Hnil & Hdn). repeat split; congruence.
        -- rewrite length_app. pose proof (firstn_nonempty plen (dataBuf c1) Hplen Hres).
           simpl length. lia.
    + (* pending data is handed out first *)
      rewrite Read_loop_pending by (rewrite Ed; discriminate).
      rewrite Ed.
      set (c2 := set_dataBuf (skipn plen (b0 :: d0)) c).
      destruct (IH c2 Hm Hr Hsizes)
        as (d & res & c' & used' & Hall & Hrb' & Hsrc' & Hdata' & Hh' & He' & Ho' & Hrep' & Hres').
      rewrite Hall.
      change (conn_src c2) with (conn_src c) in Hsrc'.
      change (dataBuf c2) with (skipn plen (b0 :: d0)) in Hdata'.
      change (handled c2) with (handled c) in Hh'.
      change (conn_err c2) with (conn_err c) in He', Hres'.
      change (has_onData c2) with (has_onData c) in Ho', Hrep'.
      change (reported c2) with (reported c) in Hrep'.
      exists (firstn plen (b0 :: d0) ++ d), res, c', used'.
      split; [reflexivity|]. split; [exact Hrb'|]. split; [exact Hsrc'|].
      split. { rewrite <- app_assoc, Hdata', app_assoc, firstn_skipn. reflexivity. }
      split; [exact Hh'|]. split; [exact He'|]. split; [exact Ho'|]. split; [exact Hrep'|].
      destruct res as [e|]; [exact Hres'|].
      rewrite length_app.
      pose proof (firstn_nonempty plen (b0 :: d0) Hplen ltac:(discriminate)).
      simpl length in *. lia.
Qed.

(** C10.  When the stream the wrapped connection delivers holds no control
    magic, successive [Read] calls return that stream, unchanged and in
    order: what was returned, what waits in [dataBuf] and what the
    transport has not handed over yet always make up the stream; the
    length of each chunk was reported to the data callback when appended; no
    control handler runs; and enough calls return the whole stream before
    the transport's error. *)
Theorem control_passthrough :
  forall (chunks : list bytes) (e : error) (key : bytes) (handler : bool) (sizes : list nat),
    index_of (concat chunks) controlMagic = None ->
    Forall (fun n => (0 < n)%nat) sizes ->
    exists (d : bytes) (res : option error) (c' : ControlConn) (used : list bytes),
      Read_all sizes (NewControlConn chunks e key handler true) = Some ((d, res), c') /\
      d ++ dataBuf c' ++ concat (conn_src c') = concat chunks /\
      chunks = used ++ conn_src c' /\
      reported c' = map len (nonempty used) /\
      Z.of_nat (length (d ++ dataBuf c')) = fold_right Z.add 0 (reported c') /\
      handled c' = [] /\
      ((length (concat chunks) < length sizes)%nat -> d = concat chunks /\ res = Some e).
Proof.
  intros chunks e key handler sizes Hm Hs.
  destruct (Read_all_passthrough sizes (NewControlConn chunks e key handler true)
              (index_of_concat_none _ _ Hm) eq_refl Hs)
    as (d & res & c' & used & Hall & Hrb & Hsrc & Hdata & Hh & He & Ho & Hrep & Hres).
  cbn [NewControlConn conn_src dataBuf handled conn_err has_onData reported app] in *.
  exists d, res, c', used.
  split; [exact Hall|].
  assert (Hstream : d ++ dataBuf c' ++ concat (conn_src c') = concat chunks).
  { rewrite app_assoc, Hdata, Hsrc, concat_app. reflexivity. }
  split; [exact Hstream|]. split; [exact Hsrc|]. split; [exact Hrep|].
  split.
  { rewrite Hdata, Hrep. clear. induction used as [|ch used IH]; [reflexivity|].
    cbn [concat]. rewrite length_app, Nat2Z.inj_add, IH.
    unfold nonempty. cbn [filter].
    destruct (len ch =? 0) eqn:E; cbn [negb map fold_right].
    - apply Z.eqb_eq in E. unfold len in E. lia.
    - unfold len. reflexivity. }
  split; [exact Hh|].
  intro Hlen. destruct res as [e'|].
  - destruct Hres as (-> & Hnil & Hdn). rewrite Hnil, Hdn in Hstream.
    cbn in Hstream. rewrite app_nil_r in Hstream. split; [exact Hstream | reflexivity].
  - exfalso. rewrite <- Hstream in Hlen. rewrite !length_app in Hlen. lia.
Qed.

End WithLibraries.


Lemma control_passthrough_witness :
  exists d res c' used,
    Read_all (C := Mock.crypto) [2; 2; 2; 2; 2; 2]%nat
      (NewControlConn [[1; 2; 3]; [4; 5]] EOF Mock.ctrl_key true true) = Some ((d, res), c') /\
    d ++ dataBuf c' ++ concat (conn_src c') = concat [[1; 2; 3]; [4; 5]] /\
    [[1; 2; 3]; [4; 5]] = used ++ conn_src c' /\
    reported c' = map len (nonempty used) /\
    Z.of_nat (length (d ++ dataBuf c')) = fold_right Z.add 0 (reported c') /\
    handled c' = [] /\
    ((length (concat [[1; 2; 3]; [4; 5]]) < length [2; 2; 2; 2; 2; 2]%nat)%nat ->
     d = concat [[1; 2; 3]; [4; 5]] /\ res = Some EOF).
Proof.
  apply (control_passthrough (C := Mock.crypto) [[1; 2; 3]; [4; 5]] EOF Mock.ctrl_key true
           [2; 2; 2; 2; 2; 2]%nat).
  - vm_compute. reflexivity.
  - repeat constructor.
Defined.

End ControlFacts.

(* ------------------------------------------------------------------ *)
(** ** The bandwidth monitor *)

Module MonitorFacts.
Import Tunnel.

Lemma sum_len_app (a b : list bandwidthSample) : sum_len (a ++ b) = sum_len a + sum_len b.
Proof.
  unfold sum_len. induction a as [|s a IH]; simpl; [reflexivity|]. rewrite IH. lia.
Qed.

Lemma sum_len_filter_le (f : bandwidthSample -> bool) (w : list bandwidthSample) :
  Forall (fun s => 0 < len_ s) w -> 0 <= sum_len (filter f w) <= sum_len w.
Proof.
  unfold sum_len. induction 1 as [|s w Hs Hw IH]; simpl; [lia|].
  destruct (f s); simpl; lia.
Qed.

Lemma sorted_filter (f : bandwidthSample -> bool) (w : list bandwidthSample) :
  StronglySorted by_time w -> StronglySorted by_time (filter f w).
Proof.
  induction 1 as [|s w Hw IH Hs]; simpl; [constructor|].
  destruct (f s); [|exact IH].
  constructor; [exact IH|].
  apply Forall_forall. intros x Hx. apply filter_In in Hx.
  rewrite Forall_forall in Hs. apply Hs, Hx.
Qed.

Lemma sorted_snoc (w : list bandwidthSample) (x : bandwidthSample) :
  StronglySorted by_time w -> Forall (fun s => t s <= t x) w ->
  StronglySorted by_time (w ++ [x]).
Proof.
  induction 1 as [|s w Hw IH Hs]; intro Hx; simpl.
  - constructor; constructor.
  - inversion Hx as [|? ? Hsx Hwx]; subst.
    constructor; [apply IH; exact Hwx|].
    apply Forall_app. split; [exact Hs|]. constructor; [exact Hsx | constructor].
Qed.

(** On a window in time order the trimming loop drops exactly the samples
    older than the cut-off, and keeps the total in step. *)
Lemma trim_stale_sorted (w : list bandwidthSample) (cutoff : Z) :
  StronglySorted by_time w ->
  Forall (fun s => 0 < len_ s) w ->
  sum_len w <= MaxInt64 ->
  trim_stale w cutoff (sum_len w)
  = (filter (in_window cutoff) w, sum_len (filter (in_window cutoff) w)).
Proof.
  induction 1 as [|s w Hw IH Hs]; intros Hpos Hmax; [reflexivity|].
  inversion Hpos as [|? ? Hs0 Hw0]; subst.
  pose proof (sum_len_filter_le (fun _ => true) w Hw0) as Hb.
  assert (Hsum : sum_len (s :: w) = len_ s + sum_len w) by reflexivity.
  cbn [trim_stale filter].
  assert (Hin : in_window cutoff s = negb (t s <? cutoff)) by reflexivity.
  rewrite Hin. destruct (t s <? cutoff) eqn:E; cbn [negb].
  - rewrite Hsum. replace (len_ s + sum_len w - len_ s) with (sum_len w) by lia.
    pose proof (sum_len_filter_le (in_window cutoff) w Hw0).
    rewrite to_int64_id by (unfold MinInt64, MaxInt64 in *; lia).
    apply IH; [exact Hw0 | lia].
  - apply Z.ltb_ge in E.
    assert (Hall : filter (in_window cutoff) w = w).
    { apply forallb_filter_id. apply forallb_forall. intros x Hx.
      rewrite Forall_forall in Hs. specialize (Hs x Hx). unfold by_time in Hs.
      unfold in_window. apply negb_true_iff, Z.ltb_ge. lia. }
    rewrite Hall. reflexivity.
Qed.

Lemma filter_filter_window (c c' : Z) (w : list bandwidthSample) :
  c <= c' -> filter (in_window c') (filter (in_window c) w) = filter (in_window c') w.
Proof.
  intro H. induction w as [|s w IH]; [reflexivity|]. cbn [filter].
  destruct (in_window c s) eqn:E1; cbn [filter]; destruct (in_window c' s) eqn:E2;
    rewrite IH; try reflexivity.
  unfold in_window in *. apply negb_true_iff, Z.ltb_ge in E2.
  apply negb_false_iff, Z.ltb_lt in E1. lia.
Qed.

Lemma clock_monotone_weaken (t0 t1 : Z) (calls : list (Z * Z)) :
  t0 <= t1 -> clock_monotone t1 calls -> clock_monotone t0 calls.
Proof.
  intros H. destruct calls as [|[now n] rest]; simpl; [trivial|]. intros [H1 H2].
  split; [lia | exact H2].
Qed.

Lemma admitted_nonneg (calls : list (Z * Z)) : 0 <= admitted calls.
Proof.
  induction calls as [|[now n] rest IH]; simpl; [lia|].
  destruct (n <=? 0) eqn:E; [lia|]. apply Z.leb_gt in E. lia.
Qed.

(** One admission, seen from the history of admissions: the monitor's
    window is the part of the history inside the time window, its total the
    rolling total, and the answer follows the two-in-a-row rule. *)
Lemma Add_admitted (thr dur last now n : Z) (hist : list bandwidthSample)
    (prev fired : bool) (m : BandwidthMonitor) :
  window m = filter (in_window (last - dur)) hist ->
  total m = sum_len (window m) ->
  StronglySorted by_time hist ->
  Forall (fun s => 0 < len_ s) hist ->
  Forall (fun s => t s <= last) hist ->
  threshold m = thr -> windowDur m = dur ->
  triggered m = fired -> (fired = false -> pendingTick m = prev) ->
  0 < n -> last <= now -> sum_len hist + n <= MaxInt64 ->
  let hist' := hist ++ [{| t := now; len_ := n |}] in
  let over := thr <=? rolling_total dur hist' now in
  let fire := over && prev && negb fired in
  exists m',
    Add now n m = (fire, m') /\
    window m' = filter (in_window (now - dur)) hist' /\
    total m' = sum_len (window m') /\
    threshold m' = thr /\ windowDur m' = dur /\
    triggered m' = (fired || fire) /\
    ((fired || fire) = false -> pendingTick m' = over).
Proof.
  intros Hw Ht Hsorted Hpos Hlast Hthr Hdur Hfired Hprev Hn Hnow Hmax hist' over fire.
  set (new := {| t := now; len_ := n |}) in *.
  assert (Hw1_sorted : StronglySorted by_time (window m ++ [new])).
  { apply sorted_snoc.
    - rewrite Hw. apply sorted_filter. exact Hsorted.
    - rewrite Hw. apply Forall_forall. intros x Hx. apply filter_In in Hx.
      rewrite Forall_forall in Hlast. specialize (Hlast x (proj1 Hx)). simpl. lia. }
  assert (Hw1_pos : Forall (fun s => 0 < len_ s) (window m ++ [new])).
  { apply Forall_app. split.
    - rewrite Hw. apply Forall_forall. intros x Hx. apply filter_In in Hx.
      rewrite Forall_forall in Hpos. apply Hpos, Hx.
    - constructor; [exact Hn | constructor]. }
  pose proof (sum_len_filter_le (in_window (last - dur)) hist Hpos) as Hb.
  rewrite <- Hw in Hb.
  assert (Hsum1 : sum_len (window m ++ [new]) = total m + n).
  { rewrite sum_len_app, Ht. unfold sum_len at 2. simpl. lia. }
  assert (Htrim : trim_stale (window m ++ [new]) (now - dur) (to_int64 (total m + n))
                  = (filter (in_window (now - dur)) hist',
                     rolling_total dur hist' now)).
  { rewrite to_int64_id by (unfold MinInt64, MaxInt64 in *; lia).
    rewrite <- Hsum1. rewrite trim_stale_sorted; [|assumption|assumption|lia].
    assert (Hf : filter (in_window (now - dur)) (window m ++ [new])
                 = filter (in_window (now - dur)) hist').
    { unfold hist'. rewrite !filter_app, Hw. f_equal.
      apply filter_filter_window. lia. }
    rewrite Hf. reflexivity. }
  unfold Add. replace (n <=? 0) with false by (symmetry; apply Z.leb_gt; lia).
  fold new. rewrite Hdur, Htrim. cbn [triggered threshold total pendingTick window windowDur].
  rewrite Hfired, Hthr. fold over.
  unfold fire. destruct fired.
  - eexists. split; [rewrite !andb_false_r; reflexivity|].
    cbn. repeat split; try reflexivity. discriminate.
  - rewrite (Hprev eq_refl). cbn [negb orb]. rewrite andb_true_r.
    destruct over; cbn [andb].
    + destruct prev; eexists; (split; [reflexivity|]); cbn;
        repeat split; try reflexivity; discriminate.
    + eexists. split; [reflexivity|]. cbn. repeat split; reflexivity.
Qed.

(** The answers of a run of [Add] calls are those of the two-in-a-row rule
    with "at or above the threshold". *)
Lemma Add_all_fires (calls : list (Z * Z)) :
  forall (thr dur last : Z) (hist : list bandwidthSample) (prev fired : bool)
         (m : BandwidthMonitor),
    window m = filter (in_window (last - dur)) hist ->
    total m = sum_len (window m) ->
    StronglySorted by_time hist ->
    Forall (fun s => 0 < len_ s) hist ->
    Forall (fun s => t s <= last) hist ->
    threshold m = thr -> windowDur m = dur ->
    triggered m = fired -> (fired = false -> pendingTick m = prev) ->
    clock_monotone last calls ->
    sum_len hist + admitted calls <= MaxInt64 ->
    fst (Add_all calls m) = fires_when Z.leb thr dur hist prev fired calls.
Proof.
  induction calls as [|[now n] rest IH];
    intros thr dur last hist prev fired m Hw Ht Hsorted Hpos Hlast Hthr Hdur Hfired Hprev
           Hclock Hmax; [reflexivity|].
  destruct Hclock as [Hnow Hclock].
  pose proof (admitted_nonneg rest) as Hrest.
  cbn [Add_all fires_when admitted] in *.
  destruct (n <=? 0) eqn:En.
  - assert (Hadd : Add now n m = (false, m)) by (unfold Add; rewrite En; reflexivity).
    rewrite Hadd.
    specialize (IH thr dur last hist prev fired m Hw Ht Hsorted Hpos Hlast Hthr Hdur Hfired
                  Hprev (clock_monotone_weaken _ _ _ Hnow Hclock) ltac:(lia)).
    destruct (Add_all rest m) as [rs m2]. cbn [fst] in *. rewrite IH. reflexivity.
  - apply Z.leb_gt in En.
    destruct (Add_admitted thr dur last now n hist prev fired m Hw Ht Hsorted Hpos Hlast
                Hthr Hdur Hfired Hprev En Hnow ltac:(lia))
      as (m' & Hadd & Hw' & Ht' & Hthr' & Hdur' & Hfired' & Hprev').
    rewrite Hadd.
    set (new := {| t := now; len_ := n |}) in *.
    set (over := thr <=? rolling_total dur (hist ++ [new]) now) in *.
    set (fire := over && prev && negb fired) in *.
    specialize (IH thr dur now (hist ++ [new]) over (fired || fire) m' Hw' Ht').
    assert (Hs' : StronglySorted by_time (hist ++ [new])).
    { apply sorted_snoc; [exact Hsorted|].
      apply Forall_forall. intros x Hx. rewrite Forall_forall in Hlast.
      specialize (Hlast x Hx). simpl. lia. }
    assert (Hp' : Forall (fun s => 0 < len_ s) (hist ++ [new])).
    { apply Forall_app. split; [exact Hpos|]. constructor; [exact En | constructor]. }
    assert (Hl' : Forall (fun s => t s <= now) (hist ++ [new])).
    { apply Forall_app. split.
      - apply Forall_forall. intros x Hx. rewrite Forall_forall in Hlast.
        specialize (Hlast x Hx). lia.
      - constructor; [simpl; lia | constructor]. }
    specialize (IH Hs' Hp' Hl' Hthr' Hdur' Hfired' Hprev' Hclock).
    rewrite sum_len_app in IH. unfold sum_len at 2 in IH. simpl in IH.
    specialize (IH ltac:(lia)).
    destruct (Add_all rest m') as [rs m2]. cbn [fst] in *. rewrite IH. reflexivity.
Qed.







End MonitorFacts.

(* ------------------------------------------------------------------ *)
(** ** The puzzle write path *)

Module WriteFacts.
Import Sudoku.

Section WithLibraries.
Context {C : Crypto} {R : Rand} {L : RandLaws R}.

Lemma index_at_in_range {A} (s : list A) (i : Z) :
  0 <= i < len_list s -> exists x, index_at s i = Some x /\ In x s.
Proof.
  unfold len_list, index_at. intro H.
  destruct (i <? 0) eqn:E; [apply Z.ltb_lt in E; lia|].
  destruct (nth_error s (Z.to_nat i)) as [x|] eqn:En.
  - exists x. split; [reflexivity|]. eapply nth_error_In. exact En.
  - apply nth_error_None in En. lia.
Qed.

(** A padding coin appends nothing or one pool byte, as its draws decide,
    and changes nothing but the generator. *)
Lemma maybe_pad_drawn (out : bytes) (sc : Conn) :
  PaddingPool (table sc) <> [] ->
  exists pad r,
    maybe_pad out sc = Some (out ++ pad, set_rngState r sc) /\ opt_pad (table sc) pad /\
    pad_drawn (table sc) (paddingRate sc) (rngState sc) pad r.
Proof.
  intro Hne. unfold maybe_pad, coin, pad_drawn.
  destruct (Float32 (rngState sc)) as [f r1].
  change (paddingRate (set_rngState r1 sc)) with (paddingRate sc).
  destruct (Qltb f (paddingRate sc)).
  - unfold pad_byte. change (table (set_rngState r1 sc)) with (table sc).
    change (rngState (set_rngState r1 sc)) with r1.
    assert (Hlen : 0 < len (PaddingPool (table sc))).
    { unfold len. destruct (PaddingPool (table sc)); [congruence | simpl; lia]. }
    destruct (Intn_range _ r1 Hlen) as (v & r' & Hv & Hr). rewrite Hv.
    destruct (index_at_in_range (PaddingPool (table sc)) v Hr) as (x & Hx & Hin).
    rewrite Hx. exists [x], r'.
    split; [reflexivity|]. split; [constructor; exact Hin|].
    exists v, x. repeat split; assumption || reflexivity.
  - exists [], r1. rewrite app_nil_r.
    split; [reflexivity|]. split; [constructor | split; reflexivity].
Qed.

Lemma maybe_pad_spec (out : bytes) (sc : Conn) :
  PaddingPool (table sc) <> [] ->
  exists pad r,
    maybe_pad out sc = Some (out ++ pad, set_rngState r sc) /\ opt_pad (table sc) pad.
Proof.
  intro Hne. destruct (maybe_pad_drawn out sc Hne) as (pad & r & M & P & _).
  exists pad, r. split; assumption.
Qed.

Ltac enum_draw j :=
  match goal with
  | H : 0 <= j < 4 |- _ =>
    assert (j = 0 \/ j = 1 \/ j = 2 \/ j = 3) as [->|[->|[->| ->]]] by lia; clear H
  | H : 0 <= j < 3 |- _ =>
    assert (j = 0 \/ j = 1 \/ j = 2) as [->|[->| ->]] by lia; clear H
  | H : 0 <= j < 2 |- _ =>
    assert (j = 0 \/ j = 1) as [->| ->] by lia; clear H
  end.

Lemma perm_0123 (l : list Z) :
  length l = 4%nat -> incl [0; 1; 2; 3] l -> Permutation l [0; 1; 2; 3].
Proof.
  intros Hlen Hincl. symmetry. apply NoDup_Permutation_bis.
  - repeat constructor; simpl; intuition lia.
  - rewrite Hlen. simpl. lia.
  - exact Hincl.
Qed.

(** The shuffle's three draws always give an order of the four indices. *)
Lemma fisher_yates_perm (j3 j2 j1 : Z) :
  0 <= j3 < 4 -> 0 <= j2 < 3 -> 0 <= j1 < 2 ->
  exists perm, fisher_yates j3 j2 j1 = Some perm /\ Permutation perm [0; 1; 2; 3].
Proof.
  intros H3 H2 H1. enum_draw j3; enum_draw j2; enum_draw j1;
    (eexists; split; [vm_compute; reflexivity|];
     apply perm_0123; [reflexivity|];
     intros x Hx; simpl in Hx; simpl; intuition).
Qed.

(** Different outcomes of the three draws give different orders: each of the
    24 orders of the four indices comes from exactly one outcome. *)
Lemma fisher_yates_injective (j3 j2 j1 k3 k2 k1 : Z) :
  0 <= j3 < 4 -> 0 <= j2 < 3 -> 0 <= j1 < 2 ->
  0 <= k3 < 4 -> 0 <= k2 < 3 -> 0 <= k1 < 2 ->
  fisher_yates j3 j2 j1 = fisher_yates k3 k2 k1 ->
  j3 = k3 /\ j2 = k2 /\ j1 = k1.
Proof.
  intros Hj3 Hj2 Hj1 Hk3 Hk2 Hk1.
  enum_draw j3; enum_draw j2; enum_draw j1; enum_draw k3; enum_draw k2; enum_draw k1;
    vm_compute; intro H; try discriminate H; repeat split; reflexivity.
Qed.

(** [Shuffle(4, ...)] on [0,1,2,3] is the Fisher-Yates shuffle of three
    draws, from [0,4), [0,3) and [0,2). *)
Lemma Shuffle_spec (r : rng) :
  exists j3 r1 j2 r2 j1 r' perm,
    Intn 4 r = Some (j3, r1) /\ Intn 3 r1 = Some (j2, r2) /\ Intn 2 r2 = Some (j1, r') /\
    Shuffle 4 [0; 1; 2; 3] r = Some (perm, r') /\
    fisher_yates j3 j2 j1 = Some perm /\
    0 <= j3 < 4 /\ 0 <= j2 < 3 /\ 0 <= j1 < 2.
Proof.
  unfold Shuffle. cbn [Nat.sub Shuffle_loop].
  change (Z.of_nat 3 + 1) with 4. change (Z.of_nat 2 + 1) with 3. change (Z.of_nat 1 + 1) with 2.
  destruct (Intn_range 4 r ltac:(lia)) as (j3 & r1 & E3 & H3).
  destruct (Intn_range 3 r1 ltac:(lia)) as (j2 & r2 & E2 & H2).
  destruct (Intn_range 2 r2 ltac:(lia)) as (j1 & r3 & E1 & H1).
  destruct (fisher_yates_perm j3 j2 j1 H3 H2 H1) as (perm & Hfy & _).
  exists j3, r1, j2, r2, j1, r3, perm.
  split; [exact E3|]. split; [exact E2|]. split; [exact E1|].
  split; [|repeat split; assumption || lia].
  unfold fisher_yates in Hfy. rewrite E3.
  change (Z.of_nat 3) with 3. change (Z.of_nat 2) with 2. change (Z.of_nat 1) with 1.
  destruct (swap [0; 1; 2; 3] 3 j3) as [p3|]; [|discriminate].
  rewrite E2. destruct (swap p3 2 j2) as [p2|]; [|discriminate].
  rewrite E1, Hfy. reflexivity.
Qed.

(** The four hints read in a shuffled order are the codeword's bytes in
    some order. *)
Lemma hints_in_order (pz : Puzzle) (i0 i1 i2 i3 : Z) :
  Permutation [i0; i1; i2; i3] [0; 1; 2; 3] ->
  exists h0 h1 h2 h3,
    hint pz i0 = Some h0 /\ hint pz i1 = Some h1 /\
    hint pz i2 = Some h2 /\ hint pz i3 = Some h3 /\
    Permutation [h0; h1; h2; h3] (hints_of pz).
Proof.
  intro Hp. destruct pz as [[[a b] c] d].
  set (f := fun i : Z => nth (Z.to_nat i) [a; b; c; d] 0).
  assert (Hf : forall i, In i [i0; i1; i2; i3] -> hint (a, b, c, d) i = Some (f i)).
  { intros i Hi. apply (Permutation_in _ Hp) in Hi. simpl in Hi.
    destruct Hi as [<-|[<-|[<-|[<-|[]]]]]; reflexivity. }
  exists (f i0), (f i1), (f i2), (f i3).
  repeat (split; [apply Hf; simpl; tauto|]).
  apply (Permutation_map f) in Hp. exact Hp.
Qed.

Lemma write_hints_spec (pz : Puzzle) (i0 i1 i2 i3 h0 h1 h2 h3 : Z) (out : bytes) (sc : Conn) :
  PaddingPool (table sc) <> [] ->
  hint pz i0 = Some h0 -> hint pz i1 = Some h1 ->
  hint pz i2 = Some h2 -> hint pz i3 = Some h3 ->
  exists p0 r0 p1 r1 p2 r2 p3 r,
    write_hints pz [i0; i1; i2; i3] out sc
    = Some (out ++ p0 ++ h0 :: p1 ++ h1 :: p2 ++ h2 :: p3 ++ [h3], set_rngState r sc) /\
    (opt_pad (table sc) p0 /\ opt_pad (table sc) p1 /\
     opt_pad (table sc) p2 /\ opt_pad (table sc) p3) /\
    pad_drawn (table sc) (paddingRate sc) (rngState sc) p0 r0 /\
    pad_drawn (table sc) (paddingRate sc) r0 p1 r1 /\
    pad_drawn (table sc) (paddingRate sc) r1 p2 r2 /\
    pad_drawn (table sc) (paddingRate sc) r2 p3 r.
Proof.
  intros Hne E0 E1 E2 E3. cbn [write_hints].
  destruct (maybe_pad_drawn out sc Hne) as (p0 & r0 & M0 & P0 & D0). rewrite M0, E0.
  destruct (maybe_pad_drawn ((out ++ p0) ++ [h0]) (set_rngState r0 sc) Hne)
    as (p1 & r1 & M1 & P1 & D1). rewrite M1, E1.
  destruct (maybe_pad_drawn ((((out ++ p0) ++ [h0]) ++ p1) ++ [h1])
              (set_rngState r1 (set_rngState r0 sc)) Hne) as (p2 & r2 & M2 & P2 & D2).
  rewrite M2, E2.
  destruct (maybe_pad_drawn ((((((out ++ p0) ++ [h0]) ++ p1) ++ [h1]) ++ p2) ++ [h2])
              (set_rngState r2 (set_rngState r1 (set_rngState r0 sc))) Hne)
    as (p3 & r3 & M3 & P3 & D3).
  rewrite M3, E3.
  exists p0, r0, p1, r1, p2, r2, p3, r3.
  split; [|repeat split; assumption].
  f_equal. f_equal. repeat rewrite <- app_assoc. reflexivity.
Qed.

(** The loop over the plaintext lays out one piece per byte, as the draws
    decide. *)
Lemma write_bytes_spec (p : bytes) :
  forall (out : bytes) (sc : Conn),
    Forall is_byte p -> table_ok (table sc) ->
    exists pieces r,
      write_bytes p out sc = Some (out ++ concat pieces, set_rngState r sc) /\
      Forall2 (written_piece (table sc)) p pieces /\
      pieces_drawn (table sc) (paddingRate sc) (rngState sc) p pieces r.
Proof.
  induction p as [|b p IH]; intros out sc Hp Hok.
  - exists [], (rngState sc). cbn. rewrite app_nil_r.
    split; [destruct sc; reflexivity|]. split; constructor.
  - inversion Hp as [|? ? Hb Hrest]; subst.
    pose proof (pool_nonempty _ Hok) as Hne.
    cbn [write_bytes].
    destruct (maybe_pad_drawn out sc Hne) as (pd & r0 & M0 & P0 & D0). rewrite M0.
    change (table (set_rngState r0 sc)) with (table sc).
    change (rngState (set_rngState r0 sc)) with r0.
    assert (Hlen : 0 < Z.of_nat (length (EncodeTable (table sc) b))).
    { pose proof (encode_nonempty _ Hok b Hb).
      destruct (EncodeTable (table sc) b); [congruence | simpl; lia]. }
    destruct (Intn_range _ r0 Hlen) as (k & r1 & Ek & Hk). rewrite Ek.
    destruct (index_at_in_range (EncodeTable (table sc) b) k Hk) as (pz & Epz & Hin).
    rewrite Epz.
    destruct (Shuffle_spec r1)
      as (j3 & s1 & j2 & s2 & j1 & r2 & perm & I3 & I2 & I1 & Es & Hfy & H3 & H2 & H1).
    rewrite Es.
    destruct (fisher_yates_perm j3 j2 j1 H3 H2 H1) as (perm' & Hfy' & Hperm).
    rewrite Hfy in Hfy'. injection Hfy' as <-.
    assert (Hl : length perm = 4%nat) by (apply Permutation_length in Hperm; exact Hperm).
    destruct perm as [|i0 [|i1 [|i2 [|i3 [|? ?]]]]]; try discriminate Hl.
    destruct (hints_in_order pz i0 i1 i2 i3 Hperm) as (h0 & h1 & h2 & h3 & E0 & E1 & E2 & E3 & Hh).
    destruct (write_hints_spec pz i0 i1 i2 i3 h0 h1 h2 h3 (out ++ pd)
                (set_rngState r2 (set_rngState r0 sc)) Hne E0 E1 E2 E3)
      as (p0 & t0 & p1 & t1 & p2 & t2 & p3 & r3 & W & (Q0 & Q1 & Q2 & Q3) & D1 & D2 & D3 & D4).
    rewrite W.
    change (table (set_rngState r2 (set_rngState r0 sc))) with (table sc) in *.
    change (paddingRate (set_rngState r2 (set_rngState r0 sc))) with (paddingRate sc) in *.
    change (rngState (set_rngState r2 (set_rngState r0 sc))) with r2 in *.
    destruct (IH ((out ++ pd) ++ p0 ++ h0 :: p1 ++ h1 :: p2 ++ h2 :: p3 ++ [h3])
                (set_rngState r3 (set_rngState r2 (set_rngState r0 sc))) Hrest Hok)
      as (pieces & r4 & Wb & HF & HD).
    rewrite Wb.
    exists ((pd ++ p0 ++ h0 :: p1 ++ h1 :: p2 ++ h2 :: p3 ++ [h3]) :: pieces), r4.
    split; [|split].
    + f_equal. f_equal. cbn [concat]. repeat rewrite <- app_assoc. reflexivity.
    + constructor; [|exact HF].
      exists pz, h0, h1, h2, h3, pd, p0, p1, p2, p3. repeat split; assumption.
    + apply (drawn_cons _ _ _ _ _ r3); [|exact HD].
      exists pd, r0, h0, h1, h2, h3, r2, p0, t0, p1, t1, p2, t2, p3.
      split; [exact D0|]. split.
      { exists k, r1, pz, j3, s1, j2, s2, j1, i0, i1, i2, i3, h0, h1, h2, h3.
        repeat split; assumption. }
      repeat split; assumption.
Qed.

(** C2 (amended).  For a non-empty buffer, [Write] without boost returns
    the plaintext length whatever the transport answers, and what it hands
    to the transport is, for each plaintext byte in order, the four bytes of
    one codeword of that byte in some order, with one padding coin before
    the codeword and one more before each of its four bytes (none right
    after the last), then one trailing coin after the last codeword; each
    coin that comes up leaves one byte of the padding pool.  In terms of the
    generator: a coin is a [Float32] draw below the padding rate and its
    byte the pool at an [Intn] draw over the pool; the codeword is
    [encode[b]] at an [Intn] draw over its length; the order is that of the
    shuffle's three draws, which is a permutation of the indices and differs
    for different outcomes of the draws. *)
Theorem Write_layout :
  forall (sc : Conn) (p : bytes),
    p <> [] -> Forall is_byte p -> boostWrite sc = false -> table_ok (table sc) ->
    (exists pieces trailing r1 r,
       let out := concat pieces ++ trailing in
       pieces_drawn (table sc) (paddingRate sc) (rngState sc) p pieces r1 /\
       pad_drawn (table sc) (paddingRate sc) r1 trailing r /\
       wire_image written_piece (table sc) p out /\
       Write p sc =
       Some ((len p, connErr sc),
             match connErr sc with
             | None => set_wire (wire sc ++ out) (set_rngState r sc)
             | Some _ => set_rngState r sc
             end)) /\
    (forall j3 j2 j1, 0 <= j3 < 4 -> 0 <= j2 < 3 -> 0 <= j1 < 2 ->
       exists perm, fisher_yates j3 j2 j1 = Some perm /\ Permutation perm [0; 1; 2; 3]) /\
    (forall j3 j2 j1 k3 k2 k1,
       0 <= j3 < 4 -> 0 <= j2 < 3 -> 0 <= j1 < 2 ->
       0 <= k3 < 4 -> 0 <= k2 < 3 -> 0 <= k1 < 2 ->
       fisher_yates j3 j2 j1 = fisher_yates k3 k2 k1 -> j3 = k3 /\ j2 = k2 /\ j1 = k1).
Proof.
  intros sc p Hne Hp Hb Hok.
  split; [|split; [exact fisher_yates_perm | exact fisher_yates_injective]].
  unfold Write.
  replace (len p =? 0) with false
    by (symmetry; apply Z.eqb_neq; unfold len; destruct p; [congruence | simpl; lia]).
  rewrite Hb.
  destruct (write_bytes_spec p [] sc Hp Hok) as (pieces & r0 & W & HF & HD). rewrite W.
  destruct (maybe_pad_drawn ([] ++ concat pieces) (set_rngState r0 sc) (pool_nonempty _ Hok))
    as (tr & r1 & M & T & D).
  rewrite M. cbn [app].
  exists pieces, tr, r0, r1. cbv zeta.
  split; [exact HD|]. split; [exact D|]. split.
  - exists pieces, tr. repeat split; assumption.
  - unfold conn_Write. change (connErr (set_rngState r1 (set_rngState r0 sc))) with (connErr sc).
    destruct (connErr sc); reflexivity.
Qed.

End WithLibraries.

Lemma mock_table_ok : table_ok Mock.table.
Proof.
  constructor.
  - intros b _. discriminate.
  - discriminate.
  - intros b pz h Hpz Hh. unfold is_byte.
    pose proof (Z.mod_pos_bound b 16 ltac:(lia)).
    pose proof (Z.mod_pos_bound (b / 16) 16 ltac:(lia)).
    assert (Hcase : exists lo hi, 0 <= lo < 16 /\ 0 <= hi < 16 /\
               In h [0x40 + lo; 0x50 + hi; 0x60; 0x70; 0x41 + lo; 0x51 + hi; 0x61; 0x71]).
    { exists (b mod 16), (b / 16 mod 16). split; [assumption|]. split; [assumption|].
      cbn [Mock.table EncodeTable In] in Hpz.
      destruct Hpz as [<-|[<-|[]]]; cbn [hints_of In] in Hh |- *; intuition. }
    destruct Hcase as (lo & hi & Hlo & Hhi & Hin).
    assert (Hrange : 64 <= h < 128).
    { cbn [In] in Hin. intuition lia. }
    split; [lia|].
    pose proof (forallb_below (fun v => negb ((64 <=? v) && (v <? 128))
                                        || negb (Z.land v 0x40 =? 0)) 256 eq_refl h ltac:(lia)) as Hd.
    cbv beta in Hd.
    assert (E1 : (64 <=? h) = true) by (apply Z.leb_le; lia).
    assert (E2 : (h <? 128) = true) by (apply Z.ltb_lt; lia).
    rewrite E1, E2 in Hd. cbn [andb negb orb] in Hd. apply negb_true_iff in Hd.
    exact Hd.
  - intros x Hx. cbn [Mock.table PaddingPool In] in Hx.
    destruct Hx as [<-|[<-|[<-|[]]]]; split; unfold is_byte; try lia; reflexivity.
Qed.

Lemma Write_layout_witness :
  exists pieces trailing r1 r,
    let out := concat pieces ++ trailing in
    pieces_drawn (table Mock.conn) (paddingRate Mock.conn) (rngState Mock.conn)
      [0x41; 0x42] pieces r1 /\
    pad_drawn (table Mock.conn) (paddingRate Mock.conn) r1 trailing r /\
    wire_image written_piece (table Mock.conn) [0x41; 0x42] out /\
    Write (C := Mock.crypto) (R := Mock.rand) [0x41; 0x42] Mock.conn =
    Some ((len [0x41; 0x42], connErr Mock.conn),
          match connErr Mock.conn with
          | None => set_wire (wire Mock.conn ++ out) (set_rngState r Mock.conn)
          | Some _ => set_rngState r Mock.conn
          end).
Proof.
  apply (Write_layout (C := Mock.crypto) (R := Mock.rand) (L := MockFacts.rand_laws)
           Mock.conn [0x41; 0x42]).
  - discriminate.
  - repeat constructor; unfold is_byte; lia.
  - reflexivity.
  - exact mock_table_ok.
Defined.

(** C2 as stated fails: with every coin coming up, [Write] puts two padding
    bytes before the first codeword byte and one after the last; the layout
    with coins between the codeword bytes and after the last one allows at
    most one before the first. *)
Lemma Write_layout_counterexample :
  (match Write (C := Mock.crypto) (R := Mock.rand) [0x41] Mock.padding_conn with
   | Some ((n, e), sc') => n = 1 /\ wire sc' = [32; 32; 84; 32; 96; 32; 112; 32; 65; 32]
   | None => False
   end) /\
  ~ wire_image claimed_piece Mock.table [0x41] [32; 32; 84; 32; 96; 32; 112; 32; 65; 32].
Proof.
  split; [vm_compute; split; reflexivity|].
  intros (pieces & trailing & HF & Ht & Heq).
  inversion HF as [|b piece ? ? Hpiece Hrest]; subst. inversion Hrest; subst.
  destruct Hpiece as (pz & h0 & h1 & h2 & h3 & p0 & p1 & p2 & p3 & p4
                      & Hpz & Hperm & P0 & _ & _ & _ & _ & ->).
  assert (Hh0 : In h0 (hints_of pz)).
  { apply (Permutation_in _ Hperm). left. reflexivity. }
  assert (H64 : 64 <= h0).
  { cbn in Hpz. destruct Hpz as [<-|[<-|[]]]; cbn in Hh0; intuition lia. }
  cbn [concat] in Heq. rewrite app_nil_r in Heq.
  inversion P0; subst; cbn in Heq; injection Heq; intros; lia.
Qed.

End WriteFacts.

(* ------------------------------------------------------------------ *)
(** ** The boost codec *)

Module BoostFacts.
Import Sudoku.

Lemma list_eqb_eq (a b : list Z) : list_eqb a b = true -> a = b.
Proof.
  revert b. induction a as [|x a IH]; intros [|y b] H; simpl in H; try discriminate.
  - reflexivity.
  - apply andb_true_iff in H. destruct H as [H1 H2].
    apply Z.eqb_eq in H1. subst. f_equal. apply IH, H2.
Qed.

Lemma state_eqb_eq (s s' : Z * Z) : state_eqb s s' = true -> s = s'.
Proof.
  destruct s, s'. unfold state_eqb. simpl. intro H.
  apply andb_true_iff in H. destruct H as [H1 H2].
  apply Z.eqb_eq in H1, H2. subst. reflexivity.
Qed.

Lemma joint_step_all :
  forallb (fun k =>
    forallb (fun c =>
      forallb (fun b => joint_step_ok k c b) (map Z.of_nat (seq 0 256)))
      (map Z.of_nat (seq 0 256))) [0; 2; 4] = true.
Proof. vm_compute. reflexivity. Qed.

Lemma joint_flush_all :
  forallb (fun k =>
    forallb (fun c => joint_flush_ok k c) (map Z.of_nat (seq 0 256))) [0; 2; 4] = true.
Proof. vm_compute. reflexivity. Qed.

Lemma phase_next (k : Z) : phase k -> phase ((k + 2) mod 6).
Proof. unfold phase. intros [->|[->| ->]]; vm_compute; tauto. Qed.

Lemma joint_step (k c b : Z) :
  phase k -> is_byte c -> is_byte b -> joint_step_ok k c b = true.
Proof.
  intros Hk Hc Hb. pose proof joint_step_all as H.
  rewrite forallb_forall in H.
  assert (Hin : In k [0; 2; 4]) by (unfold phase in Hk; simpl; intuition).
  specialize (H k Hin).
  pose proof (forallb_below _ 256 H c Hc) as H1. cbv beta in H1.
  exact (forallb_below _ 256 H1 b Hb).
Qed.

Lemma joint_flush (k c : Z) :
  phase k -> is_byte c -> joint_flush_ok k c = true.
Proof.
  intros Hk Hc. pose proof joint_flush_all as H.
  rewrite forallb_forall in H.
  assert (Hin : In k [0; 2; 4]) by (unfold phase in Hk; simpl; intuition).
  exact (forallb_below _ 256 (H k Hin) c Hc).
Qed.

Lemma dec_bits_app (a b : list Z) (st : Z * Z) :
  dec_bits (a ++ b) st =
  (fst (dec_bits a st) ++ fst (dec_bits b (snd (dec_bits a st))),
   snd (dec_bits b (snd (dec_bits a st)))).
Proof.
  revert st. induction a as [|x a IH]; intro st; cbn [app dec_bits].
  - cbn [fst snd app]. destruct (dec_bits b st); reflexivity.
  - destruct (dec_sym_bits st x) as [o1 st1]. rewrite IH.
    destruct (dec_bits a st1) as [o2 st2]. cbn [fst snd].
    destruct (dec_bits b st2) as [o3 st3]. cbn [fst snd].
    rewrite app_assoc. reflexivity.
Qed.

Lemma forallb_sym6 (syms : list Z) :
  forallb (fun sym => (0 <=? sym) && (sym <? 64)) syms = true -> Forall sym6 syms.
Proof.
  intro H. apply Forall_forall. intros x Hx. rewrite forallb_forall in H.
  specialize (H x Hx). apply andb_true_iff in H. destruct H as [H1 H2].
  apply Z.leb_le in H1. apply Z.ltb_lt in H2. unfold sym6. lia.
Qed.

(** The bits: what the encoder cuts from a byte stream, its flush chunk
    included, the decoder puts together again, and every chunk has six
    bits. *)
Lemma bits_round_trip (bs : bytes) :
  forall (k c : Z),
    Forall is_byte bs -> phase k -> is_byte c ->
    let syms := fst (enc_bits bs (fst (joint k c))) in
    let fl := flush_bits (snd (enc_bits bs (fst (joint k c)))) in
    fst (dec_bits (syms ++ fl) (snd (joint k c))) = split_byte k c ++ bs /\
    Forall sym6 (syms ++ fl).
Proof.
  induction bs as [|b bs IH]; intros k c Hbs Hk Hc syms fl.
  - subst syms fl. cbn [enc_bits fst snd app].
    pose proof (joint_flush k c Hk Hc) as H. unfold joint_flush_ok in H.
    destruct (joint k c) as [e d]. cbn [fst snd].
    apply andb_true_iff in H. destruct H as [H1 H2].
    apply list_eqb_eq in H1. rewrite H1, app_nil_r.
    split; [reflexivity | apply forallb_sym6, H2].
  - inversion Hbs as [|? ? Hb Hrest]; subst.
    pose proof (joint_step k c b Hk Hc Hb) as H. unfold joint_step_ok in H.
    specialize (IH ((k + 2) mod 6) b Hrest (phase_next k Hk) Hb).
    subst syms fl. cbn [enc_bits].
    destruct (joint k c) as [e d]. cbn [fst snd] in *.
    destruct (enc_byte_bits e b) as [s1 e1].
    destruct (dec_bits s1 d) as [o1 d1] eqn:Ed.
    apply andb_true_iff in H. destruct H as [H H2].
    apply andb_true_iff in H. destruct H as [H H1].
    apply andb_true_iff in H. destruct H as [H H0].
    apply state_eqb_eq in H. apply state_eqb_eq in H0. apply list_eqb_eq in H1.
    subst e1 d1.
    destruct (enc_bits bs (fst (joint ((k + 2) mod 6) b))) as [s2 e2]. cbn [fst snd] in *.
    destruct IH as [IH1 IH2]. split.
    + rewrite <- app_assoc, dec_bits_app, Ed. cbn [fst snd].
      rewrite IH1, app_assoc, H1, <- app_assoc. reflexivity.
    + rewrite <- app_assoc. apply Forall_app. split; [apply forallb_sym6; assumption | exact IH2].
Qed.

Section WithLibraries.
Context {C : Crypto} {R : Rand} {LC : CryptoLaws C} {LR : RandLaws R}.

Lemma land_63 (x : Z) : sym6 (Z.land x 0x3F).
Proof.
  unfold sym6. change 0x3F with (Z.ones 6). rewrite Z.land_ones by lia.
  apply Z.mod_pos_bound. lia.
Qed.

Lemma data_of_app (ascii : bool) (a b : bytes) :
  data_of ascii (a ++ b) = data_of ascii a ++ data_of ascii b.
Proof. apply filter_app. Qed.

Lemma data_of_pad (t : Table) (pad : bytes) :
  table_ok t -> opt_pad t pad -> data_of (IsASCII t) pad = [].
Proof.
  intros Hok Hp. destruct Hp as [|x Hx]; [reflexivity|].
  unfold data_of. cbn [filter].
  destruct (pool_classified t Hok x Hx) as [_ ->]. reflexivity.
Qed.

Lemma data_of_packed (sc : Conn) (sym : Z) :
  sym6 sym -> data_of (boostASCII sc) [packBoostByte sc sym] = [packBoostByte sc sym].
Proof.
  intro H. unfold data_of. cbn [filter].
  destruct (SudokuFacts.packBoostByte_facts sc sym H) as (_ & _ & -> & _). reflexivity.
Qed.

(** The encoder's inner loop on a connection: it cuts the chunks the bare
    accumulator cuts, and what the classifier keeps of its output is these
    chunks, packed. *)
Lemma enc_drain_spec (n : nat) :
  forall (out : bytes) (sc : Conn),
    table_ok (table sc) -> boostASCII sc = IsASCII (table sc) ->
    exists W r,
      enc_drain n out sc
      = Some (out ++ W,
              set_enc (fst (snd (enc_drain_bits n (encBitBuf sc) (encBits sc))))
                      (snd (snd (enc_drain_bits n (encBitBuf sc) (encBits sc))))
                      (set_rngState r sc)) /\
      data_of (boostASCII sc) W
      = map (packBoostByte sc) (fst (enc_drain_bits n (encBitBuf sc) (encBits sc))).
Proof.
  induction n as [|n IH]; intros out sc Hok Hmode.
  - exists [], (rngState sc). cbn. rewrite app_nil_r. split; [destruct sc; reflexivity | reflexivity].
  - cbn [enc_drain enc_drain_bits].
    destruct (6 <=? encBits sc) eqn:E.
    + set (bits := encBits sc - 6).
      set (chunk := Z.land (to_byte (Z.shiftr (encBitBuf sc) bits)) 63).
      set (buf' := if bits =? 0 then 0 else Z.land (encBitBuf sc) (bits_mask bits)).
      destruct (WriteFacts.maybe_pad_spec out (set_enc (encBitBuf sc) bits sc)
                  (pool_nonempty _ Hok)) as (pad & r & M & P).
      rewrite M.
      change (encBitBuf (set_rngState r (set_enc (encBitBuf sc) bits sc))) with (encBitBuf sc).
      fold (bits_mask bits). fold buf'.
      destruct (IH ((out ++ pad) ++ [packBoostByte sc chunk])
                  (set_enc buf' bits (set_rngState r (set_enc (encBitBuf sc) bits sc)))
                  Hok Hmode) as (W & r' & D & F).
      change (packBoostByte (set_enc (encBitBuf sc) bits sc) chunk)
        with (packBoostByte sc chunk).
      rewrite D.
      change (encBitBuf (set_enc buf' bits (set_rngState r (set_enc (encBitBuf sc) bits sc))))
        with buf' in *.
      change (encBits (set_enc buf' bits (set_rngState r (set_enc (encBitBuf sc) bits sc))))
        with bits in *.
      destruct (enc_drain_bits n buf' bits) as [cs st]. cbn [fst snd] in *.
      exists (pad ++ packBoostByte sc chunk :: W), r'.
      split.
      * f_equal. f_equal. repeat rewrite <- app_assoc. reflexivity.
      * change (packBoostByte sc chunk :: W) with ([packBoostByte sc chunk] ++ W).
        rewrite !data_of_app. rewrite Hmode at 1. rewrite (data_of_pad _ pad Hok P).
        rewrite data_of_packed by apply land_63.
        cbn [app map]. f_equal. exact F.
    + exists [], (rngState sc). cbn [fst snd map]. rewrite app_nil_r.
      split; [destruct sc; reflexivity | reflexivity].
Qed.

(** The encoder's loop over the bytes, likewise. *)
Lemma enc_bytes_spec (bs : bytes) :
  forall (out : bytes) (sc : Conn),
    table_ok (table sc) -> boostASCII sc = IsASCII (table sc) ->
    exists W r,
      enc_bytes bs out sc
      = Some (out ++ W,
              set_enc (fst (snd (enc_bits bs (encBitBuf sc, encBits sc))))
                      (snd (snd (enc_bits bs (encBitBuf sc, encBits sc))))
                      (set_rngState r sc)) /\
      data_of (boostASCII sc) W
      = map (packBoostByte sc) (fst (enc_bits bs (encBitBuf sc, encBits sc))).
Proof.
  induction bs as [|b bs IH]; intros out sc Hok Hmode.
  - exists [], (rngState sc). cbn. rewrite app_nil_r. split; [destruct sc; reflexivity | reflexivity].
  - cbn [enc_bytes enc_bits enc_byte_bits].
    set (buf' := Z.lor (to_uint64 (Z.shiftl (encBitBuf sc) 8)) b).
    set (bits := encBits sc + 8).
    destruct (enc_drain_spec (Z.to_nat bits) out (set_enc buf' bits sc) Hok Hmode)
      as (W1 & r1 & D1 & F1).
    rewrite D1.
    change (encBitBuf (set_enc buf' bits sc)) with buf' in *.
    change (encBits (set_enc buf' bits sc)) with bits in *.
    destruct (enc_drain_bits (Z.to_nat bits) buf' bits) as [cs1 [e1 k1]]. cbn [fst snd] in *.
    destruct (IH (out ++ W1) (set_enc e1 k1 (set_rngState r1 (set_enc buf' bits sc))) Hok Hmode)
      as (W2 & r2 & D2 & F2).
    rewrite D2.
    change (encBitBuf (set_enc e1 k1 (set_rngState r1 (set_enc buf' bits sc)))) with e1 in *.
    change (encBits (set_enc e1 k1 (set_rngState r1 (set_enc buf' bits sc)))) with k1 in *.
    destruct (enc_bits bs (e1, k1)) as [cs2 [e2 k2]]. cbn [fst snd] in *.
    exists (W1 ++ W2), r2. split.
    + f_equal. f_equal. rewrite app_assoc. reflexivity.
    + rewrite data_of_app, map_app. f_equal; assumption.
Qed.

(** [writeBoost] on a working transport: it returns [len(p)], and what the
    classifier keeps of the bytes it writes is the packed chunks of the
    encrypted payload. *)
Lemma writeBoost_spec (p : bytes) (sc : Conn) (st : Stream) :
  table_ok (table sc) -> boostASCII sc = IsASCII (table sc) ->
  boostEnc sc = Some st -> connErr sc = None ->
  let encBuf := xor_from (s_key st) (s_iv st) (s_pos st) p in
  let res := enc_bits encBuf (encBitBuf sc, encBits sc) in
  exists W r st',
    writeBoost p sc
    = Some ((len p, None),
            set_wire (wire sc ++ W)
              (set_enc (fst (snd res)) (snd (snd res))
                 (set_rngState r (set_boostEnc (Some st') sc)))) /\
    data_of (boostASCII sc) W = map (packBoostByte sc) (fst res).
Proof.
  intros Hok Hmode Henc Herr encBuf res. unfold writeBoost. rewrite Henc.
  unfold XORKeyStream. fold encBuf.
  set (st' := {| s_key := s_key st; s_iv := s_iv st; s_pos := (s_pos st + length p)%nat |}).
  destruct (enc_bytes_spec encBuf [] (set_boostEnc (Some st') sc) Hok Hmode)
    as (W1 & r1 & D1 & F1).
  rewrite D1.
  change (encBitBuf (set_boostEnc (Some st') sc)) with (encBitBuf sc) in *.
  change (encBits (set_boostEnc (Some st') sc)) with (encBits sc) in *.
  fold res in D1, F1 |- *.
  destruct (WriteFacts.maybe_pad_spec ([] ++ W1)
              (set_enc (fst (snd res)) (snd (snd res))
                 (set_rngState r1 (set_boostEnc (Some st') sc)))
              (pool_nonempty _ Hok)) as (pad & r2 & M & P).
  rewrite M. unfold conn_Write.
  change (connErr _) with (connErr sc). rewrite Herr.
  exists (W1 ++ pad), r2, st'. split; [reflexivity|].
  rewrite data_of_app. rewrite Hmode at 2. rewrite (data_of_pad _ pad Hok P), app_nil_r.
  exact F1.
Qed.

(** [flushBoostPadding] in a resting state of the encoder: what the
    classifier keeps of its bytes is the packed flush chunk, if any. *)
Lemma flushBoostPadding_spec (sc : Conn) :
  table_ok (table sc) -> boostASCII sc = IsASCII (table sc) ->
  boostWrite sc = true -> connErr sc = None -> 0 <= encBits sc <= 6 ->
  exists W sc',
    flushBoostPadding sc = Some (None, sc') /\
    wire sc' = wire sc ++ W /\
    data_of (boostASCII sc) W
    = map (packBoostByte sc) (flush_bits (encBitBuf sc, encBits sc)).
Proof.
  intros Hok Hmode Hw Herr Hbits. unfold flushBoostPadding, flush_bits.
  rewrite Hw. cbn [negb orb].
  destruct (encBits sc =? 0) eqn:E.
  - exists [], sc. rewrite app_nil_r. repeat split; reflexivity.
  - destruct (6 - encBits sc <? 0) eqn:E2; [apply Z.ltb_lt in E2; lia|].
    set (remaining := to_byte (Z.land (to_uint64 (Z.shiftl (encBitBuf sc) (6 - encBits sc))) 63)).
    destruct (WriteFacts.maybe_pad_spec [] sc (pool_nonempty _ Hok)) as (p1 & r1 & M1 & P1).
    rewrite M1.
    destruct (WriteFacts.maybe_pad_spec (([] ++ p1) ++ [packBoostByte sc remaining])
                (set_rngState r1 sc) (pool_nonempty _ Hok)) as (p2 & r2 & M2 & P2).
    rewrite M2. unfold conn_Write. change (connErr _) with (connErr sc). rewrite Herr.
    eexists (p1 ++ [packBoostByte sc remaining] ++ p2), _.
    split; [reflexivity|]. split.
    + cbn [wire set_wire]. cbn. repeat rewrite <- app_assoc. reflexivity.
    + rewrite !data_of_app. rewrite Hmode at 1 3.
      rewrite (data_of_pad _ p1 Hok P1), (data_of_pad _ p2 Hok P2), app_nil_r.
      cbn [app map]. apply data_of_packed.
      unfold remaining, to_byte.
      pose proof (land_63 (to_uint64 (Z.shiftl (encBitBuf sc) (6 - encBits sc)))) as H63.
      unfold sym6 in *. rewrite Z.mod_small; lia.
Qed.

Lemma enc_bits_phase (bs : bytes) :
  forall (k c : Z),
    Forall is_byte bs -> phase k -> is_byte c ->
    exists k' c',
      phase k' /\ is_byte c' /\ snd (enc_bits bs (fst (joint k c))) = fst (joint k' c').
Proof.
  induction bs as [|b bs IH]; intros k c Hbs Hk Hc.
  - exists k, c. split; [exact Hk|]. split; [exact Hc | reflexivity].
  - inversion Hbs as [|? ? Hb Hrest]; subst.
    pose proof (joint_step k c b Hk Hc Hb) as H. unfold joint_step_ok in H.
    destruct (IH ((k + 2) mod 6) b Hrest (phase_next k Hk) Hb) as (k' & c' & Hk' & Hc' & E).
    exists k', c'. split; [exact Hk'|]. split; [exact Hc'|].
    cbn [enc_bits]. destruct (joint k c) as [e d]. cbn [fst snd] in *.
    destruct (enc_byte_bits e b) as [s1 e1].
    destruct (dec_bits s1 d) as [o1 d1].
    apply andb_true_iff in H. destruct H as [H _].
    apply andb_true_iff in H. destruct H as [H _].
    apply andb_true_iff in H. destruct H as [H _].
    apply state_eqb_eq in H. subst e1.
    destruct (enc_bits bs (fst (joint ((k + 2) mod 6) b))) as [s2 e2]. cbn [fst snd] in *.
    exact E.
Qed.

Lemma joint_bits (k c : Z) : phase k -> 0 <= snd (fst (joint k c)) <= 6.
Proof. unfold phase, joint. intros [->|[->| ->]]; cbn; lia. Qed.

Lemma xor_from_app (k iv : bytes) (pos : nat) (a b : bytes) :
  xor_from k iv pos (a ++ b) = xor_from k iv pos a ++ xor_from k iv (pos + length a) b.
Proof.
  revert pos. induction a as [|x a IH]; intro pos; cbn [app xor_from length].
  - rewrite Nat.add_0_r. reflexivity.
  - rewrite IH. do 3 f_equal. lia.
Qed.

Lemma xor_from_length (k iv : bytes) (pos : nat) (a : bytes) :
  length (xor_from k iv pos a) = length a.
Proof. revert pos. induction a as [|x a IH]; intro pos; cbn; [reflexivity | rewrite IH; reflexivity]. Qed.

(** Applying the same key stream twice gives the bytes back. *)
Lemma xor_from_twice (k iv : bytes) (pos : nat) (a : bytes) :
  xor_from k iv pos (xor_from k iv pos a) = a.
Proof.
  revert pos. induction a as [|x a IH]; intro pos; cbn [xor_from]; [reflexivity|].
  rewrite IH. f_equal. rewrite Z.lxor_assoc, Z.lxor_nilpotent, Z.lxor_0_r. reflexivity.
Qed.

Lemma lxor_bytes_all :
  forallb (fun a => forallb (fun b => (0 <=? Z.lxor a b) && (Z.lxor a b <? 256))
                      (map Z.of_nat (seq 0 256))) (map Z.of_nat (seq 0 256)) = true.
Proof. vm_compute. reflexivity. Qed.

Lemma lxor_byte (a b : Z) : is_byte a -> is_byte b -> is_byte (Z.lxor a b).
Proof.
  intros Ha Hb. pose proof (forallb_below _ 256 lxor_bytes_all a Ha) as H. cbv beta in H.
  pose proof (forallb_below _ 256 H b Hb) as H'. cbv beta in H'.
  apply andb_true_iff in H'. destruct H' as [H1 H2].
  apply Z.leb_le in H1. apply Z.ltb_lt in H2. unfold is_byte. lia.
Qed.

Lemma xor_from_bytes (k iv : bytes) (pos : nat) (a : bytes) :
  Forall is_byte a -> Forall is_byte (xor_from k iv pos a).
Proof.
  intro H. revert pos. induction H as [|x a Hx Ha IH]; intro pos; cbn [xor_from]; constructor.
  - apply lxor_byte; [exact Hx | apply aes_ctr_byte].
  - apply IH.
Qed.

(** The decoder's inner loop on a connection: the bytes the bare
    accumulator assembles, decrypted at the stream's position, are appended
    to [pendingData]. *)
Lemma dec_drain_spec (n : nat) :
  forall (sc : Conn) (st : Stream),
    boostDec sc = Some st ->
    dec_drain n sc
    = (None,
       set_pendingData
         (pendingData sc ++ xor_from (s_key st) (s_iv st) (s_pos st)
                              (fst (dec_drain_bits n (decBitBuf sc) (decBits sc))))
         (set_boostDec
            (Some {| s_key := s_key st; s_iv := s_iv st;
                     s_pos := (s_pos st
                               + length (fst (dec_drain_bits n (decBitBuf sc) (decBits sc))))%nat |})
            (set_dec (fst (snd (dec_drain_bits n (decBitBuf sc) (decBits sc))))
                     (snd (snd (dec_drain_bits n (decBitBuf sc) (decBits sc)))) sc))).
Proof.
  induction n as [|n IH]; intros sc st Hst.
  - cbn [dec_drain dec_drain_bits fst snd xor_from length]. rewrite app_nil_r, Nat.add_0_r.
    destruct sc; cbn in *. subst. destruct st; reflexivity.
  - destruct sc as [w ce tb rd rc rg pd hb rs pr bw br ba be bd eb ek db dk].
    cbn [boostDec] in Hst. subst bd.
    cbn [dec_drain dec_drain_bits decBits decBitBuf].
    destruct (8 <=? dk) eqn:E.
    + set (bits := dk - 8).
      set (byteVal := to_byte (Z.shiftr db bits)).
      fold (bits_mask bits).
      set (buf' := if bits =? 0 then 0 else Z.land db (bits_mask bits)).
      unfold set_dec at 1 2 3. cbn [boostDec pendingData].
      unfold XORKeyStream. cbn [xor_from hd length].
      unfold set_boostDec, set_pendingData.
      cbn [wire connErr table reader recorder recording pendingData hintBuf rngState
           paddingRate boostWrite boostRead boostASCII boostEnc boostDec encBitBuf encBits
           decBitBuf decBits].
      set (st' := {| s_key := s_key st; s_iv := s_iv st; s_pos := (s_pos st + 1)%nat |}).
      match goal with |- dec_drain n ?s = _ => rewrite (IH s st' eq_refl) end.
      cbn [decBitBuf decBits pendingData].
      destruct (dec_drain_bits n buf' bits) as [outs [b2 k2]]. cbn [fst snd xor_from length].
      unfold set_pendingData, set_boostDec, set_dec.
      cbn [wire connErr table reader recorder recording pendingData hintBuf rngState
           paddingRate boostWrite boostRead boostASCII boostEnc boostDec encBitBuf encBits
           decBitBuf decBits s_key s_iv s_pos st'].
      rewrite <- app_assoc. cbn [app].
      replace (s_pos st + 1)%nat with (S (s_pos st)) by lia.
      replace (S (s_pos st) + length outs)%nat with (s_pos st + S (length outs))%nat by lia.
      reflexivity.
    + cbn [fst snd xor_from length pendingData]. rewrite app_nil_r, Nat.add_0_r.
      destruct st; reflexivity.
Qed.

(** The decoder's loop over a chunk of wire bytes, on a connection. *)
Lemma dec_chunk_spec (chunk : bytes) :
  forall (sc : Conn) (st : Stream),
    boostDec sc = Some st ->
    let syms := map (unpackBoostByte sc) (data_of (boostASCII sc) chunk) in
    let res := dec_bits syms (decBitBuf sc, decBits sc) in
    dec_chunk chunk sc
    = (None,
       set_pendingData
         (pendingData sc ++ xor_from (s_key st) (s_iv st) (s_pos st) (fst res))
         (set_boostDec
            (Some {| s_key := s_key st; s_iv := s_iv st;
                     s_pos := (s_pos st + length (fst res))%nat |})
            (set_dec (fst (snd res)) (snd (snd res)) sc))).
Proof.
  induction chunk as [|b chunk IH]; intros sc st Hst syms res.
  - subst syms res. cbn [dec_chunk data_of filter map dec_bits fst snd xor_from length].
    rewrite app_nil_r, Nat.add_0_r.
    destruct sc; cbn in *. subst. destruct st; reflexivity.
  - subst syms res. cbn [dec_chunk]. unfold data_of. cbn [filter]. fold (data_of (boostASCII sc) chunk).
    destruct (isPadding (boostASCII sc) b) eqn:Ep; cbn [negb].
    + apply IH. exact Hst.
    + cbn [map dec_bits dec_sym_bits].
      set (sym := unpackBoostByte sc b).
      assert (Hun : forall s, boostASCII s = boostASCII sc ->
                      map (unpackBoostByte s) (data_of (boostASCII sc) chunk)
                      = map (unpackBoostByte sc) (data_of (boostASCII sc) chunk)).
      { intros s Hs. apply map_ext. intro x. unfold unpackBoostByte. rewrite Hs. reflexivity. }
      set (syms := map (unpackBoostByte sc) (data_of (boostASCII sc) chunk)) in *.
      destruct sc as [w ce tb rd rc rg pd hb rs pr bw br ba be bd eb ek db dk].
      cbn [boostDec boostASCII decBitBuf decBits pendingData] in *. subst bd.
      set (buf' := Z.lor (to_uint64 (Z.shiftl db 6)) sym).
      set (bits := dk + 6).
      unfold set_dec at 1.
      cbn [wire connErr table reader recorder recording pendingData hintBuf rngState
           paddingRate boostWrite boostRead boostASCII boostEnc boostDec encBitBuf encBits
           decBitBuf decBits].
      match goal with
      | |- context [dec_drain _ ?s] =>
        rewrite (dec_drain_spec (Z.to_nat bits) s st eq_refl)
      end.
      cbn [decBitBuf decBits pendingData].
      destruct (dec_drain_bits (Z.to_nat bits) buf' bits) as [o1 [b1 k1]]. cbn [fst snd].
      set (st1 := {| s_key := s_key st; s_iv := s_iv st;
                     s_pos := (s_pos st + length o1)%nat |}).
      unfold set_pendingData at 1, set_boostDec at 1, set_dec at 1.
      cbn [wire connErr table reader recorder recording pendingData hintBuf rngState
           paddingRate boostWrite boostRead boostASCII boostEnc boostDec encBitBuf encBits
           decBitBuf decBits].
      match goal with |- dec_chunk chunk ?s = _ => rewrite (IH s st1 eq_refl) end.
      cbn [boostASCII decBitBuf decBits pendingData].
      rewrite Hun by reflexivity.
      cbv [set_pendingData set_boostDec set_dec wire connErr table reader recorder recording
           pendingData hintBuf rngState paddingRate boostWrite boostRead boostASCII boostEnc
           boostDec encBitBuf encBits decBitBuf decBits s_key s_iv s_pos st1].
      destruct (dec_bits syms (b1, k1)) as [o2 [b2 k2]]. cbn [fst snd].
      rewrite xor_from_app, <- app_assoc, length_app, Nat.add_assoc. reflexivity.
Qed.

Lemma plain_of_app (sc : Conn) (st : Stream) (chunk rest : bytes) :
  boostDec sc = Some st ->
  pendingData (snd (dec_chunk chunk sc)) ++ plain_of (snd (dec_chunk chunk sc)) rest
  = pendingData sc ++ plain_of sc (chunk ++ rest).
Proof.
  intro Hst. rewrite (dec_chunk_spec chunk sc st Hst). cbn [snd].
  assert (Hun : forall s, boostASCII s = boostASCII sc ->
                  map (unpackBoostByte s) (data_of (boostASCII sc) rest)
                  = map (unpackBoostByte sc) (data_of (boostASCII sc) rest)).
  { intros s Hs. apply map_ext. intro x. unfold unpackBoostByte. rewrite Hs. reflexivity. }
  unfold plain_of at 2. rewrite Hst.
  rewrite data_of_app, map_app, dec_bits_app. cbn [fst snd].
  set (syms := map (unpackBoostByte sc) (data_of (boostASCII sc) chunk)) in *.
  set (syms' := map (unpackBoostByte sc) (data_of (boostASCII sc) rest)) in *.
  destruct sc as [w ce tb rd rc rg pd hb rs pr bw br ba be bd eb ek db dk].
  cbn [boostDec boostASCII decBitBuf decBits pendingData] in *. subst bd.
  destruct (dec_bits syms (db, dk)) as [o1 [b1 k1]]. cbn [fst snd].
  cbv [set_pendingData set_boostDec set_dec wire connErr table reader recorder recording
           pendingData hintBuf rngState paddingRate boostWrite boostRead boostASCII boostEnc
           boostDec encBitBuf encBits decBitBuf decBits plain_of s_key s_iv s_pos].
  rewrite Hun by reflexivity.
  rewrite xor_from_app, <- app_assoc. reflexivity.
Qed.

Lemma dec_chunk_keeps (chunk : bytes) (sc : Conn) (st : Stream) :
  boostDec sc = Some st ->
  fst (dec_chunk chunk sc) = None /\
  reader (snd (dec_chunk chunk sc)) = reader sc /\
  recorder (snd (dec_chunk chunk sc)) = recorder sc /\
  recording (snd (dec_chunk chunk sc)) = recording sc /\
  boostDec (snd (dec_chunk chunk sc)) <> None.
Proof.
  intro Hst. rewrite (dec_chunk_spec chunk sc st Hst). cbn [fst snd].
  destruct sc as [w ce tb rd rc rg pd hb rs pr bw br ba be bd eb ek db dk].
  cbv [set_pendingData set_boostDec set_dec wire connErr table reader recorder recording
           pendingData hintBuf rngState paddingRate boostWrite boostRead boostASCII boostEnc
           boostDec encBitBuf encBits decBitBuf decBits].
  repeat split; try reflexivity. discriminate.
Qed.

Lemma Bufio_Read_fresh (rd : Bufio.Reader) :
  Bufio.buf rd = [] -> Bufio.err rd = None -> Bufio.size rd = IOBufferSize ->
  Bufio.Read IOBufferSize rd =
  match Bufio.src rd with
  | [] => (([], Some (Bufio.src_err rd)), rd)
  | c :: rest => ((c, None), Bufio.set_src rest rd)
  end.
Proof.
  intros Hb He Hs. unfold Bufio.Read. rewrite Hb, He, Hs, Z.leb_refl.
  unfold Bufio.rd_Read. destruct (Bufio.src rd); reflexivity.
Qed.

Lemma plain_of_nil (sc : Conn) : plain_of sc [] = [].
Proof. unfold plain_of. destruct (boostDec sc); reflexivity. Qed.

(** One trip round the read loop of [readBoost] with nothing pending and a
    chunk to come: the chunk is taken from the transport, recorded and
    decoded; the loop returns if that left something pending and goes round
    again if not.  Nothing available is lost. *)
Lemma readBoost_loop_step (f plen : nat) (sc : Conn) (c : bytes) (rest : list bytes) :
  read_ready sc -> pendingData sc = [] -> Bufio.src (reader sc) = c :: rest ->
  exists sc3,
    readBoost_loop (S f) plen sc
    = match pendingData sc3 with
      | _ :: _ => Some (deliver plen sc3)
      | [] => readBoost_loop f plen sc3
      end /\
    read_ready sc3 /\ Bufio.src (reader sc3) = rest /\
    Bufio.src_err (reader sc3) = Bufio.src_err (reader sc) /\
    avail sc3 = avail sc.
Proof.
  intros Hready Hpend Hsrc.
  destruct Hready as (Hb & He & Hs & Hrec & Hdec).
  cbn [readBoost_loop]. rewrite Hpend.
  rewrite (Bufio_Read_fresh _ Hb He Hs), Hsrc.
  set (sc1 := set_reader (Bufio.set_src rest (reader sc)) sc).
  assert (Hav1 : avail sc = plain_of sc (c ++ concat rest)).
  { unfold avail. rewrite Hpend, Hsrc. reflexivity. }
  destruct c as [|b c].
  - (* an empty read *)
    exists sc1. split; [reflexivity|].
    split; [repeat split; assumption|].
    split; [reflexivity|]. split; [reflexivity|].
    rewrite Hav1. unfold avail. change (pendingData sc1) with (pendingData sc).
    rewrite Hpend. reflexivity.
  - (* a chunk of wire bytes *)
    assert (Hrc : exists sc2, record_chunk (b :: c) sc1 = Some sc2 /\
               boostDec sc2 = boostDec sc /\ pendingData sc2 = [] /\
               reader sc2 = reader sc1 /\
               (recording sc2 = true -> recorder sc2 <> None) /\
               plain_of sc2 = plain_of sc).
    { unfold record_chunk. change (recording sc1) with (recording sc).
      change (recorder sc1) with (recorder sc).
      destruct (recording sc) eqn:Er.
      - destruct (recorder sc) as [rc|] eqn:Erc; [|exfalso; apply (Hrec eq_refl); reflexivity].
        eexists. split; [reflexivity|]. cbn.
        repeat split; try assumption; try reflexivity. intros _. discriminate.
      - exists sc1. split; [reflexivity|]. cbn.
        repeat split; try assumption; try reflexivity.
        intro Hx. change (recording sc1) with (recording sc) in Hx. congruence. }
    destruct Hrc as (sc2 & Hrc & Hd2 & Hp2 & Hr2 & Hrec2 & Hpl2).
    rewrite Hrc.
    destruct (boostDec sc) as [st|] eqn:Hst; [|congruence].
    destruct (dec_chunk_keeps (b :: c) sc2 st Hd2) as (Hfst & Hrd3 & Hrc3 & Hrg3 & Hdec3).
    pose proof (plain_of_app sc2 st (b :: c) (concat rest) Hd2) as Hpa.
    destruct (dec_chunk (b :: c) sc2) as [e3 sc3]. cbn [fst snd] in *. subst e3.
    rewrite Hp2, Hpl2 in Hpa. cbn [app] in Hpa.
    exists sc3. split; [reflexivity|].
    assert (Hsrc3 : Bufio.src (reader sc3) = rest).
    { rewrite Hrd3, Hr2. reflexivity. }
    split.
    { unfold read_ready. rewrite Hrd3, Hr2. cbn [reader sc1 set_reader].
      unfold Bufio.set_src. cbn.
      repeat split; try assumption. rewrite Hrg3, Hrc3. exact Hrec2. }
    split; [exact Hsrc3|].
    split; [rewrite Hrd3, Hr2; reflexivity|].
    unfold avail at 1. rewrite Hsrc3, Hpa, Hav1. reflexivity.
Qed.

(** What [deliver] hands over of a non-empty [pendingData]. *)
Lemma deliver_spec (plen : nat) (sc : Conn) :
  read_ready sc -> (0 < plen)%nat -> pendingData sc <> [] ->
  exists d sc',
    deliver plen sc = ((d, None), sc') /\
    d <> [] /\ (length d <= plen)%nat /\ d ++ avail sc' = avail sc /\ read_ready sc' /\
    Bufio.src_err (reader sc') = Bufio.src_err (reader sc).
Proof.
  intros Hready Hplen Hne. unfold deliver.
  eexists _, _. split; [reflexivity|].
  split. { destruct (pendingData sc); [congruence|]. destruct plen; [lia | discriminate]. }
  split. { rewrite length_firstn. lia. }
  split.
  { unfold avail. cbn [pendingData set_pendingData reader].
    change (plain_of (set_pendingData _ sc)) with (plain_of sc).
    rewrite app_assoc, firstn_skipn. reflexivity. }
  split; [|reflexivity].
  destruct Hready as (? & ? & ? & ? & ?). repeat split; assumption.
Qed.

(** The read loop of [readBoost] with nothing pending: when the chunks to
    come decode to something, it returns a non-empty piece of it that fits
    the caller's buffer, keeps the rest available, and its fuel suffices. *)
Lemma readBoost_loop_spec (chunks : list bytes) :
  forall (fuel plen : nat) (sc : Conn),
    read_ready sc -> pendingData sc = [] -> Bufio.src (reader sc) = chunks ->
    (length chunks < fuel)%nat -> (0 < plen)%nat -> avail sc <> [] ->
    exists d sc',
      readBoost_loop fuel plen sc = Some ((d, None), sc') /\
      d <> [] /\ (length d <= plen)%nat /\ d ++ avail sc' = avail sc /\ read_ready sc' /\
      Bufio.src_err (reader sc') = Bufio.src_err (reader sc).
Proof.
  induction chunks as [|c rest IH]; intros fuel plen sc Hready Hpend Hsrc Hfuel Hplen Hav.
  - exfalso. apply Hav. unfold avail. rewrite Hpend, Hsrc. cbn. apply plain_of_nil.
  - destruct fuel as [|f]; [cbn in Hfuel; lia|].
    destruct (readBoost_loop_step f plen sc c rest Hready Hpend Hsrc)
      as (sc3 & Hstep & Hready3 & Hsrc3 & Herr3 & Hav3).
    rewrite Hstep.
    destruct (pendingData sc3) as [|x pd] eqn:Ep3.
    + destruct (IH f plen sc3 Hready3 Ep3 Hsrc3 ltac:(cbn in Hfuel; lia) Hplen
                  ltac:(rewrite Hav3; exact Hav))
        as (d & sc' & Hl & Hd & Hlen & Happ & Hr' & He').
      exists d, sc'. split; [exact Hl|]. split; [exact Hd|]. split; [exact Hlen|].
      split; [rewrite Happ; exact Hav3|]. split; [exact Hr' | congruence].
    + destruct (deliver_spec plen sc3 Hready3 Hplen ltac:(rewrite Ep3; discriminate))
        as (d & sc' & Hl & Hd & Hlen & Happ & Hr' & He').
      exists d, sc'. rewrite Hl. split; [reflexivity|]. split; [exact Hd|].
      split; [exact Hlen|]. split; [rewrite Happ; exact Hav3|].
      split; [exact Hr' | congruence].
Qed.

(** The read loop with nothing pending and nothing to come: it uses up the
    chunks and returns the transport's error. *)
Lemma readBoost_loop_drained (chunks : list bytes) :
  forall (fuel plen : nat) (sc : Conn),
    read_ready sc -> pendingData sc = [] -> Bufio.src (reader sc) = chunks ->
    (length chunks < fuel)%nat -> avail sc = [] ->
    exists sc',
      readBoost_loop fuel plen sc = Some (([], Some (Bufio.src_err (reader sc))), sc').
Proof.
  induction chunks as [|c rest IH]; intros fuel plen sc Hready Hpend Hsrc Hfuel Hav.
  - destruct fuel as [|f]; [cbn in Hfuel; lia|].
    destruct Hready as (Hb & He & Hs & Hrec & Hdec).
    cbn [readBoost_loop]. rewrite Hpend.
    rewrite (Bufio_Read_fresh _ Hb He Hs), Hsrc.
    eexists. reflexivity.
  - destruct fuel as [|f]; [cbn in Hfuel; lia|].
    destruct (readBoost_loop_step f plen sc c rest Hready Hpend Hsrc)
      as (sc3 & Hstep & Hready3 & Hsrc3 & Herr3 & Hav3).
    rewrite Hstep.
    assert (Ep3 : pendingData sc3 = []).
    { rewrite Hav in Hav3. unfold avail in Hav3. apply app_eq_nil in Hav3. tauto. }
    rewrite Ep3.
    destruct (IH f plen sc3 Hready3 Ep3 Hsrc3 ltac:(cbn in Hfuel; lia)
                ltac:(rewrite Hav3; exact Hav)) as (sc' & Hl).
    exists sc'. rewrite Hl, Herr3. reflexivity.
Qed.

(** [readBoost] with something available returns a non-empty piece of it
    that fits the caller's buffer, and keeps the rest available. *)
Lemma readBoost_spec (plen : nat) (sc : Conn) :
  read_ready sc -> (0 < plen)%nat -> avail sc <> [] ->
  exists d sc',
    readBoost plen sc = Some ((d, None), sc') /\
    d <> [] /\ (length d <= plen)%nat /\ d ++ avail sc' = avail sc /\ read_ready sc' /\
    Bufio.src_err (reader sc') = Bufio.src_err (reader sc).
Proof.
  intros Hready Hplen Hav. unfold readBoost.
  destruct (pendingData sc) as [|x pd] eqn:Ep.
  - apply (readBoost_loop_spec (Bufio.src (reader sc))); try assumption; try reflexivity. lia.
  - destruct (deliver_spec plen sc Hready Hplen ltac:(rewrite Ep; discriminate))
      as (d & sc' & Hl & Hrest).
    exists d, sc'. rewrite Hl. split; [reflexivity | exact Hrest].
Qed.

(** [readBoost] with nothing available returns no data and the transport's
    error. *)
Lemma readBoost_drained (plen : nat) (sc : Conn) :
  read_ready sc -> avail sc = [] ->
  exists sc', readBoost plen sc = Some (([], Some (Bufio.src_err (reader sc))), sc').
Proof.
  intros Hready Hav. unfold readBoost.
  assert (Ep : pendingData sc = []).
  { unfold avail in Hav. apply app_eq_nil in Hav. tauto. }
  rewrite Ep.
  apply (readBoost_loop_drained (Bufio.src (reader sc))); try assumption; try reflexivity. lia.
Qed.

(** [io.ReadFull] over [readBoost]: with enough available it fills the
    buffer with the first [want] bytes, leaves the rest available, and its
    fuel suffices. *)
Lemma ReadFull_loop_spec (fuel : nat) :
  forall (want : nat) (got : bytes) (sc : Conn),
    read_ready sc ->
    (want - length got <= length (avail sc))%nat ->
    (want - length got < fuel)%nat ->
    exists sc',
      ReadFull_loop fuel want got sc
      = Some ((got ++ firstn (want - length got) (avail sc), None), sc') /\
      read_ready sc' /\
      avail sc' = skipn (want - length got) (avail sc) /\
      Bufio.src_err (reader sc') = Bufio.src_err (reader sc).
Proof.
  induction fuel as [|f IH]; intros want got sc Hready Hav Hfuel; [lia|].
  cbn [ReadFull_loop].
  destruct (want <=? length got)%nat eqn:E.
  - apply Nat.leb_le in E. exists sc.
    replace (want - length got)%nat with 0%nat by lia. cbn. rewrite app_nil_r.
    repeat split; try reflexivity; apply Hready.
  - apply Nat.leb_gt in E.
    destruct (readBoost_spec (want - length got) sc Hready ltac:(lia)) as
      (d & sc1 & Hr & Hd & Hlen & Happ & Hready1 & Herr1).
    { intro H0. rewrite H0 in Hav. cbn in Hav. lia. }
    rewrite Hr.
    assert (Hdl : (1 <= length d)%nat) by (destruct d; [congruence | cbn; lia]).
    destruct (IH want (got ++ d) sc1 Hready1) as (sc' & Hloop & Hready' & Hav' & Herr').
    + rewrite length_app. rewrite <- Happ, length_app in Hav. lia.
    + rewrite length_app. lia.
    + exists sc'. rewrite Hloop.
      assert (Hn : (want - length (got ++ d) = want - length got - length d)%nat)
        by (rewrite length_app; lia).
      split; [|split; [exact Hready' | split; [|congruence]]].
      * f_equal. f_equal. f_equal.
        rewrite <- app_assoc. f_equal. rewrite <- Happ, Hn.
        rewrite firstn_app.
        rewrite (firstn_all2 d) by lia.
        reflexivity.
      * rewrite Hav', <- Happ, Hn, skipn_app.
        rewrite (skipn_all2 d) by lia. reflexivity.
Qed.

Lemma packBoostByte_mode (sc sc' : Conn) (v : Z) :
  boostASCII sc = boostASCII sc' -> packBoostByte sc v = packBoostByte sc' v.
Proof. unfold packBoostByte. intros ->. reflexivity. Qed.

Lemma unpack_pack_all (srv cli : Conn) (syms : list Z) :
  boostASCII srv = boostASCII cli -> Forall sym6 syms ->
  map (unpackBoostByte cli) (map (packBoostByte srv) syms) = syms.
Proof.
  intros Hm H. induction H as [|x syms Hx Hs IH]; [reflexivity|].
  cbn [map]. rewrite IH. f_equal.
  rewrite (packBoostByte_mode srv cli x Hm).
  apply (SudokuFacts.packBoostByte_facts cli x Hx).
Qed.

Lemma EnableBoost_ok (write read : bool) (key iv : bytes) (mode : bool) (sc : Conn) :
  16 <= len key -> 16 <= len iv ->
  let st := NewCTR (firstn 16 key) (firstn 16 iv) in
  EnableBoost write read key iv mode sc =
  (None,
   (if read then
      fun s => set_hintBuf [] (set_boostASCII mode (set_boostRead true (set_dec 0 0
                 (set_boostDec (Some st) s))))
    else fun s => s)
     (if write then
        set_boostASCII mode (set_boostWrite true (set_enc 0 0 (set_boostEnc (Some st) sc)))
      else sc)).
Proof.
  intros Hk Hi st. unfold EnableBoost, aes_BlockSize.
  destruct (len key <? 16) eqn:E1; [apply Z.ltb_lt in E1; lia|].
  destruct (len iv <? 16) eqn:E2; [apply Z.ltb_lt in E2; lia|].
  destruct write, read; reflexivity.
Qed.

(** C1 (amended).  Boost round trip, when the mode flag is the table's.  A
    connection with boost enabled for writing, over a table that meets the
    specification and with the table's own mode as the boost mode flag
    ([isASCII = table.IsASCII]), writes [p] with [writeBoost] and then
    flushes; a peer with boost enabled for reading under the same key, IV
    and mode flag, whose transport delivers these bytes in any chunks, reads
    back exactly the [len(p)] bytes of [p], in order, and after them nothing
    but the transport's error.  This holds for either table mode, every
    padding rate and every state of the generator.  The condition on the
    flag is needed: the writer pads from the table's pool and the reader
    tells padding from data by the flag. *)
Theorem boost_round_trip :
  forall (srv : Conn) (p key iv : bytes),
    table_ok (table srv) -> connErr srv = None ->
    Forall is_byte p -> 16 <= len key -> 16 <= len iv ->
    let mode := IsASCII (table srv) in
    exists srv1 srv2 srv3 W,
      EnableBoost true false key iv mode srv = (None, srv1) /\
      writeBoost p srv1 = Some ((len p, None), srv2) /\
      flushBoostPadding srv2 = Some (None, srv3) /\
      wire srv3 = wire srv ++ W /\
      forall (cli : Conn) (chunks : list bytes) (e : error),
        concat chunks = W ->
        reader cli = Bufio.NewReaderSize chunks e IOBufferSize ->
        pendingData cli = [] ->
        (recording cli = true -> recorder cli <> None) ->
        exists cli1 cli2,
          EnableBoost false true key iv mode cli = (None, cli1) /\
          ReadFull (length p) cli1 = Some ((p, None), cli2) /\
          forall plen, exists cli3, readBoost plen cli2 = Some (([], Some e), cli3).
Proof.
  intros srv p key iv Hok Herr Hp Hkey Hiv mode.
  set (st := NewCTR (firstn 16 key) (firstn 16 iv)).
  set (srv1 := set_boostASCII mode (set_boostWrite true (set_enc 0 0
                 (set_boostEnc (Some st) srv)))).
  set (encBuf := xor_from (s_key st) (s_iv st) (s_pos st) p).
  assert (HencBuf : Forall is_byte encBuf) by (apply xor_from_bytes; exact Hp).
  destruct (writeBoost_spec p srv1 st Hok eq_refl eq_refl Herr) as (W1 & r1 & st' & Hw & Hd1).
  change (encBitBuf srv1, encBits srv1) with (fst (joint 0 0)) in Hw, Hd1.
  fold encBuf in Hw, Hd1.
  set (res := enc_bits encBuf (fst (joint 0 0))) in *.
  set (srv2 := set_wire (wire srv1 ++ W1)
                 (set_enc (fst (snd res)) (snd (snd res))
                    (set_rngState r1 (set_boostEnc (Some st') srv1)))) in *.
  destruct (enc_bits_phase encBuf 0 0 HencBuf ltac:(left; reflexivity)
              ltac:(unfold is_byte; lia)) as (k' & c' & Hk' & Hc' & Hres).
  fold res in Hres.
  assert (Hbits : 0 <= encBits srv2 <= 6).
  { change (encBits srv2) with (snd (snd res)). rewrite Hres. apply joint_bits, Hk'. }
  destruct (flushBoostPadding_spec srv2 Hok eq_refl eq_refl Herr Hbits)
    as (W2 & srv3 & Hf & Hw3 & Hd2).
  change (encBitBuf srv2, encBits srv2) with (fst (snd res), snd (snd res)) in Hd2.
  rewrite <- surjective_pairing in Hd2.
  change (boostASCII srv2) with mode in Hd2. change (boostASCII srv1) with mode in Hd1.
  exists srv1, srv2, srv3, (W1 ++ W2).
  split; [apply (EnableBoost_ok true false key iv mode srv Hkey Hiv)|].
  split; [exact Hw|]. split; [exact Hf|].
  split. { rewrite Hw3. cbn [wire srv2 set_wire]. unfold srv1. cbn. symmetry. apply app_assoc. }
  intros cli chunks e Hchunks Hreader Hpend Hrec.
  set (cli1 := set_hintBuf [] (set_boostASCII mode (set_boostRead true (set_dec 0 0
                 (set_boostDec (Some st) cli))))).
  assert (Hready : read_ready cli1).
  { unfold read_ready. change (reader cli1) with (reader cli). rewrite Hreader.
    repeat split; try reflexivity; [exact Hrec | discriminate]. }
  destruct (bits_round_trip encBuf 0 0 HencBuf ltac:(left; reflexivity)
              ltac:(unfold is_byte; lia)) as [Hrt Hsym].
  fold res in Hrt, Hsym. cbn [split_byte Z.eqb app] in Hrt.
  assert (Hav : avail cli1 = p).
  { unfold avail. change (pendingData cli1) with (pendingData cli).
    change (reader cli1) with (reader cli). rewrite Hpend, Hreader. cbn [app Bufio.src Bufio.NewReaderSize].
    rewrite Hchunks. unfold plain_of. cbn [boostDec cli1 set_hintBuf set_boostASCII set_boostRead
                                           set_dec set_boostDec boostASCII decBitBuf decBits].
    change (boostASCII cli1) with mode.
    rewrite data_of_app, Hd1, Hd2, <- map_app.
    rewrite (unpack_pack_all srv2 cli1 _ eq_refl Hsym).
    change (0, 0) with (snd (joint 0 0)). rewrite Hrt.
    apply xor_from_twice. }
  exists cli1.
  destruct (ReadFull_loop_spec (S (length p)) (length p) [] cli1 Hready)
    as (cli2 & Hrf & Hready2 & Hav2 & Herr2).
  { rewrite Hav. cbn. lia. }
  { cbn. lia. }
  exists cli2.
  split; [apply (EnableBoost_ok false true key iv mode cli Hkey Hiv)|].
  split.
  - unfold ReadFull. rewrite Hrf, Hav. cbn [app length]. rewrite Nat.sub_0_r, firstn_all.
    reflexivity.
  - intro plen.
    rewrite Hav in Hav2. cbn [length] in Hav2. rewrite Nat.sub_0_r, skipn_all in Hav2.
    destruct (readBoost_drained plen cli2 Hready2 Hav2) as (cli3 & Hd3).
    exists cli3. rewrite Hd3, Herr2.
    change (reader cli1) with (reader cli). rewrite Hreader. reflexivity.
Qed.

End WithLibraries.

(** The payload and parameters of the repository's round-trip test. *)
Lemma boost_round_trip_witness :
  exists srv1 srv2 srv3 W,
    EnableBoost (R := Mock.rand) true false Mock.boost_key Mock.boost_iv (IsASCII (table Mock.conn))
      Mock.conn = (None, srv1) /\
    writeBoost (C := Mock.crypto) Mock.boost_payload srv1
    = Some ((len Mock.boost_payload, None), srv2) /\
    flushBoostPadding srv2 = Some (None, srv3) /\
    wire srv3 = wire Mock.conn ++ W /\
    forall (cli : Conn (R := Mock.rand)) (chunks : list bytes) (e : error),
      concat chunks = W ->
      reader cli = Bufio.NewReaderSize chunks e IOBufferSize ->
      pendingData cli = [] ->
      (recording cli = true -> recorder cli <> None) ->
      exists cli1 cli2,
        EnableBoost false true Mock.boost_key Mock.boost_iv (IsASCII (table Mock.conn)) cli
        = (None, cli1) /\
        ReadFull (C := Mock.crypto) (R := Mock.rand) (length Mock.boost_payload) cli1
        = Some ((Mock.boost_payload, None), cli2) /\
        forall plen, exists cli3,
          readBoost (C := Mock.crypto) plen cli2 = Some (([], Some e), cli3).
Proof.
  apply (boost_round_trip (LC := MockFacts.crypto_laws) (LR := MockFacts.rand_laws)
           Mock.conn Mock.boost_payload Mock.boost_key Mock.boost_iv).
  - exact WriteFacts.mock_table_ok.
  - reflexivity.
  - repeat constructor; unfold is_byte; lia.
  - vm_compute. discriminate.
  - vm_compute. discriminate.
Defined.

(** C1 as stated fails: the same mode flag on both ends is not enough.  Over
    the ASCII table, with the flag false on both ends and padding rate 1,
    the writer pads with the byte 0x20 of the table's pool, which the
    reader, classifying on the flag, takes for a data byte: [ReadFull]
    returns 7 bytes that are not the payload, and no error. *)
Lemma boost_round_trip_counterexample :
  IsASCII (table Mock.padding_conn) = true /\
  match EnableBoost (R := Mock.rand) true false Mock.boost_key Mock.boost_iv false
          Mock.padding_conn with
  | (None, srv1) =>
    match writeBoost (C := Mock.crypto) Mock.boost_payload srv1 with
    | Some ((n, None), srv2) =>
      match flushBoostPadding srv2 with
      | Some (None, srv3) =>
        n = len Mock.boost_payload /\
        wire srv3 = [32; 12; 32; 64; 32; 97; 32; 79; 32; 42; 32; 106; 32; 100; 32; 79;
                     32; 13; 32; 32; 64; 32] /\
        match EnableBoost false true Mock.boost_key Mock.boost_iv false
                (NewConn (R := Mock.rand) [wire srv3] EOF None Mock.table 100 100 false [])
        with
        | (None, cli1) =>
          match ReadFull (C := Mock.crypto) (length Mock.boost_payload) cli1 with
          | Some ((d, e), _) =>
            d = [72; 215; 62; 106; 32; 16; 11] /\ e = None /\ d <> Mock.boost_payload
          | None => False
          end
        | _ => False
        end
      | _ => False
      end
    | _ => False
    end
  | _ => False
  end.
Proof.
  split; [reflexivity|].
  vm_compute. repeat split. discriminate.
Qed.

End BoostFacts.

(* ------------------------------------------------------------------ *)
(** ** The puzzle codec end to end *)

Module PuzzleFacts.
Import Sudoku.

Section WithLibraries.
Context {C : Crypto} {R : Rand} {L : RandLaws R}.

Lemma opt_pad_length (t : Table) (pad : bytes) : opt_pad t pad -> (length pad <= 1)%nat.
Proof. intros [|x Hx]; simpl; lia. Qed.

Lemma data_of_hint (t : Table) (b : Z) (pz : Puzzle) (h : Z) :
  table_ok t -> In pz (EncodeTable t b) -> In h (hints_of pz) ->
  data_of (IsASCII t) [h] = [h].
Proof.
  intros Hok Hpz Hh. unfold data_of. cbn [filter].
  destruct (hints_classified t Hok b pz h Hpz Hh) as [_ ->]. reflexivity.
Qed.

(** One plaintext byte on the wire: four codeword bytes, which the
    classifier keeps, and at most five padding bytes, which it drops. *)
Lemma written_piece_data (t : Table) (b : Z) (piece : bytes) :
  table_ok t -> written_piece t b piece ->
  (4 <= length piece <= 9)%nat /\
  exists pz h0 h1 h2 h3,
    In pz (EncodeTable t b) /\ Permutation [h0; h1; h2; h3] (hints_of pz) /\
    data_of (IsASCII t) piece = [h0; h1; h2; h3].
Proof.
  intros Hok (pz & h0 & h1 & h2 & h3 & p & p0 & p1 & p2 & p3
              & Hpz & Hperm & P & P0 & P1 & P2 & P3 & ->).
  split.
  - pose proof (opt_pad_length _ _ P). pose proof (opt_pad_length _ _ P0).
    pose proof (opt_pad_length _ _ P1). pose proof (opt_pad_length _ _ P2).
    pose proof (opt_pad_length _ _ P3).
    repeat (rewrite length_app || cbn [length]). lia.
  - exists pz, h0, h1, h2, h3. split; [exact Hpz|]. split; [exact Hperm|].
    assert (Hin : forall h, In h [h0; h1; h2; h3] -> data_of (IsASCII t) [h] = [h]).
    { intros h Hh. apply (data_of_hint t b pz h Hok Hpz).
      apply (Permutation_in _ Hperm Hh). }
    change (p ++ p0 ++ h0 :: p1 ++ h1 :: p2 ++ h2 :: p3 ++ [h3])
      with (p ++ p0 ++ [h0] ++ p1 ++ [h1] ++ p2 ++ [h2] ++ p3 ++ [h3]).
    rewrite !BoostFacts.data_of_app.
    rewrite (BoostFacts.data_of_pad t p Hok P), (BoostFacts.data_of_pad t p0 Hok P0),
      (BoostFacts.data_of_pad t p1 Hok P1), (BoostFacts.data_of_pad t p2 Hok P2),
      (BoostFacts.data_of_pad t p3 Hok P3).
    rewrite !Hin by (simpl; tauto). reflexivity.
Qed.

Lemma pieces_size (t : Table) (p : bytes) (pieces : list bytes) :
  table_ok t -> Forall2 (written_piece t) p pieces ->
  (4 * length p <= length (concat pieces) <= 9 * length p)%nat /\
  length (data_of (IsASCII t) (concat pieces)) = (4 * length p)%nat.
Proof.
  intros Hok H. induction H as [|b piece p pieces Hpiece Hrest IH].
  - simpl. split; [lia | reflexivity].
  - destruct (written_piece_data t b piece Hok Hpiece)
      as (Hlen & pz & h0 & h1 & h2 & h3 & _ & _ & Hd).
    cbn [concat]. rewrite length_app, BoostFacts.data_of_app, length_app, Hd.
    cbn [length]. lia.
Qed.

(** A coin never comes up when the padding rate is zero. *)
Lemma pad_drawn_zero (t : Table) (rate : Q) (r r' : rng) (pad : bytes) :
  (rate <= 0)%Q -> pad_drawn t rate r pad r' -> pad = [].
Proof.
  intros Hrate. unfold pad_drawn.
  pose proof (Float32_range r) as [Hf _].
  destruct (Float32 r) as [f r1]. cbn [fst] in Hf.
  assert (E : Qltb f rate = false).
  { unfold Qltb. apply negb_false_iff. apply Qle_bool_iff.
    apply (Qle_trans _ 0); assumption. }
  rewrite E. tauto.
Qed.

Lemma pieces_drawn_zero (t : Table) (rate : Q) (r r' : rng) (p : bytes) (pieces : list bytes) :
  (rate <= 0)%Q -> pieces_drawn t rate r p pieces r' ->
  length (concat pieces) = (4 * length p)%nat.
Proof.
  intros Hrate H. induction H as [r|r b piece r1 p pieces r' Hpiece Hrest IH].
  - reflexivity.
  - destruct Hpiece as (pd & s1 & h0 & h1 & h2 & h3 & s2 & p0 & s3 & p1 & s4 & p2 & s5 & p3
                        & D & _ & D0 & D1 & D2 & D3 & ->).
    rewrite (pad_drawn_zero _ _ _ _ _ Hrate D), (pad_drawn_zero _ _ _ _ _ Hrate D0),
      (pad_drawn_zero _ _ _ _ _ Hrate D1), (pad_drawn_zero _ _ _ _ _ Hrate D2),
      (pad_drawn_zero _ _ _ _ _ Hrate D3).
    cbn [concat app length]. rewrite IH. lia.
Qed.

(** What [Write] without boost hands to a working transport, byte for
    byte of plaintext. *)
Lemma Write_puzzle_spec (sc : Conn) (p : bytes) :
  p <> [] -> Forall is_byte p -> boostWrite sc = false -> table_ok (table sc) ->
  connErr sc = None ->
  exists pieces trailing r1 r,
    Write p sc
    = Some ((len p, None), set_wire (wire sc ++ concat pieces ++ trailing) (set_rngState r sc)) /\
    Forall2 (written_piece (table sc)) p pieces /\
    pieces_drawn (table sc) (paddingRate sc) (rngState sc) p pieces r1 /\
    opt_pad (table sc) trailing /\
    pad_drawn (table sc) (paddingRate sc) r1 trailing r.
Proof.
  intros Hne Hp Hb Hok Herr. unfold Write.
  replace (len p =? 0) with false
    by (symmetry; apply Z.eqb_neq; unfold len; destruct p; [congruence | simpl; lia]).
  rewrite Hb.
  destruct (WriteFacts.write_bytes_spec p [] sc Hp Hok) as (pieces & r0 & W & HF & HD).
  rewrite W.
  destruct (WriteFacts.maybe_pad_drawn ([] ++ concat pieces) (set_rngState r0 sc)
              (pool_nonempty _ Hok)) as (tr & r1 & M & T & D).
  rewrite M. cbn [app].
  exists pieces, tr, r0, r1.
  split; [|repeat split; assumption].
  unfold conn_Write. change (connErr (set_rngState r1 (set_rngState r0 sc))) with (connErr sc).
  rewrite Herr. reflexivity.
Qed.

(** X1.  [Write] without boost on a working transport returns [len(p)] and
    writes four codeword bytes for every plaintext byte, with at most five
    padding bytes per plaintext byte and one more at the end: between
    [4 len(p)] and [9 len(p) + 1] bytes, and exactly [4 len(p)] when the
    padding rate is zero. *)
Theorem Write_size :
  forall (sc : Conn) (p : bytes),
    p <> [] -> Forall is_byte p -> boostWrite sc = false -> table_ok (table sc) ->
    connErr sc = None ->
    exists out sc',
      Write p sc = Some ((len p, None), sc') /\
      wire sc' = wire sc ++ out /\
      len (data_of (IsASCII (table sc)) out) = 4 * len p /\
      4 * len p <= len out <= 9 * len p + 1 /\
      ((paddingRate sc <= 0)%Q -> len out = 4 * len p).
Proof.
  intros sc p Hne Hp Hb Hok Herr.
  destruct (Write_puzzle_spec sc p Hne Hp Hb Hok Herr)
    as (pieces & tr & r1 & r & HW & HF & HD & T & D).
  exists (concat pieces ++ tr). eexists. split; [exact HW|].
  split; [reflexivity|].
  destruct (pieces_size _ _ _ Hok HF) as [Hsz Hdata].
  pose proof (opt_pad_length _ _ T) as Ht.
  unfold len. split.
  - rewrite BoostFacts.data_of_app, (BoostFacts.data_of_pad _ tr Hok T), app_nil_r, Hdata. lia.
  - split; [rewrite length_app; lia|].
    intro Hrate. rewrite length_app, (pad_drawn_zero _ _ _ _ _ Hrate D).
    rewrite (pieces_drawn_zero _ _ _ _ _ _ Hrate HD). cbn [length]. lia.
Qed.

(** *** Reading *)

Lemma hint_bytes_app (decode : Decoder) (a b : bytes) :
  forall hb,
    hint_bytes decode (a ++ b) hb =
    match hint_bytes decode a hb with
    | None => None
    | Some (o1, hb1) =>
      match hint_bytes decode b hb1 with
      | None => None
      | Some (o2, hb2) => Some (o1 ++ o2, hb2)
      end
    end.
Proof.
  induction a as [|x a IH]; intro hb; cbn [app hint_bytes].
  - destruct (hint_bytes decode b hb) as [[o2 hb2]|]; reflexivity.
  - destruct (len (hb ++ [x]) =? 4).
    + destruct (decode _ _ _ _) as [val|]; [|reflexivity].
      rewrite IH. destruct (hint_bytes decode a []) as [[o1 hb1]|]; [|reflexivity].
      destruct (hint_bytes decode b hb1) as [[o2 hb2]|]; reflexivity.
    + apply IH.
Qed.

Ltac conn_fields :=
  cbv [set_wire set_reader set_recorder set_recording set_pendingData set_hintBuf set_rngState
       set_boostWrite set_boostRead set_boostASCII set_boostEnc set_boostDec set_enc set_dec
       wire connErr table reader recorder recording pendingData hintBuf rngState paddingRate
       boostWrite boostRead boostASCII boostEnc boostDec encBitBuf encBits decBitBuf decBits].

(** The hint loop on a connection does what the bare accumulator does, and
    touches nothing but [hintBuf] and [pendingData]. *)
Lemma hint_chunk_spec (decode : Decoder) (chunk : bytes) :
  forall sc : Conn,
    match hint_bytes decode (data_of (IsASCII (table sc)) chunk) (hintBuf sc) with
    | Some (out, hb') =>
      hint_chunk decode chunk sc
      = (None, set_hintBuf hb' (set_pendingData (pendingData sc ++ out) sc))
    | None =>
      exists pd hb,
        hint_chunk decode chunk sc
        = (Some ErrMapMiss, set_hintBuf hb (set_pendingData pd sc)) /\
        length hb = 4%nat
    end.
Proof.
  induction chunk as [|b chunk IH]; intro sc.
  - cbn [data_of filter hint_bytes hint_chunk]. rewrite app_nil_r.
    destruct sc; reflexivity.
  - unfold data_of. cbn [filter hint_chunk]. fold (data_of (IsASCII (table sc)) chunk).
    destruct (isPadding (IsASCII (table sc)) b); cbn [negb]; [apply IH|].
    cbn [hint_bytes].
    destruct sc as [w ce tb rd rc rg pd hb rs pr bw br ba be bd eb ek db dk].
    conn_fields.
    destruct (len (hb ++ [b]) =? 4) eqn:E4.
    + destruct (decode _ _ _ _) as [val|].
      * match goal with |- context [hint_chunk decode chunk ?s] => specialize (IH s) end.
        revert IH. conn_fields.
        destruct (hint_bytes decode (data_of (IsASCII tb) chunk) []) as [[out hb']|].
        -- intros ->. rewrite <- app_assoc. reflexivity.
        -- intros (pd' & hb' & -> & Hl). exists pd', hb'. split; [reflexivity | exact Hl].
      * exists pd, (hb ++ [b]). split; [reflexivity|].
        apply Z.eqb_eq in E4. unfold len in E4. lia.
    + match goal with |- context [hint_chunk decode chunk ?s] => specialize (IH s) end.
      revert IH. conn_fields.
      destruct (hint_bytes decode (data_of (IsASCII tb) chunk) (hb ++ [b])) as [[out hb']|].
      * intros ->. reflexivity.
      * intros (pd' & hb' & -> & Hl). exists pd', hb'. split; [reflexivity | exact Hl].
Qed.

Lemma Bufio_Read_fresh' (rd : Bufio.Reader) :
  Bufio.buf rd = [] -> Bufio.err rd = None -> Bufio.size rd = IOBufferSize ->
  Bufio.Read IOBufferSize rd =
  match Bufio.src rd with
  | [] => (([], Some (Bufio.src_err rd)), rd)
  | c :: rest => ((c, None), Bufio.set_src rest rd)
  end.
Proof.
  intros Hb He Hs. unfold Bufio.Read. rewrite Hb, He, Hs, Z.leb_refl.
  unfold Bufio.rd_Read. destruct (Bufio.src rd); reflexivity.
Qed.

(** Taking a chunk from the transport and recording it: the state the
    chunk is then decoded in. *)
Lemma take_chunk (sc : Conn) (c : bytes) (rest : list bytes) :
  reader_fresh sc ->
  let sc1 := set_reader (Bufio.set_src rest (reader sc)) sc in
  match c with
  | [] => Some sc1
  | _ => record_chunk c sc1
  end
  = Some (set_recorder (if recording sc then Some (recorded sc ++ c) else recorder sc) sc1).
Proof.
  intros (Hb & He & Hs & Hrec).
  destruct sc as [w ce tb rd rc rg pd hb rs pr bw br ba be bd eb ek db dk].
  unfold record_chunk, recorded. revert Hrec. conn_fields. intro Hrec.
  destruct c as [|x c].
  - destruct rg; [|reflexivity].
    destruct rc as [r|]; [|exfalso; apply (Hrec eq_refl); reflexivity].
    rewrite app_nil_r. reflexivity.
  - destruct rg; [|reflexivity].
    destruct rc as [r|]; [|exfalso; apply (Hrec eq_refl); reflexivity].
    reflexivity.
Qed.

(** One trip round the loop of [Read] with nothing pending and a chunk to
    come. *)
Lemma Read_loop_step (decode : Decoder) (f plen : nat) (sc : Conn) (c : bytes)
    (rest : list bytes) :
  reader_fresh sc -> pendingData sc = [] -> Bufio.src (reader sc) = c :: rest ->
  let sc2 := set_recorder (if recording sc then Some (recorded sc ++ c) else recorder sc)
               (set_reader (Bufio.set_src rest (reader sc)) sc) in
  Read_loop decode (S f) plen sc
  = match hint_chunk decode c sc2 with
    | (Some e, sc3) => Some (([], Some e), sc3)
    | (None, sc3) =>
      match pendingData sc3 with
      | _ :: _ => Some (deliver plen sc3)
      | [] => Read_loop decode f plen sc3
      end
    end.
Proof.
  intros Hready Hpend Hsrc sc2.
  pose proof (take_chunk sc c rest Hready) as Hrec. cbv zeta in Hrec. subst sc2.
  destruct Hready as (Hb & He & Hs & _).
  cbn [Read_loop]. rewrite Hpend.
  rewrite (Bufio_Read_fresh' _ Hb He Hs), Hsrc.
  destruct c as [|x c].
  - injection Hrec as Hrec. cbn [hint_chunk]. rewrite <- Hrec. reflexivity.
  - rewrite Hrec. destruct (hint_chunk decode (x :: c) _) as [[e|] sc3]; reflexivity.
Qed.

Ltac conn_fields_all :=
  cbv [set_wire set_reader set_recorder set_recording set_pendingData set_hintBuf set_rngState
       set_boostWrite set_boostRead set_boostASCII set_boostEnc set_boostDec set_enc set_dec
       wire connErr table reader recorder recording pendingData hintBuf rngState paddingRate
       boostWrite boostRead boostASCII boostEnc boostDec encBitBuf encBits decBitBuf decBits] in *.

(** The loop of [Read] with nothing pending: when the chunks to come decode
    to something, it returns a non-empty piece of it that fits the caller's
    buffer, keeps the rest available, and its fuel suffices. *)
Lemma Read_loop_data (decode : Decoder) (chunks : list bytes) :
  forall (fuel plen : nat) (sc : Conn) (a : bytes),
    reader_fresh sc -> pendingData sc = [] -> Bufio.src (reader sc) = chunks ->
    (length chunks < fuel)%nat -> (0 < plen)%nat ->
    avail_puzzle decode sc = Some a -> a <> [] ->
    exists d sc' a',
      Read_loop decode fuel plen sc = Some ((d, None), sc') /\
      d <> [] /\ (length d <= plen)%nat /\
      avail_puzzle decode sc' = Some a' /\ a = d ++ a' /\
      reader_fresh sc' /\ boostRead sc' = boostRead sc.
Proof.
  induction chunks as [|c rest IH]; intros fuel plen sc a Hready Hpend Hsrc Hfuel Hplen Hav Hne.
  - exfalso. apply Hne. unfold avail_puzzle in Hav. rewrite Hpend, Hsrc in Hav.
    cbn in Hav. injection Hav as <-. reflexivity.
  - destruct fuel as [|f]; [cbn in Hfuel; lia|].
    rewrite (Read_loop_step decode f plen sc c rest Hready Hpend Hsrc). cbv zeta.
    match goal with |- context [hint_chunk decode c ?s] =>
      pose proof (hint_chunk_spec decode c s) as Hc; set (sc2 := s) in * end.
    unfold avail_puzzle in Hav. rewrite Hpend, Hsrc in Hav. cbn [concat app] in Hav.
    rewrite BoostFacts.data_of_app, hint_bytes_app in Hav.
    change (table sc2) with (table sc) in Hc. change (hintBuf sc2) with (hintBuf sc) in Hc.
    destruct (hint_bytes decode (data_of (IsASCII (table sc)) c) (hintBuf sc))
      as [[o1 hb1]|] eqn:E1; [|discriminate Hav].
    rewrite Hc. clear Hc.
    destruct (hint_bytes decode (data_of (IsASCII (table sc)) (concat rest)) hb1)
      as [[o2 hb2]|] eqn:E2; [|discriminate Hav].
    injection Hav as <-.
    set (sc3 := set_hintBuf hb1 (set_pendingData (pendingData sc2 ++ o1) sc2)).
    assert (Hp3 : pendingData sc3 = o1).
    { unfold sc3, sc2. destruct sc. conn_fields_all. rewrite Hpend. reflexivity. }
    assert (Hready3 : reader_fresh sc3).
    { destruct Hready as (Hb & He & Hs & Hrec).
      unfold sc3, sc2, reader_fresh. destruct sc. unfold recorded. conn_fields_all.
      unfold Bufio.set_src. cbn [Bufio.buf Bufio.err Bufio.size].
      repeat split; try assumption.
      intro Hr. rewrite Hr. discriminate. }
    assert (Hsrc3 : Bufio.src (reader sc3) = rest).
    { unfold sc3, sc2. destruct sc. conn_fields_all. reflexivity. }
    assert (Hav3 : avail_puzzle decode sc3 = Some (o1 ++ o2)).
    { unfold avail_puzzle. rewrite Hsrc3, Hp3.
      change (table sc3) with (table sc). 
      replace (hintBuf sc3) with hb1 by (unfold sc3, sc2; destruct sc; reflexivity).
      rewrite E2. reflexivity. }
    assert (Hbr3 : boostRead sc3 = boostRead sc).
    { unfold sc3, sc2. destruct sc. reflexivity. }
    destruct o1 as [|x o1].
    + rewrite Hp3.
      destruct (IH f plen sc3 o2 Hready3 Hp3 Hsrc3 ltac:(cbn in Hfuel; lia) Hplen Hav3 Hne)
        as (d & sc' & a' & Hl & Hd & Hlen & Ha' & Heq & Hr' & Hb').
      exists d, sc', a'. split; [exact Hl|]. split; [exact Hd|]. split; [exact Hlen|].
      split; [exact Ha'|]. split; [exact Heq|]. split; [exact Hr' | congruence].
    + rewrite Hp3. unfold deliver. rewrite Hp3.
      eexists _, _, (skipn plen (x :: o1) ++ o2). split; [reflexivity|].
      split. { destruct plen; [lia | discriminate]. }
      split. { rewrite length_firstn. lia. }
      split.
      { unfold avail_puzzle.
        change (table (set_pendingData _ sc3)) with (table sc).
        change (reader (set_pendingData _ sc3)) with (reader sc3).
        change (hintBuf (set_pendingData _ sc3)) with hb1.
        rewrite Hsrc3, E2. reflexivity. }
      split. { rewrite app_assoc, firstn_skipn. reflexivity. }
      split; [|exact Hbr3].
      destruct Hready3 as (? & ? & ? & ?). unfold reader_fresh.
      repeat split; assumption.
Qed.

(** [Read] without boost, with something available: a non-empty piece of
    it that fits the caller's buffer. *)
Lemma Read_data (decode : Decoder) (plen : nat) (sc : Conn) (a : bytes) :
  reader_fresh sc -> boostRead sc = false -> (0 < plen)%nat ->
  avail_puzzle decode sc = Some a -> a <> [] ->
  exists d sc' a',
    Read decode plen sc = Some ((d, None), sc') /\
    d <> [] /\ (length d <= plen)%nat /\
    avail_puzzle decode sc' = Some a' /\ a = d ++ a' /\
    reader_fresh sc' /\ boostRead sc' = false.
Proof.
  intros Hready Hbr Hplen Hav Hne. unfold Read. rewrite Hbr.
  destruct (pendingData sc) as [|x pd] eqn:Ep.
  - destruct (Read_loop_data decode (Bufio.src (reader sc))
                (S (S (length (Bufio.src (reader sc)) + Bufio.Buffered (reader sc))))
                plen sc a Hready Ep eq_refl ltac:(lia) Hplen Hav Hne)
      as (d & sc' & a' & Hl & Hd & Hlen & Ha' & Heq & Hr' & Hb').
    exists d, sc', a'. split; [exact Hl|]. split; [exact Hd|]. split; [exact Hlen|].
    split; [exact Ha'|]. split; [exact Heq|]. split; [exact Hr' | congruence].
  - unfold deliver. rewrite Ep. unfold avail_puzzle in Hav. rewrite Ep in Hav.
    destruct (hint_bytes decode _ (hintBuf sc)) as [[o hb']|] eqn:E; [|discriminate Hav].
    injection Hav as <-.
    eexists _, _, (skipn plen (x :: pd) ++ o). split; [reflexivity|].
    split. { destruct plen; [lia | discriminate]. }
    split. { rewrite length_firstn. lia. }
    split.
    { unfold avail_puzzle.
      change (table (set_pendingData _ sc)) with (table sc).
      change (reader (set_pendingData _ sc)) with (reader sc).
      change (hintBuf (set_pendingData _ sc)) with (hintBuf sc).
      rewrite E. reflexivity. }
    split. { rewrite app_assoc, firstn_skipn. reflexivity. }
    split; [|exact Hbr].
    destruct Hready as (? & ? & ? & ?). unfold reader_fresh. repeat split; assumption.
Qed.

(** [io.ReadFull] over a [Read] that hands over, piece by piece, what an
    invariant says is available: with enough available it fills the buffer
    with the first [want] bytes, and its fuel suffices. *)
Lemma ReadFull_loop_of_spec
    (read : nat -> Conn -> option ((bytes * option error) * Conn))
    (Inv : Conn -> bytes -> Prop) :
  (forall plen sc a, Inv sc a -> (0 < plen)%nat -> a <> [] ->
     exists d sc' a',
       read plen sc = Some ((d, None), sc') /\ d <> [] /\ (length d <= plen)%nat /\
       a = d ++ a' /\ Inv sc' a') ->
  forall (fuel want : nat) (got : bytes) (sc : Conn) (a : bytes),
    Inv sc a ->
    (want - length got <= length a)%nat -> (want - length got < fuel)%nat ->
    exists sc',
      ReadFull_loop_of read fuel want got sc
      = Some ((got ++ firstn (want - length got) a, None), sc') /\
      Inv sc' (skipn (want - length got) a).
Proof.
  intro Hread.
  induction fuel as [|f IH]; intros want got sc a Hinv Hav Hfuel; [lia|].
  cbn [ReadFull_loop_of].
  destruct (want <=? length got)%nat eqn:E.
  - apply Nat.leb_le in E. exists sc.
    replace (want - length got)%nat with 0%nat by lia. cbn. rewrite app_nil_r.
    split; [reflexivity | exact Hinv].
  - apply Nat.leb_gt in E.
    destruct (Hread (want - length got)%nat sc a Hinv ltac:(lia)) as
      (d & sc1 & a' & Hr & Hd & Hlen & Heq & Hinv1).
    { intro H0. rewrite H0 in Hav. cbn in Hav. lia. }
    rewrite Hr.
    assert (Hdl : (1 <= length d)%nat) by (destruct d; [congruence | cbn; lia]).
    assert (Hn : (want - length (got ++ d) = want - length got - length d)%nat)
      by (rewrite length_app; lia).
    destruct (IH want (got ++ d) sc1 a' Hinv1) as (sc' & Hloop & Hinv').
    + rewrite Hn. rewrite Heq, length_app in Hav. lia.
    + rewrite Hn. lia.
    + exists sc'. rewrite Hloop, Hn, Heq. split.
      * f_equal. f_equal. f_equal. rewrite <- app_assoc. f_equal.
        rewrite firstn_app, (firstn_all2 d) by lia. reflexivity.
      * rewrite skipn_app, (skipn_all2 d) by lia. cbn [app]. rewrite <- Hn. exact Hinv'.
Qed.

(** The codeword bytes [Write] lays out decode, four at a time, to the
    plaintext. *)
Lemma pieces_decode (t : Table) (decode : Decoder) (p : bytes) (pieces : list bytes) :
  table_ok t -> decoder_ok t decode -> Forall is_byte p ->
  Forall2 (written_piece t) p pieces ->
  forall rest,
    hint_bytes decode (data_of (IsASCII t) (concat pieces) ++ rest) [] =
    match hint_bytes decode rest [] with
    | Some (o, hb) => Some (p ++ o, hb)
    | None => None
    end.
Proof.
  intros Hok Hdec Hp H. induction H as [|b piece p pieces Hpiece Hrest IH]; intro rest.
  - cbn. destruct (hint_bytes decode rest []) as [[o hb]|]; reflexivity.
  - inversion Hp as [|? ? Hb Hp']; subst.
    destruct (written_piece_data t b piece Hok Hpiece)
      as (_ & pz & h0 & h1 & h2 & h3 & Hpz & Hperm & Hd).
    cbn [concat]. rewrite BoostFacts.data_of_app, Hd, <- app_assoc.
    cbn [app hint_bytes].
    change (len [h0] =? 4) with false. change (len [h0; h1] =? 4) with false.
    change (len [h0; h1; h2] =? 4) with false. change (len [h0; h1; h2; h3] =? 4) with true.
    cbv iota. cbn [nth].
    rewrite (Hdec b pz h0 h1 h2 h3 Hb Hpz Hperm).
    rewrite (IH Hp' rest).
    destruct (hint_bytes decode rest []) as [[o hb]|]; reflexivity.
Qed.

(** Successive [Write] calls without boost on a working transport: the
    codeword bytes among what they write decode to the buffers written, one
    after the other. *)
Lemma Write_all_puzzle (decode : Decoder) (ps : list bytes) :
  forall sc : Conn,
    table_ok (table sc) -> decoder_ok (table sc) decode ->
    boostWrite sc = false -> connErr sc = None ->
    Forall (Forall is_byte) ps ->
    exists W r,
      Write_all ps sc = Some (None, set_wire (wire sc ++ W) (set_rngState r sc)) /\
      hint_bytes decode (data_of (IsASCII (table sc)) W) [] = Some (concat ps, []).
Proof.
  induction ps as [|p ps IH]; intros sc Hok Hdec Hb Herr Hps.
  - exists [], (rngState sc). cbn. rewrite app_nil_r. split; [destruct sc; reflexivity | reflexivity].
  - inversion Hps as [|? ? Hp Hps']; subst. cbn [Write_all concat].
    destruct p as [|x p].
    + unfold Write. change (len [] =? 0) with true. cbv iota.
      apply (IH sc Hok Hdec Hb Herr Hps').
    + destruct (Write_puzzle_spec sc (x :: p) ltac:(discriminate) Hp Hb Hok Herr)
        as (pieces & tr & r1 & r & HW & HF & _ & T & _).
      rewrite HW.
      set (sc1 := set_wire (wire sc ++ concat pieces ++ tr) (set_rngState r sc)).
      destruct (IH sc1 Hok Hdec Hb Herr Hps') as (W2 & r2 & HW2 & Hd2).
      rewrite HW2.
      exists ((concat pieces ++ tr) ++ W2), r2. split.
      * unfold sc1. destruct sc. conn_fields. rewrite <- !app_assoc. reflexivity.
      * change (table sc1) with (table sc) in Hd2.
        rewrite !BoostFacts.data_of_app, (BoostFacts.data_of_pad _ tr Hok T), app_nil_r.
        rewrite (pieces_decode _ decode (x :: p) pieces Hok Hdec Hp HF), Hd2. reflexivity.
Qed.

(** X2.  The puzzle codec end to end.  Whatever buffers are written with
    [Write] (boost off) on a working transport, a peer over the same table
    whose transport delivers the written bytes, in any chunks, reads back
    with [io.ReadFull] exactly the buffers' bytes, in order.  This holds
    for every padding rate and every state of the generator. *)
Theorem puzzle_round_trip :
  forall (srv : Conn) (decode : Decoder) (ps : list bytes),
    table_ok (table srv) -> decoder_ok (table srv) decode ->
    boostWrite srv = false -> connErr srv = None ->
    Forall (Forall is_byte) ps ->
    exists srv' W,
      Write_all ps srv = Some (None, srv') /\
      wire srv' = wire srv ++ W /\
      forall (cli : Conn) (chunks : list bytes) (e : error),
        concat chunks = W ->
        IsASCII (table cli) = IsASCII (table srv) ->
        boostRead cli = false -> pendingData cli = [] -> hintBuf cli = [] ->
        reader cli = Bufio.NewReaderSize chunks e IOBufferSize ->
        (recording cli = true -> recorder cli <> None) ->
        exists cli',
          ReadFull_of (Read decode) (length (concat ps)) cli
          = Some ((concat ps, None), cli').
Proof.
  intros srv decode ps Hok Hdec Hb Herr Hps.
  destruct (Write_all_puzzle decode ps srv Hok Hdec Hb Herr Hps) as (W & r & HW & Hd).
  eexists _, W. split; [exact HW|]. split; [reflexivity|].
  intros cli chunks e Hchunks Hmode Hbr Hpend Hhb Hreader Hrec.
  set (Inv := fun (sc : Conn) (a : bytes) =>
                avail_puzzle decode sc = Some a /\ reader_fresh sc /\ boostRead sc = false).
  assert (Hinv : Inv cli (concat ps)).
  { unfold Inv. split; [|split; [|exact Hbr]].
    - unfold avail_puzzle. rewrite Hreader, Hpend, Hhb, Hmode.
      cbn [Bufio.src Bufio.NewReaderSize]. rewrite Hchunks, Hd. reflexivity.
    - unfold reader_fresh. rewrite Hreader. repeat split; try reflexivity. exact Hrec. }
  destruct (ReadFull_loop_of_spec (Read decode) Inv) with
    (fuel := S (length (concat ps))) (want := length (concat ps)) (got := @nil Z)
    (sc := cli) (a := concat ps) as (cli' & Hrf & _).
  - intros plen sc a (Ha & Hr & Hbr') Hplen Hne.
    destruct (Read_data decode plen sc a Hr Hbr' Hplen Ha Hne)
      as (d & sc' & a' & Hl & Hdne & Hlen & Ha' & Heq & Hr' & Hb').
    exists d, sc', a'. split; [exact Hl|]. split; [exact Hdne|]. split; [exact Hlen|].
    split; [exact Heq|]. split; [exact Ha'|]. split; [exact Hr' | exact Hb'].
  - exact Hinv.
  - cbn [length]. lia.
  - cbn [length]. lia.
  - exists cli'. unfold ReadFull_of. rewrite Hrf. cbn [app length].
    rewrite Nat.sub_0_r, firstn_all. reflexivity.
Qed.

(** *** Map misses *)

(** The loop of [Read] with nothing pending and nothing to come returns the
    transport's error. *)
Lemma Read_loop_end (decode : Decoder) (f plen : nat) (sc : Conn) :
  reader_fresh sc -> pendingData sc = [] -> Bufio.src (reader sc) = [] ->
  Read_loop decode (S f) plen sc
  = Some (([], Some (Bufio.src_err (reader sc))), set_reader (reader sc) sc).
Proof.
  intros (Hb & He & Hs & _) Hpend Hsrc. cbn [Read_loop]. rewrite Hpend.
  rewrite (Bufio_Read_fresh' _ Hb He Hs), Hsrc. reflexivity.
Qed.

(** X3.  A map miss.  When the codeword bytes of the chunk [Read] takes
    from the transport do not all decode, [Read] returns no data and the
    error INVALID_SUDOKU_MAP_MISS, and leaves the four hints that missed in
    the accumulator. *)
Theorem Read_map_miss :
  forall (decode : Decoder) (plen : nat) (sc : Conn) (c : bytes) (rest : list bytes),
    reader_fresh sc -> boostRead sc = false -> pendingData sc = [] ->
    Bufio.src (reader sc) = c :: rest ->
    hint_bytes decode (data_of (IsASCII (table sc)) c) (hintBuf sc) = None ->
    exists sc',
      Read decode plen sc = Some (([], Some ErrMapMiss), sc') /\
      length (hintBuf sc') = 4%nat /\
      reader_fresh sc' /\ boostRead sc' = false /\
      Bufio.src (reader sc') = rest.
Proof.
  intros decode plen sc c rest Hready Hbr Hpend Hsrc Hmiss.
  unfold Read. rewrite Hbr, Hpend.
  rewrite (Read_loop_step decode _ plen sc c rest Hready Hpend Hsrc). cbv zeta.
  match goal with |- context [hint_chunk decode c ?s] =>
    pose proof (hint_chunk_spec decode c s) as Hc; set (sc2 := s) in * end.
  change (table sc2) with (table sc) in Hc. change (hintBuf sc2) with (hintBuf sc) in Hc.
  rewrite Hmiss in Hc. destruct Hc as (pd & hb & Hc & Hl). rewrite Hc.
  eexists. split; [reflexivity|].
  destruct Hready as (Hb & He & Hs & Hrec).
  unfold sc2, reader_fresh, recorded. destruct sc. conn_fields_all.
  unfold Bufio.set_src. cbn [Bufio.buf Bufio.err Bufio.size Bufio.src].
  repeat split; try assumption.
  intro Hr. rewrite Hr. discriminate.
Qed.

(** With four hints or more in the accumulator nothing decodes: the hints
    only pile up. *)
Lemma hint_bytes_full (decode : Decoder) (data : bytes) :
  forall hb, (4 <= length hb)%nat -> hint_bytes decode data hb = Some ([], hb ++ data).
Proof.
  induction data as [|b data IH]; intros hb Hl; cbn [hint_bytes].
  - rewrite app_nil_r. reflexivity.
  - replace (len (hb ++ [b]) =? 4) with false.
    + rewrite IH by (rewrite length_app; simpl; lia). rewrite <- app_assoc. reflexivity.
    + symmetry. apply Z.eqb_neq. unfold len. rewrite length_app. simpl. lia.
Qed.

Lemma Read_loop_wedged (decode : Decoder) (chunks : list bytes) :
  forall (fuel plen : nat) (sc : Conn),
    reader_fresh sc -> pendingData sc = [] -> (4 <= length (hintBuf sc))%nat ->
    Bufio.src (reader sc) = chunks -> (length chunks < fuel)%nat ->
    exists sc',
      Read_loop decode fuel plen sc = Some (([], Some (Bufio.src_err (reader sc))), sc') /\
      hintBuf sc' = hintBuf sc ++ data_of (IsASCII (table sc)) (concat chunks) /\
      pendingData sc' = [] /\ Bufio.src (reader sc') = [].
Proof.
  induction chunks as [|c rest IH]; intros fuel plen sc Hready Hpend Hfull Hsrc Hfuel.
  - destruct fuel as [|f]; [cbn in Hfuel; lia|].
    rewrite (Read_loop_end decode f plen sc Hready Hpend Hsrc).
    eexists. split; [reflexivity|]. cbn [concat]. unfold data_of. cbn [filter].
    rewrite app_nil_r. repeat split; assumption.
  - destruct fuel as [|f]; [cbn in Hfuel; lia|].
    rewrite (Read_loop_step decode f plen sc c rest Hready Hpend Hsrc). cbv zeta.
    match goal with |- context [hint_chunk decode c ?s] =>
      pose proof (hint_chunk_spec decode c s) as Hc; set (sc2 := s) in * end.
    change (table sc2) with (table sc) in Hc. change (hintBuf sc2) with (hintBuf sc) in Hc.
    rewrite (hint_bytes_full decode _ _ Hfull) in Hc. rewrite Hc. clear Hc.
    set (sc3 := set_hintBuf _ _).
    assert (Hp3 : pendingData sc3 = []).
    { unfold sc3, sc2. destruct sc. conn_fields_all. rewrite Hpend. reflexivity. }
    assert (Hh3 : hintBuf sc3 = hintBuf sc ++ data_of (IsASCII (table sc)) c).
    { unfold sc3, sc2. destruct sc. reflexivity. }
    assert (Hready3 : reader_fresh sc3).
    { destruct Hready as (Hb & He & Hs & Hrec).
      unfold sc3, sc2, reader_fresh, recorded. destruct sc. conn_fields_all.
      unfold Bufio.set_src. cbn [Bufio.buf Bufio.err Bufio.size].
      repeat split; try assumption.
      intro Hr. rewrite Hr. discriminate. }
    assert (Hsrc3 : Bufio.src (reader sc3) = rest).
    { unfold sc3, sc2. destruct sc. reflexivity. }
    assert (Herr3 : Bufio.src_err (reader sc3) = Bufio.src_err (reader sc)).
    { unfold sc3, sc2. destruct sc. reflexivity. }
    rewrite Hp3.
    destruct (IH f plen sc3 Hready3 Hp3 ltac:(rewrite Hh3, length_app; lia) Hsrc3
                ltac:(cbn in Hfuel; lia)) as (sc' & Hl & Hh' & Hp' & Hs').
    exists sc'. rewrite Hl, Herr3. split; [reflexivity|].
    split; [|split; assumption].
    rewrite Hh', Hh3. change (table sc3) with (table sc).
    cbn [concat]. rewrite BoostFacts.data_of_app, app_assoc. reflexivity.
Qed.

(** X4.  After a map miss the codec does not recover.  With four hints (or
    more) left in the accumulator and nothing pending, [Read] decodes
    nothing of whatever the transport still delivers: it takes it all, adds
    its codeword bytes to the accumulator, and returns the transport's
    error. *)
Theorem Read_after_map_miss :
  forall (decode : Decoder) (plen : nat) (sc : Conn),
    reader_fresh sc -> boostRead sc = false -> pendingData sc = [] ->
    (4 <= length (hintBuf sc))%nat ->
    exists sc',
      Read decode plen sc = Some (([], Some (Bufio.src_err (reader sc))), sc') /\
      hintBuf sc'
      = hintBuf sc ++ data_of (IsASCII (table sc)) (concat (Bufio.src (reader sc))) /\
      pendingData sc' = [] /\ Bufio.src (reader sc') = [].
Proof.
  intros decode plen sc Hready Hbr Hpend Hfull. unfold Read. rewrite Hbr, Hpend.
  apply (Read_loop_wedged decode (Bufio.src (reader sc))); try assumption; try reflexivity.
  lia.
Qed.

(** *** Recording *)

Lemma hint_chunk_frame (decode : Decoder) (c : bytes) (sc : Conn) :
  reader (snd (hint_chunk decode c sc)) = reader sc /\
  recorder (snd (hint_chunk decode c sc)) = recorder sc /\
  recording (snd (hint_chunk decode c sc)) = recording sc /\
  boostRead (snd (hint_chunk decode c sc)) = boostRead sc.
Proof.
  pose proof (hint_chunk_spec decode c sc) as H.
  destruct (hint_bytes decode _ (hintBuf sc)) as [[out hb']|].
  - rewrite H. destruct sc. repeat split; reflexivity.
  - destruct H as (pd & hb & -> & _). destruct sc. repeat split; reflexivity.
Qed.

Lemma dec_drain_frame (n : nat) :
  forall sc : Conn,
    reader (snd (dec_drain n sc)) = reader sc /\
    recorder (snd (dec_drain n sc)) = recorder sc /\
    recording (snd (dec_drain n sc)) = recording sc /\
    boostRead (snd (dec_drain n sc)) = boostRead sc.
Proof.
  induction n as [|n IH]; intro sc; cbn [dec_drain].
  - repeat split; reflexivity.
  - destruct (8 <=? decBits sc); [|repeat split; reflexivity].
    destruct sc as [w ce tb rd rc rg pd hb rs pr bw br ba be bd eb ek db dk].
    conn_fields. destruct bd as [st|]; [|repeat split; reflexivity].
    unfold XORKeyStream. cbv iota beta.
    match goal with |- context [dec_drain n ?s] => specialize (IH s) end.
    revert IH. conn_fields. tauto.
Qed.

Lemma dec_chunk_frame (c : bytes) :
  forall sc : Conn,
    reader (snd (dec_chunk c sc)) = reader sc /\
    recorder (snd (dec_chunk c sc)) = recorder sc /\
    recording (snd (dec_chunk c sc)) = recording sc /\
    boostRead (snd (dec_chunk c sc)) = boostRead sc.
Proof.
  induction c as [|b c IH]; intro sc; cbn [dec_chunk].
  - repeat split; reflexivity.
  - destruct (isPadding (boostASCII sc) b); [apply IH|].
    match goal with |- context [dec_drain ?n ?s] =>
      pose proof (dec_drain_frame n s) as Hd; destruct (dec_drain n s) as [[e|] sc1] end;
      cbn [fst snd] in *.
    + destruct sc. exact Hd.
    + specialize (IH sc1). destruct sc.
      destruct Hd as (-> & -> & -> & ->) in IH. exact IH.
Qed.

Lemma readBoost_loop_step_any (f plen : nat) (sc : Conn) (c : bytes) (rest : list bytes) :
  reader_fresh sc -> pendingData sc = [] -> Bufio.src (reader sc) = c :: rest ->
  readBoost_loop (S f) plen sc
  = match dec_chunk c
            (set_recorder (if recording sc then Some (recorded sc ++ c) else recorder sc)
               (set_reader (Bufio.set_src rest (reader sc)) sc)) with
    | (Some e, sc3) => Some (([], Some e), sc3)
    | (None, sc3) =>
      match pendingData sc3 with
      | _ :: _ => Some (deliver plen sc3)
      | [] => readBoost_loop f plen sc3
      end
    end.
Proof.
  intros Hready Hpend Hsrc.
  pose proof (take_chunk sc c rest Hready) as Hrec. cbv zeta in Hrec.
  destruct Hready as (Hb & He & Hs & _).
  cbn [readBoost_loop]. rewrite Hpend.
  rewrite (Bufio_Read_fresh' _ Hb He Hs), Hsrc.
  destruct c as [|x c].
  - injection Hrec as Hrec. cbn [dec_chunk]. rewrite <- Hrec. reflexivity.
  - rewrite Hrec. destruct (dec_chunk (x :: c) _) as [[e|] sc3]; reflexivity.
Qed.

Lemma readBoost_loop_end (f plen : nat) (sc : Conn) :
  reader_fresh sc -> pendingData sc = [] -> Bufio.src (reader sc) = [] ->
  readBoost_loop (S f) plen sc
  = Some (([], Some (Bufio.src_err (reader sc))), set_reader (reader sc) sc).
Proof.
  intros (Hb & He & Hs & _) Hpend Hsrc. cbn [readBoost_loop]. rewrite Hpend.
  rewrite (Bufio_Read_fresh' _ Hb He Hs), Hsrc. reflexivity.
Qed.

Section Loop.

(** Either read loop, with its way of decoding a chunk. *)
Variable loop : nat -> nat -> Conn -> option ((bytes * option error) * Conn).
Variable process : bytes -> Conn -> option error * Conn.

Hypothesis loop_step :
  forall (f plen : nat) (sc : Conn) (c : bytes) (rest : list bytes),
    reader_fresh sc -> pendingData sc = [] -> Bufio.src (reader sc) = c :: rest ->
    loop (S f) plen sc
    = match process c
              (set_recorder (if recording sc then Some (recorded sc ++ c) else recorder sc)
                 (set_reader (Bufio.set_src rest (reader sc)) sc)) with
      | (Some e, sc3) => Some (([], Some e), sc3)
      | (None, sc3) =>
        match pendingData sc3 with
        | _ :: _ => Some (deliver plen sc3)
        | [] => loop f plen sc3
        end
      end.

Hypothesis loop_end :
  forall (f plen : nat) (sc : Conn),
    reader_fresh sc -> pendingData sc = [] -> Bufio.src (reader sc) = [] ->
    loop (S f) plen sc
    = Some (([], Some (Bufio.src_err (reader sc))), set_reader (reader sc) sc).

Hypothesis process_frame :
  forall (c : bytes) (sc : Conn),
    reader (snd (process c sc)) = reader sc /\
    recorder (snd (process c sc)) = recorder sc /\
    recording (snd (process c sc)) = recording sc /\
    boostRead (snd (process c sc)) = boostRead sc.

(** The loop always returns, and what it took from the transport it
    recorded, when recording. *)
Lemma loop_records (chunks : list bytes) :
  forall (fuel plen : nat) (sc : Conn),
    reader_fresh sc -> pendingData sc = [] -> Bufio.src (reader sc) = chunks ->
    (length chunks < fuel)%nat ->
    exists res sc',
      loop fuel plen sc = Some (res, sc') /\
      reader_fresh sc' /\ recording sc' = recording sc /\ boostRead sc' = boostRead sc /\
      if recording sc
      then recorded sc' ++ concat (Bufio.src (reader sc')) = recorded sc ++ concat chunks
      else recorder sc' = recorder sc.
Proof.
  induction chunks as [|c rest IH]; intros fuel plen sc Hready Hpend Hsrc Hfuel.
  - destruct fuel as [|f]; [cbn in Hfuel; lia|].
    rewrite (loop_end f plen sc Hready Hpend Hsrc).
    eexists _, _. split; [reflexivity|].
    split. { destruct sc. exact Hready. }
    split; [reflexivity|]. split; [reflexivity|].
    destruct (recording sc); [|reflexivity].
    change (reader (set_reader (reader sc) sc)) with (reader sc). rewrite Hsrc.
    destruct sc; reflexivity.
  - destruct fuel as [|f]; [cbn in Hfuel; lia|].
    rewrite (loop_step f plen sc c rest Hready Hpend Hsrc).
    set (sc2 := set_recorder _ _).
    destruct (process_frame c sc2) as (Hrd & Hrc & Hrg & Hbr).
    destruct (process c sc2) as [oe sc3]. cbn [snd] in *.
    assert (Hready3 : reader_fresh sc3).
    { destruct Hready as (Hb & He & Hs & Hrec).
      unfold reader_fresh. rewrite Hrd, Hrc, Hrg.
      unfold sc2. destruct sc. unfold recorded. conn_fields_all.
      unfold Bufio.set_src. cbn [Bufio.buf Bufio.err Bufio.size].
      repeat split; try assumption.
      intro Hr. rewrite Hr. discriminate. }
    assert (Hsrc3 : Bufio.src (reader sc3) = rest).
    { rewrite Hrd. unfold sc2. destruct sc. reflexivity. }
    assert (Hrg3 : recording sc3 = recording sc).
    { rewrite Hrg. unfold sc2. destruct sc. reflexivity. }
    assert (Hbr3 : boostRead sc3 = boostRead sc).
    { rewrite Hbr. unfold sc2. destruct sc. reflexivity. }
    assert (Hrec3 : if recording sc
                    then recorded sc3 ++ concat rest = recorded sc ++ concat (c :: rest)
                    else recorder sc3 = recorder sc).
    { unfold recorded at 1. rewrite Hrc. unfold sc2. destruct sc. unfold recorded.
      conn_fields_all. destruct recording0; [|reflexivity].
      cbn [concat]. rewrite app_assoc. reflexivity. }
    assert (Hdeliver : forall k, exists res sc',
               Some (deliver k sc3) = Some (res, sc') /\
               reader_fresh sc' /\ recording sc' = recording sc /\
               boostRead sc' = boostRead sc /\
               if recording sc
               then recorded sc' ++ concat (Bufio.src (reader sc'))
                    = recorded sc ++ concat (c :: rest)
               else recorder sc' = recorder sc).
    { intro k. unfold deliver. eexists _, _. split; [reflexivity|].
      split. { destruct sc3. exact Hready3. }
      split. { rewrite <- Hrg3. destruct sc3. reflexivity. }
      split. { rewrite <- Hbr3. destruct sc3. reflexivity. }
      change (reader (set_pendingData _ sc3)) with (reader sc3).
      change (recorder (set_pendingData _ sc3)) with (recorder sc3).
      replace (recorded (set_pendingData (skipn k (pendingData sc3)) sc3))
        with (recorded sc3) by (destruct sc3; reflexivity).
      rewrite Hsrc3. exact Hrec3. }
    destruct oe as [e|].
    + eexists _, sc3. split; [reflexivity|]. split; [exact Hready3|].
      split; [exact Hrg3|]. split; [exact Hbr3|]. rewrite Hsrc3. exact Hrec3.
    + destruct (pendingData sc3) as [|x pd] eqn:Ep3; [|apply Hdeliver].
      destruct (IH f plen sc3 Hready3 Ep3 Hsrc3 ltac:(cbn in Hfuel; lia))
        as (res & sc' & Hl & Hr' & Hg' & Hb' & Hrec').
      exists res, sc'. split; [exact Hl|]. split; [exact Hr'|].
      split; [congruence|]. split; [congruence|].
      rewrite Hrg3 in Hrec'. destruct (recording sc); congruence.
Qed.

End Loop.

(** [Read] always returns, keeps the read side as it was and records what
    it takes from the transport. *)
Lemma Read_total :
  forall (decode : Decoder) (plen : nat) (sc : Conn),
    reader_fresh sc ->
    exists res sc',
      Read decode plen sc = Some (res, sc') /\
      reader_fresh sc' /\ recording sc' = recording sc /\ boostRead sc' = boostRead sc /\
      GetBufferedAndRecorded (Some sc') = recorded sc' /\
      if recording sc
      then recorded sc' ++ concat (Bufio.src (reader sc'))
           = recorded sc ++ concat (Bufio.src (reader sc))
      else recorder sc' = recorder sc.
Proof.
  intros decode plen sc Hready.
  assert (Hget : forall s, reader_fresh s -> GetBufferedAndRecorded (Some s) = recorded s).
  { intros s (Hb & _). unfold GetBufferedAndRecorded, Bufio.Buffered, recorded.
    rewrite Hb. reflexivity. }
  assert (Hfinish : forall r : option ((bytes * option error) * Conn),
    (exists res sc',
       r = Some (res, sc') /\ reader_fresh sc' /\ recording sc' = recording sc /\
       boostRead sc' = boostRead sc /\
       if recording sc
       then recorded sc' ++ concat (Bufio.src (reader sc'))
            = recorded sc ++ concat (Bufio.src (reader sc))
       else recorder sc' = recorder sc) ->
    exists res sc',
      r = Some (res, sc') /\ reader_fresh sc' /\ recording sc' = recording sc /\
      boostRead sc' = boostRead sc /\
      GetBufferedAndRecorded (Some sc') = recorded sc' /\
      if recording sc
      then recorded sc' ++ concat (Bufio.src (reader sc'))
           = recorded sc ++ concat (Bufio.src (reader sc))
      else recorder sc' = recorder sc).
  { intros r (res & sc' & Hr & Hf & Hg & Hb & Hrec). exists res, sc'.
    split; [exact Hr|]. split; [exact Hf|]. split; [exact Hg|]. split; [exact Hb|].
    split; [apply Hget; exact Hf | exact Hrec]. }
  assert (Hdeliver : exists res sc',
             Some (deliver plen sc) = Some (res, sc') /\
             reader_fresh sc' /\ recording sc' = recording sc /\
             boostRead sc' = boostRead sc /\
             if recording sc
             then recorded sc' ++ concat (Bufio.src (reader sc'))
                  = recorded sc ++ concat (Bufio.src (reader sc))
             else recorder sc' = recorder sc).
  { unfold deliver. eexists _, _. split; [reflexivity|].
    split. { destruct sc. exact Hready. }
    split. { destruct sc. reflexivity. }
    split. { destruct sc. reflexivity. }
    destruct sc. destruct recording0; reflexivity. }
  apply Hfinish. unfold Read, readBoost.
  destruct (boostRead sc) eqn:Ebr;
    (destruct (pendingData sc) as [|x pd] eqn:Ep; [|exact Hdeliver]).
  - rewrite <- Ebr.
    apply (loop_records readBoost_loop dec_chunk readBoost_loop_step_any readBoost_loop_end
             dec_chunk_frame (Bufio.src (reader sc))); try assumption; try reflexivity. lia.
  - rewrite <- Ebr.
    apply (loop_records (Read_loop decode) (hint_chunk decode) (Read_loop_step decode)
             (Read_loop_end decode) (hint_chunk_frame decode) (Bufio.src (reader sc)));
      try assumption; try reflexivity. lia.
Qed.

(** X5.  [Read], in either mode, on a connection whose read buffer is as
    [NewConn] made it: it always returns; it leaves the read buffer empty
    and the mode as it was; and while recording, what was recorded together
    with what the transport has not delivered yet stays the same stream, so
    that [GetBufferedAndRecorded] is exactly what was recorded before
    followed by what this call took from the transport. *)
Theorem Read_records_what_it_takes :
  forall (decode : Decoder) (plen : nat) (sc : Conn),
    reader_fresh sc ->
    exists res sc',
      Read decode plen sc = Some (res, sc') /\
      reader_fresh sc' /\ recording sc' = recording sc /\ boostRead sc' = boostRead sc /\
      GetBufferedAndRecorded (Some sc') = recorded sc' /\
      if recording sc
      then recorded sc' ++ concat (Bufio.src (reader sc'))
           = recorded sc ++ concat (Bufio.src (reader sc))
      else recorder sc' = recorder sc.
Proof. exact Read_total. Qed.

End WithLibraries.

Lemma Write_size_witness :
  exists out sc',
    Write (C := Mock.crypto) (R := Mock.rand) [0x41; 0x42] Mock.conn
    = Some ((len [0x41; 0x42], None), sc') /\
    wire sc' = wire Mock.conn ++ out /\
    len (data_of (IsASCII (table Mock.conn)) out) = 4 * len [0x41; 0x42] /\
    4 * len [0x41; 0x42] <= len out <= 9 * len [0x41; 0x42] + 1 /\
    ((paddingRate Mock.conn <= 0)%Q -> len out = 4 * len [0x41; 0x42]).
Proof.
  apply (Write_size (C := Mock.crypto) (R := Mock.rand) (L := MockFacts.rand_laws)
           Mock.conn [0x41; 0x42]).
  - discriminate.
  - repeat constructor; unfold is_byte; lia.
  - reflexivity.
  - exact WriteFacts.mock_table_ok.
  - reflexivity.
Defined.

Lemma fold_right_perm (f : Z -> Z -> Z) (a : Z) (l l' : list Z) :
  (forall x y z, f x (f y z) = f y (f x z)) ->
  Permutation l l' -> fold_right f a l = fold_right f a l'.
Proof.
  intros Hf H. induction H as [|x l l' H IH|x y l|l l' l'' H1 IH1 H2 IH2]; cbn [fold_right].
  - reflexivity.
  - rewrite IH. reflexivity.
  - apply Hf.
  - congruence.
Qed.

Lemma mock_decoder_ok : decoder_ok Mock.table Mock.decode.
Proof.
  intros b pz h0 h1 h2 h3 Hb Hpz Hperm. unfold Mock.decode.
  rewrite (fold_right_perm Z.max 0 _ _ ltac:(intros; lia) Hperm).
  rewrite (fold_right_perm Z.min 255 _ _ ltac:(intros; lia) Hperm).
  rewrite (fold_right_perm Z.add 0 _ _ ltac:(intros; lia) Hperm).
  unfold is_byte in Hb.
  assert (Hlo : 0 <= b mod 16 < 16) by (apply Z.mod_pos_bound; lia).
  assert (Hhi : b / 16 mod 16 = b / 16).
  { apply Z.mod_small. split; [apply Z.div_pos; lia | apply Z.div_lt_upper_bound; lia]. }
  assert (Hhi' : 0 <= b / 16 < 16).
  { split; [apply Z.div_pos; lia | apply Z.div_lt_upper_bound; lia]. }
  pose proof (Z.div_mod b 16 ltac:(lia)) as Hdm.
  cbn [Mock.table EncodeTable In] in Hpz. rewrite Hhi in Hpz.
  destruct Hpz as [<-|[<-|[]]]; cbn [hints_of fold_right].
  - replace (Z.max (64 + b mod 16) (Z.max (80 + b / 16) (Z.max 96 (Z.max 112 0)))) with 112 by lia.
    change (112 =? 112) with true. cbv iota. f_equal. lia.
  - replace (Z.max (65 + b mod 16) (Z.max (81 + b / 16) (Z.max 97 (Z.max 113 0)))) with 113 by lia.
    change (113 =? 112) with false. change (113 =? 113) with true. cbv iota. f_equal. lia.
Qed.

Lemma puzzle_round_trip_witness :
  exists srv' W,
    Write_all (C := Mock.crypto) [[0x41; 0x42]; []; [0x43]] Mock.conn = Some (None, srv') /\
    wire srv' = wire Mock.conn ++ W /\
    forall (cli : Conn (R := Mock.rand)) (chunks : list bytes) (e : error),
      concat chunks = W ->
      IsASCII (table cli) = IsASCII (table Mock.conn) ->
      boostRead cli = false -> pendingData cli = [] -> hintBuf cli = [] ->
      reader cli = Bufio.NewReaderSize chunks e IOBufferSize ->
      (recording cli = true -> recorder cli <> None) ->
      exists cli',
        ReadFull_of (Read (C := Mock.crypto) Mock.decode)
          (length (concat [[0x41; 0x42]; []; [0x43]])) cli
        = Some ((concat [[0x41; 0x42]; []; [0x43]], None), cli').
Proof.
  apply (puzzle_round_trip (C := Mock.crypto) (R := Mock.rand) (L := MockFacts.rand_laws)
           Mock.conn Mock.decode [[0x41; 0x42]; []; [0x43]]).
  - exact WriteFacts.mock_table_ok.
  - exact mock_decoder_ok.
  - reflexivity.
  - reflexivity.
  - repeat constructor; unfold is_byte; lia.
Defined.

Lemma Read_map_miss_witness :
  exists sc',
    Read (C := Mock.crypto) (R := Mock.rand) Mock.decode 8
      (NewConn (R := Mock.rand) [[0x41; 0x42; 0x43; 0x44]; [0x45]] EOF None Mock.table 0 0 false [])
    = Some (([], Some ErrMapMiss), sc') /\
    length (hintBuf sc') = 4%nat /\
    reader_fresh sc' /\ boostRead sc' = false /\
    Bufio.src (reader sc') = [[0x45]].
Proof.
  apply (Read_map_miss (C := Mock.crypto) (R := Mock.rand) Mock.decode 8
           (NewConn (R := Mock.rand) [[0x41; 0x42; 0x43; 0x44]; [0x45]] EOF None Mock.table 0 0 false [])
           [0x41; 0x42; 0x43; 0x44] [[0x45]]).
  - repeat split; try reflexivity. discriminate.
  - reflexivity.
  - reflexivity.
  - reflexivity.
  - reflexivity.
Defined.

Lemma Read_after_map_miss_witness :
  exists sc',
    Read (C := Mock.crypto) (R := Mock.rand) Mock.decode 8
      (set_hintBuf [0x41; 0x42; 0x43; 0x44]
         (NewConn (R := Mock.rand) [[0x45; 0x20]; [0x46]] EOF None Mock.table 0 0 false []))
    = Some (([], Some EOF), sc') /\
    hintBuf sc' = [0x41; 0x42; 0x43; 0x44] ++ [0x45; 0x46] /\
    pendingData sc' = [] /\ Bufio.src (reader sc') = [].
Proof.
  apply (Read_after_map_miss (C := Mock.crypto) (R := Mock.rand) Mock.decode 8
           (set_hintBuf [0x41; 0x42; 0x43; 0x44]
              (NewConn (R := Mock.rand) [[0x45; 0x20]; [0x46]] EOF None Mock.table 0 0 false []))).
  - repeat split; try reflexivity. discriminate.
  - reflexivity.
  - reflexivity.
  - cbn. lia.
Defined.

Lemma Read_records_what_it_takes_witness :
  exists res sc',
    Read (C := Mock.crypto) (R := Mock.rand) Mock.decode 8 Mock.recording_conn
    = Some (res, sc') /\
    reader_fresh sc' /\ recording sc' = recording Mock.recording_conn /\
    boostRead sc' = boostRead Mock.recording_conn /\
    GetBufferedAndRecorded (Some sc') = recorded sc' /\
    if recording Mock.recording_conn
    then recorded sc' ++ concat (Bufio.src (reader sc'))
         = recorded Mock.recording_conn ++ concat (Bufio.src (reader Mock.recording_conn))
    else recorder sc' = recorder Mock.recording_conn.
Proof.
  apply (Read_records_what_it_takes (C := Mock.crypto) (R := Mock.rand) Mock.decode 8
           Mock.recording_conn).
  repeat split; try reflexivity. discriminate.
Defined.

End PuzzleFacts.

(* ------------------------------------------------------------------ *)
(** ** Boost streams through the public calls *)

Module StreamFacts.
Import Sudoku.

Lemma enc_bits_app (a b : bytes) (st : Z * Z) :
  enc_bits (a ++ b) st =
  (fst (enc_bits a st) ++ fst (enc_bits b (snd (enc_bits a st))),
   snd (enc_bits b (snd (enc_bits a st)))).
Proof.
  revert st. induction a as [|x a IH]; intro st; cbn [app enc_bits].
  - cbn [fst snd app]. destruct (enc_bits b st); reflexivity.
  - destruct (enc_byte_bits st x) as [o1 st1]. rewrite IH.
    destruct (enc_bits a st1) as [o2 st2]. cbn [fst snd].
    destruct (enc_bits b st2) as [o3 st3]. cbn [fst snd].
    rewrite app_assoc. reflexivity.
Qed.

(** The encoder's inner loop cuts one chunk per six bits it holds. *)
Lemma enc_drain_bits_count (n : nat) :
  forall buf bits : Z,
    0 <= bits -> bits / 6 <= Z.of_nat n ->
    len_list (fst (enc_drain_bits n buf bits)) = bits / 6 /\
    snd (snd (enc_drain_bits n buf bits)) = bits mod 6.
Proof.
  unfold len_list.
  induction n as [|n IH]; intros buf bits H0 Hn; cbn [enc_drain_bits].
  - cbn [fst snd length]. split.
    + change (Z.of_nat 0) with 0 in *. pose proof (Z.div_pos bits 6 H0 ltac:(lia)). lia.
    + symmetry. apply Z.mod_small. change (Z.of_nat 0) with 0 in Hn.
      pose proof (Z.div_pos bits 6 H0 ltac:(lia)).
      assert (bits / 6 = 0) by lia.
      apply Z.div_small_iff in H1; lia.
  - destruct (6 <=? bits) eqn:E.
    + apply Z.leb_le in E.
      assert (Hd : (bits - 6) / 6 = bits / 6 - 1).
      { replace bits with ((bits - 6) + 1 * 6) at 2 by lia.
        rewrite Z.div_add by lia. lia. }
      assert (Hm : (bits - 6) mod 6 = bits mod 6).
      { replace bits with ((bits - 6) + 1 * 6) at 2 by lia.
        rewrite Z.mod_add by lia. reflexivity. }
      destruct (IH (if bits - 6 =? 0 then 0 else Z.land buf (bits_mask (bits - 6))) (bits - 6))
        as [IH1 IH2]; [lia | lia |].
      destruct (enc_drain_bits n _ (bits - 6)) as [cs st]. cbn [fst snd length] in *.
      split; [lia | congruence].
    + apply Z.leb_gt in E. cbn [fst snd length].
      rewrite Z.div_small, Z.mod_small by lia. split; reflexivity.
Qed.

(** The encoder cuts one chunk per six bits of its input, and keeps fewer
    than six. *)
Lemma enc_bits_count (bs : bytes) :
  forall buf k : Z,
    0 <= k < 6 ->
    len_list (fst (enc_bits bs (buf, k))) = (k + 8 * len bs) / 6 /\
    snd (snd (enc_bits bs (buf, k))) = (k + 8 * len bs) mod 6.
Proof.
  unfold len_list, len.
  induction bs as [|b bs IH]; intros buf k Hk.
  - cbn [enc_bits fst snd length]. change (Z.of_nat 0) with 0.
    rewrite Z.mul_0_r, Z.add_0_r, Z.div_small, Z.mod_small by lia. split; reflexivity.
  - cbn [enc_bits enc_byte_bits].
    destruct (enc_drain_bits_count (Z.to_nat (k + 8)) (Z.lor (to_uint64 (Z.shiftl buf 8)) b)
                (k + 8)) as [D1 D2]; [lia | |].
    { rewrite Z2Nat.id by lia.
      pose proof (Z.div_le_upper_bound (k + 8) 6 (k + 8)). lia. }
    unfold len_list in D1.
    destruct (enc_drain_bits _ _ (k + 8)) as [cs1 [e1 k1]]. cbn [fst snd] in *.
    assert (Hk1 : 0 <= k1 < 6) by (subst k1; apply Z.mod_pos_bound; lia).
    destruct (IH e1 k1 Hk1) as [I1 I2].
    destruct (enc_bits bs (e1, k1)) as [cs2 [e2 k2]]. cbn [fst snd] in *.
    rewrite length_app, Nat2Z.inj_add, D1, I1, I2.
    cbn [length]. rewrite Nat2Z.inj_succ.
    subst k1.
    replace (k + 8 * Z.succ (Z.of_nat (length bs))) with ((k + 8) + 8 * Z.of_nat (length bs)) by lia.
    set (m := 8 * Z.of_nat (length bs)).
    clearbody m. clear. split; Z.div_mod_to_equations; lia.
Qed.

Section WithLibraries.
Context {C : Crypto} {R : Rand} {LC : CryptoLaws C} {LR : RandLaws R}.

(** A padding coin adds at most one byte, and none at a rate of zero. *)
Lemma maybe_pad_sized (out : bytes) (sc : Conn) :
  PaddingPool (table sc) <> [] ->
  exists pad r,
    maybe_pad out sc = Some (out ++ pad, set_rngState r sc) /\
    (length pad <= 1)%nat /\ ((paddingRate sc <= 0)%Q -> pad = []).
Proof.
  intro Hne. destruct (WriteFacts.maybe_pad_drawn out sc Hne) as (pad & r & M & P & D).
  exists pad, r. split; [exact M|]. split.
  - apply (PuzzleFacts.opt_pad_length _ _ P).
  - intro Hrate. apply (PuzzleFacts.pad_drawn_zero _ _ _ _ _ Hrate D).
Qed.

(** What the encoder's inner loop appends: a chunk's byte, and at most one
    padding byte before it. *)
Lemma enc_drain_out (n : nat) :
  forall (out : bytes) (sc : Conn) (out' : bytes) (sc' : Conn),
    PaddingPool (table sc) <> [] ->
    enc_drain n out sc = Some (out', sc') ->
    exists W,
      out' = out ++ W /\
      (length W <= 2 * length (fst (enc_drain_bits n (encBitBuf sc) (encBits sc))))%nat /\
      ((paddingRate sc <= 0)%Q ->
       length W = length (fst (enc_drain_bits n (encBitBuf sc) (encBits sc)))).
Proof.
  induction n as [|n IH]; intros out sc out' sc' Hne H.
  - cbn in H. injection H as <- <-. exists []. rewrite app_nil_r. cbn.
    split; [reflexivity|]. split; [lia | reflexivity].
  - cbn [enc_drain enc_drain_bits] in *.
    destruct (6 <=? encBits sc) eqn:E.
    + set (bits := encBits sc - 6) in *.
      destruct (maybe_pad_sized out (set_enc (encBitBuf sc) bits sc) Hne)
        as (pad & r & M & P & Z0).
      rewrite M in H.
      apply IH in H; [|exact Hne].
      destruct H as (W & -> & Hlen & Hzero).
      change (encBitBuf (set_rngState r (set_enc (encBitBuf sc) bits sc)))
        with (encBitBuf sc) in *.
      fold (bits_mask bits) in *.
      set (buf' := if bits =? 0 then 0 else Z.land (encBitBuf sc) (bits_mask bits)) in *.
      change (encBitBuf (set_enc buf' bits (set_rngState r (set_enc (encBitBuf sc) bits sc))))
        with buf' in *.
      change (encBits (set_enc buf' bits (set_rngState r (set_enc (encBitBuf sc) bits sc))))
        with bits in *.
      change (paddingRate (set_enc buf' bits (set_rngState r (set_enc (encBitBuf sc) bits sc))))
        with (paddingRate sc) in *.
      change (paddingRate (set_enc (encBitBuf sc) bits sc)) with (paddingRate sc) in *.
      destruct (enc_drain_bits n buf' bits) as [cs st]. cbn [fst snd length] in *.
      eexists (pad ++ _ :: W). split; [repeat rewrite <- app_assoc; reflexivity|].
      rewrite length_app. cbn [length]. split.
      * lia.
      * intro Hrate. rewrite (Z0 Hrate), (Hzero Hrate). reflexivity.
    + injection H as <- <-. exists []. rewrite app_nil_r. cbn.
      split; [reflexivity|]. split; [lia | reflexivity].
Qed.

(** The encoder's loop over the bytes: its state afterwards, the chunks in
    what it appends, and how much it appends. *)
Lemma enc_bytes_sized (bs : bytes) :
  forall (out : bytes) (sc : Conn),
    table_ok (table sc) -> boostASCII sc = IsASCII (table sc) ->
    exists W r,
      enc_bytes bs out sc
      = Some (out ++ W,
              set_enc (fst (snd (enc_bits bs (encBitBuf sc, encBits sc))))
                      (snd (snd (enc_bits bs (encBitBuf sc, encBits sc))))
                      (set_rngState r sc)) /\
      data_of (boostASCII sc) W
      = map (packBoostByte sc) (fst (enc_bits bs (encBitBuf sc, encBits sc))) /\
      (length W <= 2 * length (fst (enc_bits bs (encBitBuf sc, encBits sc))))%nat /\
      ((paddingRate sc <= 0)%Q ->
       length W = length (fst (enc_bits bs (encBitBuf sc, encBits sc)))).
Proof.
  induction bs as [|b bs IH]; intros out sc Hok Hmode.
  - exists [], (rngState sc). cbn. rewrite app_nil_r.
    split; [destruct sc; reflexivity|]. split; [reflexivity|]. split; [lia | reflexivity].
  - cbn [enc_bytes enc_bits enc_byte_bits].
    set (buf' := Z.lor (to_uint64 (Z.shiftl (encBitBuf sc) 8)) b).
    set (bits := encBits sc + 8).
    destruct (BoostFacts.enc_drain_spec (Z.to_nat bits) out (set_enc buf' bits sc) Hok Hmode)
      as (W1 & r1 & D1 & F1).
    destruct (enc_drain_out (Z.to_nat bits) out (set_enc buf' bits sc) _ _
                (pool_nonempty _ Hok) D1) as (W1' & E1 & L1 & Z1).
    apply app_inv_head in E1. subst W1'.
    rewrite D1.
    change (encBitBuf (set_enc buf' bits sc)) with buf' in *.
    change (encBits (set_enc buf' bits sc)) with bits in *.
    change (paddingRate (set_enc buf' bits sc)) with (paddingRate sc) in *.
    destruct (enc_drain_bits (Z.to_nat bits) buf' bits) as [cs1 [e1 k1]]. cbn [fst snd] in *.
    destruct (IH (out ++ W1) (set_enc e1 k1 (set_rngState r1 (set_enc buf' bits sc))) Hok Hmode)
      as (W2 & r2 & D2 & F2 & L2 & Z2).
    rewrite D2.
    change (encBitBuf (set_enc e1 k1 (set_rngState r1 (set_enc buf' bits sc)))) with e1 in *.
    change (encBits (set_enc e1 k1 (set_rngState r1 (set_enc buf' bits sc)))) with k1 in *.
    change (paddingRate (set_enc e1 k1 (set_rngState r1 (set_enc buf' bits sc))))
      with (paddingRate sc) in *.
    destruct (enc_bits bs (e1, k1)) as [cs2 [e2 k2]]. cbn [fst snd] in *.
    exists (W1 ++ W2), r2. split; [|split; [|split]].
    + f_equal. f_equal. rewrite app_assoc. reflexivity.
    + rewrite BoostFacts.data_of_app, map_app. f_equal; assumption.
    + rewrite !length_app. lia.
    + intro Hrate. rewrite !length_app, (Z1 Hrate), (Z2 Hrate). reflexivity.
Qed.

(** [writeBoost] on a working transport, in full: the state it leaves (the
    key stream advanced by [len(p)], the bits left over in the encoder),
    the chunks in what it writes, and how much it writes. *)
Lemma writeBoost_sized (p : bytes) (sc : Conn) (st : Stream) :
  table_ok (table sc) -> boostASCII sc = IsASCII (table sc) ->
  boostEnc sc = Some st -> connErr sc = None ->
  let encBuf := xor_from (s_key st) (s_iv st) (s_pos st) p in
  let res := enc_bits encBuf (encBitBuf sc, encBits sc) in
  exists W r,
    writeBoost p sc
    = Some ((len p, None),
            set_wire (wire sc ++ W)
              (set_enc (fst (snd res)) (snd (snd res))
                 (set_rngState r
                    (set_boostEnc
                       (Some {| s_key := s_key st; s_iv := s_iv st;
                                s_pos := (s_pos st + length p)%nat |}) sc)))) /\
    data_of (boostASCII sc) W = map (packBoostByte sc) (fst res) /\
    (length W <= 2 * length (fst res) + 1)%nat /\
    ((paddingRate sc <= 0)%Q -> length W = length (fst res)).
Proof.
  intros Hok Hmode Henc Herr encBuf res. unfold writeBoost. rewrite Henc.
  unfold XORKeyStream. fold encBuf.
  set (st' := {| s_key := s_key st; s_iv := s_iv st; s_pos := (s_pos st + length p)%nat |}).
  destruct (enc_bytes_sized encBuf [] (set_boostEnc (Some st') sc) Hok Hmode)
    as (W1 & r1 & D1 & F1 & L1 & Z1).
  rewrite D1.
  change (encBitBuf (set_boostEnc (Some st') sc)) with (encBitBuf sc) in *.
  change (encBits (set_boostEnc (Some st') sc)) with (encBits sc) in *.
  change (paddingRate (set_boostEnc (Some st') sc)) with (paddingRate sc) in *.
  fold res in D1, F1, L1, Z1 |- *.
  destruct (maybe_pad_sized ([] ++ W1)
              (set_enc (fst (snd res)) (snd (snd res))
                 (set_rngState r1 (set_boostEnc (Some st') sc)))
              (pool_nonempty _ Hok)) as (pad & r2 & M & P & Z2).
  destruct (WriteFacts.maybe_pad_spec ([] ++ W1)
              (set_enc (fst (snd res)) (snd (snd res))
                 (set_rngState r1 (set_boostEnc (Some st') sc)))
              (pool_nonempty _ Hok)) as (pad' & r2' & M' & P').
  rewrite M in M'. injection M' as Epad Er. apply app_inv_head in Epad. subst pad'.
  rewrite M. unfold conn_Write.
  change (connErr _) with (connErr sc). rewrite Herr.
  exists (W1 ++ pad), r2. split; [reflexivity|]. split; [|split].
  - rewrite BoostFacts.data_of_app. rewrite Hmode at 2.
    rewrite (BoostFacts.data_of_pad _ pad Hok P'), app_nil_r.
    exact F1.
  - rewrite length_app. lia.
  - intro Hrate.
    change (paddingRate _) with (paddingRate sc) in Z2.
    rewrite (Z2 Hrate), app_nil_r. exact (Z1 Hrate).
Qed.

(** Successive [Write] calls with boost enabled behave as one write of the
    concatenated buffers: the key stream and the bit accumulator run on from
    call to call. *)
Lemma Write_all_boost (ps : list bytes) :
  forall (sc : Conn) (st : Stream),
    table_ok (table sc) -> boostASCII sc = IsASCII (table sc) ->
    boostWrite sc = true -> boostEnc sc = Some st -> connErr sc = None ->
    let res := enc_bits (xor_from (s_key st) (s_iv st) (s_pos st) (concat ps))
                 (encBitBuf sc, encBits sc) in
    exists W sc',
      Write_all ps sc = Some (None, sc') /\
      wire sc' = wire sc ++ W /\
      table sc' = table sc /\ boostASCII sc' = boostASCII sc /\ boostWrite sc' = true /\
      connErr sc' = None /\ paddingRate sc' = paddingRate sc /\
      (encBitBuf sc', encBits sc') = snd res /\
      data_of (boostASCII sc) W = map (packBoostByte sc) (fst res) /\
      (length W <= 2 * length (fst res) + length ps)%nat /\
      ((paddingRate sc <= 0)%Q -> length W = length (fst res)).
Proof.
  induction ps as [|p ps IH]; intros sc st Hok Hmode Hbw Henc Herr res.
  - exists [], sc. subst res. cbn [concat xor_from enc_bits fst snd map length Write_all].
    rewrite app_nil_r. repeat (split; [reflexivity || assumption|]).
    intro. reflexivity.
  - cbn [Write_all]. unfold Write.
    destruct (len p =? 0) eqn:E0.
    + apply Z.eqb_eq in E0.
      assert (p = []) by (destruct p; [reflexivity | unfold len in E0; cbn in E0; lia]).
      subst p. cbn [concat app] in res.
      destruct (IH sc st Hok Hmode Hbw Henc Herr)
        as (W & sc' & Hw & Hwire & Ht & Hm & Hb & He & Hr & Hst & Hd & Hl & Hz).
      exists W, sc'. fold res in Hst, Hd, Hl, Hz.
      repeat (split; [assumption|]).
      split; [cbn [length]; lia | exact Hz].
    + rewrite Hbw.
      destruct (writeBoost_sized p sc st Hok Hmode Henc Herr) as (W1 & r1 & Hw1 & Hd1 & L1 & Z1).
      rewrite Hw1.
      set (st1 := {| s_key := s_key st; s_iv := s_iv st; s_pos := (s_pos st + length p)%nat |})
        in *.
      set (res1 := enc_bits (xor_from (s_key st) (s_iv st) (s_pos st) p)
                     (encBitBuf sc, encBits sc)) in *.
      set (sc1 := set_wire (wire sc ++ W1)
                    (set_enc (fst (snd res1)) (snd (snd res1))
                       (set_rngState r1 (set_boostEnc (Some st1) sc)))) in *.
      destruct (IH sc1 st1 Hok Hmode Hbw eq_refl Herr)
        as (W2 & sc' & Hw2 & Hwire & Ht & Hm & Hb & He & Hr & Hst & Hd2 & L2 & Z2).
      change (encBitBuf sc1, encBits sc1) with (fst (snd res1), snd (snd res1)) in *.
      rewrite <- surjective_pairing in *.
      change (s_key st1) with (s_key st) in *. change (s_iv st1) with (s_iv st) in *.
      change (s_pos st1) with (s_pos st + length p)%nat in *.
      change (boostASCII sc1) with (boostASCII sc) in *.
      change (packBoostByte sc1) with (packBoostByte sc) in *.
      change (paddingRate sc1) with (paddingRate sc) in *.
      change (table sc1) with (table sc) in *.
      change (wire sc1) with (wire sc ++ W1) in *.
      assert (Hres : res = (fst res1 ++ fst (enc_bits (xor_from (s_key st) (s_iv st)
                                                     (s_pos st + length p) (concat ps))
                                              (snd res1)),
                            snd (enc_bits (xor_from (s_key st) (s_iv st)
                                             (s_pos st + length p) (concat ps)) (snd res1)))).
      { subst res res1. cbn [concat]. rewrite BoostFacts.xor_from_app. apply enc_bits_app. }
      rewrite Hres. cbn [fst snd].
      exists (W1 ++ W2), sc'. rewrite Hw2.
      split; [reflexivity|].
      split; [rewrite Hwire; symmetry; apply app_assoc|].
      repeat (split; [assumption|]).
      split; [rewrite BoostFacts.data_of_app, map_app; f_equal; assumption|].
      split.
      * rewrite !length_app. cbn [length]. lia.
      * intro Hrate. rewrite !length_app, (Z1 Hrate), (Z2 Hrate). reflexivity.
Qed.

(** [flushBoostPadding] with bits left over writes their chunk with a coin
    before and after it, and nothing otherwise. *)
Lemma flushBoostPadding_sized (sc : Conn) :
  table_ok (table sc) -> boostASCII sc = IsASCII (table sc) ->
  boostWrite sc = true -> connErr sc = None -> 0 <= encBits sc <= 6 ->
  exists W sc',
    flushBoostPadding sc = Some (None, sc') /\
    wire sc' = wire sc ++ W /\
    data_of (boostASCII sc) W
    = map (packBoostByte sc) (flush_bits (encBitBuf sc, encBits sc)) /\
    (length W <= 2 * length (flush_bits (encBitBuf sc, encBits sc)) + 1)%nat /\
    ((paddingRate sc <= 0)%Q -> length W = length (flush_bits (encBitBuf sc, encBits sc))).
Proof.
  intros Hok Hmode Hw Herr Hbits.
  destruct (BoostFacts.flushBoostPadding_spec sc Hok Hmode Hw Herr Hbits)
    as (W & sc' & Hf & Hwire & Hd).
  exists W, sc'. split; [exact Hf|]. split; [exact Hwire|]. split; [exact Hd|].
  revert Hf. unfold flushBoostPadding, flush_bits.
  rewrite Hw. cbn [negb orb].
  destruct (encBits sc =? 0) eqn:E.
  - intro Hf. injection Hf as <-. rewrite <- (app_nil_r (wire sc)) in Hwire at 1.
    apply app_inv_head in Hwire. subst W. cbn. split; [lia | reflexivity].
  - destruct (6 - encBits sc <? 0) eqn:E2; [apply Z.ltb_lt in E2; lia|].
    set (remaining := to_byte (Z.land (to_uint64 (Z.shiftl (encBitBuf sc) (6 - encBits sc))) 63)).
    destruct (maybe_pad_sized [] sc (pool_nonempty _ Hok)) as (p1 & r1 & M1 & P1 & Z1).
    rewrite M1.
    destruct (maybe_pad_sized (([] ++ p1) ++ [packBoostByte sc remaining])
                (set_rngState r1 sc) (pool_nonempty _ Hok)) as (p2 & r2 & M2 & P2 & Z2).
    rewrite M2. unfold conn_Write. change (connErr _) with (connErr sc). rewrite Herr.
    intro Hf. injection Hf as <-.
    change (wire (set_wire ?w _)) with w in Hwire.
    change (wire (set_enc 0 0 (set_rngState r2 (set_rngState r1 sc)))) with (wire sc) in Hwire.
    apply app_inv_head in Hwire. subst W.
    change (paddingRate (set_rngState r1 sc)) with (paddingRate sc) in Z2.
    rewrite !length_app. cbn [length app]. split; [lia|].
    intro Hrate. rewrite (Z1 Hrate), (Z2 Hrate). reflexivity.
Qed.

(** A boost session on the writing side: [EnableBoost], the writes, and
    [Close].  The wire carries the packed chunks of the encrypted
    concatenation of the buffers, its flush chunk included, and padding. *)
Lemma boost_session_written (srv : Conn) (ps : list bytes) (key iv : bytes) :
  table_ok (table srv) -> connErr srv = None -> 16 <= len key -> 16 <= len iv ->
  let mode := IsASCII (table srv) in
  let st := NewCTR (firstn 16 key) (firstn 16 iv) in
  let res := enc_bits (xor_from (s_key st) (s_iv st) (s_pos st) (concat ps)) (0, 0) in
  let syms := fst res ++ flush_bits (snd res) in
  exists srv1 srv2 srv3 W,
    EnableBoost true false key iv mode srv = (None, srv1) /\
    Write_all ps srv1 = Some (None, srv2) /\
    Close srv2 = Some (None, srv3) /\
    wire srv3 = wire srv ++ W /\
    boostASCII srv1 = mode /\
    data_of mode W = map (packBoostByte srv1) syms /\
    (length W <= 2 * length syms + length ps + 1)%nat /\
    ((paddingRate srv <= 0)%Q -> length W = length syms).
Proof.
  intros Hok Herr Hkey Hiv mode st res syms.
  set (srv1 := set_boostASCII mode (set_boostWrite true (set_enc 0 0
                 (set_boostEnc (Some st) srv)))).
  destruct (Write_all_boost ps srv1 st Hok eq_refl eq_refl eq_refl Herr)
    as (W1 & srv2 & Hw & Hwire2 & Ht & Hm & Hb & He & Hr & Hst & Hd1 & L1 & Z1).
  change (encBitBuf srv1, encBits srv1) with (0, 0) in *.
  fold res in Hst, Hd1, L1, Z1.
  change (boostASCII srv1) with mode in *.
  change (paddingRate srv1) with (paddingRate srv) in *.
  change (table srv1) with (table srv) in *.
  change (wire srv1) with (wire srv) in *.
  destruct (enc_bits_count (xor_from (s_key st) (s_iv st) (s_pos st) (concat ps)) 0 0
              ltac:(lia)) as [_ Hk].
  fold res in Hk.
  assert (Hbits : 0 <= encBits srv2 <= 6).
  { change (encBits srv2) with (snd (encBitBuf srv2, encBits srv2)). rewrite Hst, Hk.
    pose proof (Z.mod_pos_bound (0 + 8 * len (xor_from (s_key st) (s_iv st) (s_pos st)
                                                 (concat ps))) 6 ltac:(lia)). lia. }
  destruct (flushBoostPadding_sized srv2) as (W2 & srv3 & Hf & Hwire3 & Hd2 & L2 & Z2);
    try assumption.
  { rewrite Ht. exact Hok. }
  { rewrite Ht, Hm. reflexivity. }
  rewrite Hst, Hm, Hr in *.
  assert (Hpack : packBoostByte srv2 = packBoostByte srv1).
  { unfold packBoostByte. rewrite Hm. reflexivity. }
  rewrite Hpack in Hd2.
  exists srv1, srv2, srv3, (W1 ++ W2).
  split; [apply (BoostFacts.EnableBoost_ok true false key iv mode srv Hkey Hiv)|].
  split; [exact Hw|].
  split; [unfold Close; rewrite Hb, Hf; reflexivity|].
  split; [rewrite Hwire3, Hwire2; symmetry; apply app_assoc|].
  split; [reflexivity|].
  split; [unfold syms; rewrite BoostFacts.data_of_app, map_app; f_equal; assumption|].
  split.
  - unfold syms. rewrite !length_app. lia.
  - intro Hrate. unfold syms. rewrite !length_app, (Z1 Hrate), (Z2 Hrate). reflexivity.
Qed.

Lemma Forall_concat_bytes (ps : list bytes) :
  Forall (Forall is_byte) ps -> Forall is_byte (concat ps).
Proof.
  induction 1 as [|p ps Hp Hps IH]; cbn [concat]; [constructor|].
  apply Forall_app. split; assumption.
Qed.

(** X6.  A boost stream through the public calls, when the mode flag is
    the table's.  A connection over a table that meets the specification,
    with boost enabled for writing and the table's own mode as the boost
    mode flag ([isASCII = table.IsASCII]), takes any sequence of [Write]
    calls and is closed; a peer with boost enabled for reading under the
    same key, IV and flag, whose transport delivers the bytes in any chunks,
    gets from [io.ReadFull] over [Read] exactly the concatenation of the
    written buffers, and from the next [Read] no data and the transport's
    error.  The encoder's left-over bits and the key-stream position run on
    from one [Write] to the next, so message boundaries leave no trace. *)
Theorem boost_stream_round_trip :
  forall (decode : Decoder) (srv : Conn) (ps : list bytes) (key iv : bytes),
    table_ok (table srv) -> connErr srv = None ->
    Forall (Forall is_byte) ps -> 16 <= len key -> 16 <= len iv ->
    let mode := IsASCII (table srv) in
    exists srv1 srv2 srv3 W,
      EnableBoost true false key iv mode srv = (None, srv1) /\
      Write_all ps srv1 = Some (None, srv2) /\
      Close srv2 = Some (None, srv3) /\
      wire srv3 = wire srv ++ W /\
      forall (cli : Conn) (chunks : list bytes) (e : error),
        concat chunks = W ->
        reader cli = Bufio.NewReaderSize chunks e IOBufferSize ->
        pendingData cli = [] ->
        (recording cli = true -> recorder cli <> None) ->
        exists cli1 cli2,
          EnableBoost false true key iv mode cli = (None, cli1) /\
          ReadFull_of (Read decode) (length (concat ps)) cli1
          = Some ((concat ps, None), cli2) /\
          forall plen, exists cli3, Read decode plen cli2 = Some (([], Some e), cli3).
Proof.
  intros decode srv ps key iv Hok Herr Hps Hkey Hiv mode.
  destruct (boost_session_written srv ps key iv Hok Herr Hkey Hiv)
    as (srv1 & srv2 & srv3 & W & He & Hw & Hc & Hwire & Hm & Hd & _).
  exists srv1, srv2, srv3, W.
  repeat (split; [assumption|]).
  intros cli chunks e Hchunks Hreader Hpend Hrec.
  set (st := NewCTR (firstn 16 key) (firstn 16 iv)) in *.
  set (encBuf := xor_from (s_key st) (s_iv st) (s_pos st) (concat ps)) in *.
  assert (HencBuf : Forall is_byte encBuf)
    by (apply BoostFacts.xor_from_bytes, Forall_concat_bytes, Hps).
  set (cli1 := set_hintBuf [] (set_boostASCII mode (set_boostRead true (set_dec 0 0
                 (set_boostDec (Some st) cli))))).
  assert (Hready : read_ready cli1).
  { unfold read_ready. change (reader cli1) with (reader cli). rewrite Hreader.
    repeat split; try reflexivity; [exact Hrec | discriminate]. }
  destruct (BoostFacts.bits_round_trip encBuf 0 0 HencBuf ltac:(left; reflexivity)
              ltac:(unfold is_byte; lia)) as [Hrt Hsym].
  change (fst (joint 0 0)) with (0, 0) in Hrt, Hsym.
  cbn [split_byte Z.eqb app] in Hrt.
  assert (Hav : avail cli1 = concat ps).
  { unfold avail. change (pendingData cli1) with (pendingData cli).
    change (reader cli1) with (reader cli). rewrite Hpend, Hreader.
    cbn [app Bufio.src Bufio.NewReaderSize].
    rewrite Hchunks. unfold plain_of.
    change (boostDec cli1) with (Some st).
    change (decBitBuf cli1, decBits cli1) with (0, 0).
    change (boostASCII cli1) with mode.
    fold mode in Hd. rewrite Hd.
    rewrite (BoostFacts.unpack_pack_all srv1 cli1 _ Hm Hsym).
    change (snd (joint 0 0)) with (0, 0) in Hrt. rewrite Hrt.
    apply BoostFacts.xor_from_twice. }
  set (Inv := fun (sc : Conn) (a : bytes) =>
                read_ready sc /\ boostRead sc = true /\ avail sc = a /\
                Bufio.src_err (reader sc) = e).
  assert (Hfresh : forall sc, read_ready sc -> reader_fresh sc).
  { intros sc (H1 & H2 & H3 & H4 & _). repeat split; assumption. }
  assert (Hstep : forall plen sc a, Inv sc a -> (0 < plen)%nat -> a <> [] ->
            exists d sc' a',
              Read decode plen sc = Some ((d, None), sc') /\ d <> [] /\
              (length d <= plen)%nat /\ a = d ++ a' /\ Inv sc' a').
  { intros plen sc a (Hr & Hb & Ha & Hse) Hplen Hne.
    destruct (BoostFacts.readBoost_spec plen sc Hr Hplen ltac:(rewrite Ha; exact Hne))
      as (d & sc' & Hrd & Hd' & Hlen & Happ & Hr' & Hse').
    destruct (PuzzleFacts.Read_total decode plen sc (Hfresh sc Hr))
      as (res & sc'' & Hread & _ & _ & Hb'' & _).
    assert (Hsame : Read decode plen sc = readBoost plen sc)
      by (unfold Read; rewrite Hb; reflexivity).
    rewrite Hsame, Hrd in Hread. injection Hread as <- <-.
    exists d, sc', (avail sc'). rewrite Hsame.
    split; [exact Hrd|]. split; [exact Hd'|]. split; [exact Hlen|].
    split; [rewrite Happ; symmetry; exact Ha|].
    split; [exact Hr'|]. split; [congruence|]. split; [reflexivity | congruence]. }
  assert (Hinv1 : Inv cli1 (concat ps)).
  { split; [exact Hready|]. split; [reflexivity|]. split; [exact Hav|].
    change (reader cli1) with (reader cli). rewrite Hreader. reflexivity. }
  destruct (PuzzleFacts.ReadFull_loop_of_spec (Read decode) Inv Hstep
              (S (length (concat ps))) (length (concat ps)) [] cli1 (concat ps) Hinv1)
    as (cli2 & Hrf & Hr2 & Hb2 & Ha2 & He2).
  { cbn [length]. lia. }
  { cbn [length]. lia. }
  exists cli1, cli2.
  split; [apply (BoostFacts.EnableBoost_ok false true key iv mode cli Hkey Hiv)|].
  split.
  - unfold ReadFull_of. rewrite Hrf. cbn [app length]. rewrite Nat.sub_0_r, firstn_all.
    reflexivity.
  - intro plen. cbn [length] in Ha2. rewrite Nat.sub_0_r, skipn_all in Ha2.
    destruct (BoostFacts.readBoost_drained plen cli2 Hr2 Ha2) as (cli3 & Hd3).
    exists cli3. unfold Read. rewrite Hb2, Hd3, He2. reflexivity.
Qed.

(** X7.  The size of a boost stream.  For [N] plaintext bytes written in
    any number of [Write] calls and closed, the wire carries exactly
    [ceil(8N / 6)] bytes that are not padding, one per six bits, and at
    most one padding byte before each of them, one after each [Write] and
    one after the flush chunk; with a padding rate of zero or less it
    carries nothing else. *)
Theorem boost_stream_size :
  forall (srv : Conn) (ps : list bytes) (key iv : bytes),
    table_ok (table srv) -> connErr srv = None -> 16 <= len key -> 16 <= len iv ->
    let mode := IsASCII (table srv) in
    let carriers := (8 * len (concat ps) + 5) / 6 in
    exists srv1 srv2 srv3 W,
      EnableBoost true false key iv mode srv = (None, srv1) /\
      Write_all ps srv1 = Some (None, srv2) /\
      Close srv2 = Some (None, srv3) /\
      wire srv3 = wire srv ++ W /\
      len (data_of mode W) = carriers /\
      carriers <= len W <= 2 * carriers + len_list ps + 1 /\
      ((paddingRate srv <= 0)%Q -> len W = carriers).
Proof.
  intros srv ps key iv Hok Herr Hkey Hiv mode carriers.
  destruct (boost_session_written srv ps key iv Hok Herr Hkey Hiv)
    as (srv1 & srv2 & srv3 & W & He & Hw & Hc & Hwire & Hm & Hd & Hl & Hz).
  set (st := NewCTR (firstn 16 key) (firstn 16 iv)) in *.
  set (encBuf := xor_from (s_key st) (s_iv st) (s_pos st) (concat ps)) in *.
  destruct (enc_bits_count encBuf 0 0 ltac:(lia)) as [Hn Hk].
  set (res := enc_bits encBuf (0, 0)) in *.
  assert (Hcount : len_list (fst res ++ flush_bits (snd res)) = carriers).
  { unfold len_list in *. rewrite length_app, Nat2Z.inj_add, Hn.
    unfold flush_bits. destruct (snd res) as [b k]. cbn [snd] in Hk. subst k.
    unfold len, encBuf. rewrite BoostFacts.xor_from_length.
    fold (len (concat ps)). unfold carriers.
    set (n := len (concat ps)).
    assert (0 <= n) by (unfold n, len; lia). clearbody n.
    destruct ((0 + 8 * n) mod 6 =? 0) eqn:E; cbn [length].
    - apply Z.eqb_eq in E. Z.div_mod_to_equations. lia.
    - apply Z.eqb_neq in E. Z.div_mod_to_equations. lia. }
  assert (Hdata : len (data_of mode W) = carriers).
  { fold mode in Hd. rewrite Hd. unfold len. rewrite length_map. exact Hcount. }
  exists srv1, srv2, srv3, W.
  repeat (split; [assumption|]).
  unfold len_list, len in *. split; [split|].
  - rewrite <- Hdata. unfold data_of. pose proof (filter_length_le
      (fun b => negb (isPadding mode b)) W). lia.
  - lia.
  - intro Hrate. rewrite (Hz Hrate). exact Hcount.
Qed.

End WithLibraries.

(** The repository's test payload, written in two parts. *)
Lemma boost_stream_round_trip_witness :
  exists srv1 srv2 srv3 W,
    EnableBoost (R := Mock.rand) true false Mock.boost_key Mock.boost_iv
      (IsASCII (table Mock.conn)) Mock.conn = (None, srv1) /\
    Write_all (C := Mock.crypto) [firstn 5 Mock.boost_payload; skipn 5 Mock.boost_payload] srv1
    = Some (None, srv2) /\
    Close srv2 = Some (None, srv3) /\
    wire srv3 = wire Mock.conn ++ W /\
    forall (cli : Conn (R := Mock.rand)) (chunks : list bytes) (e : error),
      concat chunks = W ->
      reader cli = Bufio.NewReaderSize chunks e IOBufferSize ->
      pendingData cli = [] ->
      (recording cli = true -> recorder cli <> None) ->
      exists cli1 cli2,
        EnableBoost false true Mock.boost_key Mock.boost_iv (IsASCII (table Mock.conn)) cli
        = (None, cli1) /\
        ReadFull_of (Read (C := Mock.crypto) Mock.decode)
          (length (concat [firstn 5 Mock.boost_payload; skipn 5 Mock.boost_payload])) cli1
        = Some ((concat [firstn 5 Mock.boost_payload; skipn 5 Mock.boost_payload], None), cli2) /\
        forall plen, exists cli3,
          Read (C := Mock.crypto) Mock.decode plen cli2 = Some (([], Some e), cli3).
Proof.
  apply (boost_stream_round_trip (LC := MockFacts.crypto_laws) (LR := MockFacts.rand_laws)
           Mock.decode Mock.conn [firstn 5 Mock.boost_payload; skipn 5 Mock.boost_payload]
           Mock.boost_key Mock.boost_iv).
  - exact WriteFacts.mock_table_ok.
  - reflexivity.
  - repeat constructor; unfold is_byte; lia.
  - vm_compute. discriminate.
  - vm_compute. discriminate.
Defined.

Lemma boost_stream_size_witness :
  exists srv1 srv2 srv3 W,
    EnableBoost (R := Mock.rand) true false Mock.boost_key Mock.boost_iv
      (IsASCII (table Mock.conn)) Mock.conn = (None, srv1) /\
    Write_all (C := Mock.crypto) [firstn 5 Mock.boost_payload; skipn 5 Mock.boost_payload] srv1
    = Some (None, srv2) /\
    Close srv2 = Some (None, srv3) /\
    wire srv3 = wire Mock.conn ++ W /\
    len (data_of (IsASCII (table Mock.conn)) W)
    = (8 * len (concat [firstn 5 Mock.boost_payload; skipn 5 Mock.boost_payload]) + 5) / 6 /\
    (8 * len (concat [firstn 5 Mock.boost_payload; skipn 5 Mock.boost_payload]) + 5) / 6
    <= len W
    <= 2 * ((8 * len (concat [firstn 5 Mock.boost_payload; skipn 5 Mock.boost_payload]) + 5) / 6)
       + len_list [firstn 5 Mock.boost_payload; skipn 5 Mock.boost_payload] + 1 /\
    ((paddingRate Mock.conn <= 0)%Q ->
     len W = (8 * len (concat [firstn 5 Mock.boost_payload; skipn 5 Mock.boost_payload]) + 5) / 6).
Proof.
  apply (boost_stream_size (C := Mock.crypto) (LR := MockFacts.rand_laws)
           Mock.conn [firstn 5 Mock.boost_payload; skipn 5 Mock.boost_payload]
           Mock.boost_key Mock.boost_iv).
  - exact WriteFacts.mock_table_ok.
  - reflexivity.
  - vm_compute. discriminate.
  - vm_compute. discriminate.
Defined.

End StreamFacts.

(* ------------------------------------------------------------------ *)
(** ** Control frames through the multiplexer *)

Module FrameFacts.
Import Tunnel.

(** The magic does not overlap itself, so behind bytes that do not hold it
    its first occurrence is where it was put. *)
Lemma index_of_magic_at (d rest : bytes) :
  index_of d controlMagic = None ->
  index_of (d ++ controlMagic ++ rest) controlMagic = Some (length d).
Proof.
  induction d as [|x d IH]; intro H.
  - reflexivity.
  - rewrite ControlFacts.index_of_unfold in H.
    destruct (has_prefix controlMagic (x :: d)) eqn:E; [discriminate|].
    destruct (index_of d controlMagic) eqn:E2; [discriminate|].
    rewrite ControlFacts.index_of_unfold. cbn [app].
    replace (has_prefix controlMagic (x :: d ++ controlMagic ++ rest)) with false.
    + rewrite (IH eq_refl). reflexivity.
    + symmetry. destruct d as [|y [|z [|w d]]]; cbn in E |- *;
        repeat rewrite andb_false_r; try reflexivity. exact E.
Qed.

Lemma PutUint16_bytes (v : Z) :
  PutUint16 v = [to_uint16 v / 256 mod 256; to_uint16 v mod 256].
Proof. reflexivity. Qed.

Lemma Uint16_PutUint16 (v : Z) (tail : bytes) :
  0 <= v <= 0xFFFF -> Uint16 (firstn 2 (PutUint16 v ++ tail)) = v.
Proof.
  intro Hv. rewrite PutUint16_bytes. cbn [app firstn]. unfold Uint16. cbn [firstn].
  unfold be_decode. cbn [fold_left]. unfold to_uint16.
  rewrite (Z.mod_small v) by lia.
  rewrite (Z.mod_small (v / 256)).
  - pose proof (Z.div_mod v 256 ltac:(lia)). lia.
  - split; [apply Z.div_pos; lia | apply Z.div_lt_upper_bound; lia].
Qed.

Section WithLibraries.
Context {C : Crypto} {LC : CryptoLaws C}.

(** The bytes of a frame: magic, version, command, length, payload, MAC. *)
Lemma control_frame_bytes (key : bytes) (cmd : Z) (payload : bytes) :
  control_frame key cmd payload =
  0xF7 :: 72 :: 66 :: 67 :: 1 :: cmd ::
    PutUint16 (len payload) ++ payload
    ++ firstn 16 (hmac_sha256 key (1 :: cmd :: PutUint16 (len payload) ++ payload)).
Proof.
  unfold control_frame, slice_from, slice_to, controlMagic, controlVersion, hmacLen.
  rewrite PutUint16_bytes. change (len [247; 72; 66; 67]) with 4.
  change (Z.to_nat 4) with 4%nat. change (Z.to_nat 16) with 16%nat.
  cbn [app skipn]. reflexivity.
Qed.

Lemma control_frame_length (key : bytes) (cmd : Z) (payload : bytes) :
  length (control_frame key cmd payload) = (24 + length payload)%nat.
Proof.
  rewrite control_frame_bytes, PutUint16_bytes. cbn [app length].
  rewrite length_app, length_firstn, hmac_length. cbn. lia.
Qed.

(** The header fields of anything that starts like a frame. *)
Lemma frame_header (v cmd n : Z) (tail : bytes) :
  0 <= n <= 0xFFFF ->
  let rb := 0xF7 :: 72 :: 66 :: 67 :: v :: cmd :: PutUint16 n ++ tail in
  has_prefix controlMagic rb = true /\
  frame_version rb = v /\ frame_cmd rb = cmd /\
  frame_payloadLen rb = n /\ frame_total rb = 24 + n.
Proof.
  intros Hn rb.
  assert (Hp : frame_payloadLen rb = n).
  { unfold frame_payloadLen, rb, slice_to, slice_from.
    change (Z.to_nat 6) with 6%nat. change (Z.to_nat 2) with 2%nat. cbn [skipn].
    apply Uint16_PutUint16. exact Hn. }
  split; [reflexivity|]. split; [reflexivity|]. split; [reflexivity|].
  split; [exact Hp|].
  unfold frame_total, hmacLen. rewrite Hp. change (len controlMagic) with 4. lia.
Qed.

(** The fields [processBuffer] reads off a whole frame with anything
    behind it. *)
Lemma frame_fields (key : bytes) (cmd : Z) (payload rest : bytes) :
  len payload <= 0xFFFF ->
  let rb := control_frame key cmd payload ++ rest in
  has_prefix controlMagic rb = true /\
  frame_version rb = 1 /\ frame_cmd rb = cmd /\
  frame_total rb = 24 + len payload /\
  frame_payload rb = payload /\
  frame_body rb = 1 :: cmd :: PutUint16 (len payload) ++ payload /\
  frame_mac rb = firstn 16 (hmac_sha256 key (1 :: cmd :: PutUint16 (len payload) ++ payload)) /\
  slice_from (frame_total rb) rb = rest.
Proof.
  intros Hn rb.
  assert (Hn0 : 0 <= len payload <= 0xFFFF) by (unfold len in *; lia).
  set (mac := firstn 16 (hmac_sha256 key (1 :: cmd :: PutUint16 (len payload) ++ payload))).
  assert (Hrb : rb = 0xF7 :: 72 :: 66 :: 67 :: 1 :: cmd ::
                       PutUint16 (len payload) ++ (payload ++ mac ++ rest)).
  { unfold rb. rewrite control_frame_bytes. fold mac. cbn [app].
    rewrite <- !app_assoc. reflexivity. }
  destruct (frame_header 1 cmd (len payload) (payload ++ mac ++ rest) Hn0)
    as (H1 & H2 & H3 & H4 & H5).
  rewrite <- Hrb in H1, H2, H3, H4, H5.
  assert (Hmac : length mac = 16%nat).
  { unfold mac. rewrite length_firstn, hmac_length. reflexivity. }
  assert (Hframe : slice_to (frame_total rb) rb = control_frame key cmd payload).
  { unfold slice_to. rewrite H5. unfold rb. apply firstn_exact.
    rewrite control_frame_length. unfold len. lia. }
  repeat (split; [assumption|]).
  split; [|split; [|split]].
  - unfold frame_payload. rewrite Hframe, H4, control_frame_bytes. fold mac.
    unfold slice_from, slice_to. change (Z.to_nat (len controlMagic + 4)) with 8%nat.
    rewrite PutUint16_bytes. cbn [app skipn].
    apply firstn_exact. unfold len. lia.
  - unfold frame_body. rewrite Hframe, H5, control_frame_bytes. fold mac.
    unfold slice_from, slice_to, hmacLen. change (len controlMagic) with 4.
    change (Z.to_nat 4) with 4%nat. cbn [skipn].
    change (1 :: cmd :: PutUint16 (len payload) ++ payload ++ mac)
      with ((1 :: cmd :: PutUint16 (len payload) ++ payload) ++ mac).
    apply firstn_exact. rewrite PutUint16_bytes. cbn [app length]. unfold len. lia.
  - unfold frame_mac. rewrite Hframe, H5, control_frame_bytes. fold mac.
    unfold slice_from, hmacLen. rewrite PutUint16_bytes. cbn [app].
    change (247 :: 72 :: 66 :: 67 :: 1 :: cmd :: to_uint16 (len payload) / 256 mod 256
              :: to_uint16 (len payload) mod 256 :: payload ++ mac)
      with ((247 :: 72 :: 66 :: 67 :: 1 :: cmd :: to_uint16 (len payload) / 256 mod 256
               :: to_uint16 (len payload) mod 256 :: payload) ++ mac).
    apply skipn_exact. cbn [length]. unfold len. lia.
  - unfold slice_from. rewrite H5. unfold rb. apply skipn_exact.
    rewrite control_frame_length. unfold len. lia.
Qed.

Lemma appendData_keeps (b : bytes) (c : ControlConn) :
  conn_err (appendData b c) = conn_err c /\ hmacKey (appendData b c) = hmacKey c /\
  has_handler (appendData b c) = has_handler c /\ has_onData (appendData b c) = has_onData c.
Proof.
  unfold appendData. destruct (len b =? 0); [repeat split|].
  cbn. destruct (has_onData c) eqn:E; cbn; rewrite ?E; repeat split.
Qed.

Lemma magic_at_head (rb : bytes) :
  has_prefix controlMagic rb = true ->
  bytes_eqb (slice_to (len controlMagic) rb) controlMagic = true.
Proof.
  intro Hp. apply bytes_eqb_eq. apply ControlFacts.has_prefix_split in Hp.
  destruct Hp as [rest ->]. unfold slice_to. change (Z.to_nat (len controlMagic)) with 4%nat.
  apply firstn_exact. reflexivity.
Qed.

(** The first step of a trip of [processBuffer] over data that does not
    hold the magic, then something that starts with it: the data is
    forwarded. *)
Lemma skip_to_magic (c : ControlConn) (d tail : bytes) :
  readBuf c = d ++ controlMagic ++ tail ->
  index_of d controlMagic = None ->
  Index (readBuf c) controlMagic = Z.of_nat (length d) /\
  let idx := Z.of_nat (length d) in
  let c1 := if 0 <? idx
            then set_readBuf (slice_from idx (readBuf c)) (appendData (slice_to idx (readBuf c)) c)
            else c in
  readBuf c1 = controlMagic ++ tail /\ dataBuf c1 = dataBuf c ++ d /\
  handled c1 = handled c /\
  reported c1 = (if has_onData c then reported c ++ map len (nonempty [d]) else reported c) /\
  conn_src c1 = conn_src c /\ conn_err c1 = conn_err c /\ hmacKey c1 = hmacKey c /\
  has_handler c1 = has_handler c /\ has_onData c1 = has_onData c.
Proof.
  intros Hrb Hd. split.
  { unfold Index. rewrite Hrb, (index_of_magic_at d tail Hd). reflexivity. }
  intros idx c1. destruct d as [|x d].
  - subst idx c1. cbn [length Z.of_nat Z.ltb Z.compare app] in *.
    rewrite app_nil_r.
    split; [exact Hrb|]. split; [reflexivity|]. split; [reflexivity|].
    split; [destruct (has_onData c); [cbn; rewrite app_nil_r|]; reflexivity|].
    repeat split.
  - assert (Hpos : (0 <? idx) = true) by (apply Z.ltb_lt; unfold idx; cbn [length]; lia).
    subst c1. rewrite Hpos.
    assert (Hto : slice_to idx (readBuf c) = x :: d).
    { rewrite Hrb. unfold slice_to, idx. rewrite Nat2Z.id. apply firstn_exact. reflexivity. }
    assert (Hfrom : slice_from idx (readBuf c) = controlMagic ++ tail).
    { rewrite Hrb. unfold slice_from, idx. rewrite Nat2Z.id. apply skipn_exact. reflexivity. }
    rewrite Hto, Hfrom.
    destruct (ControlFacts.appendData_reports (x :: d) c ltac:(discriminate)) as [Hdat Hrep].
    destruct (appendData_keeps (x :: d) c) as (K1 & K2 & K3 & K4).
    unfold set_readBuf.
    cbn [readBuf dataBuf handled reported conn_src conn_err hmacKey has_handler has_onData].
    split; [reflexivity|]. split; [exact Hdat|].
    split; [apply ControlFacts.appendData_handled|].
    split.
    { rewrite Hrep. unfold nonempty. cbn [filter].
      replace (len (x :: d) =? 0) with false
        by (symmetry; apply Z.eqb_neq; unfold len; cbn [length]; lia).
      reflexivity. }
    split; [apply ControlFacts.appendData_conn_src|].
    repeat split; assumption.
Qed.

(** One trip of [processBuffer] over data, then a whole frame: the data is
    forwarded, the handler gets the frame's command and payload, and the
    scan goes on behind the frame. *)
Lemma processBuffer_body_frame (c : ControlConn) (d : bytes) (cmd : Z) (payload rest : bytes) :
  readBuf c = d ++ control_frame (hmacKey c) cmd payload ++ rest ->
  index_of d controlMagic = None -> len payload <= 0xFFFF ->
  exists c',
    processBuffer_body c = Continue c' /\
    readBuf c' = rest /\ dataBuf c' = dataBuf c ++ d /\
    handled c' = (if has_handler c then handled c ++ [(cmd, payload)] else handled c) /\
    reported c' = (if has_onData c then reported c ++ map len (nonempty [d]) else reported c) /\
    conn_src c' = conn_src c /\ conn_err c' = conn_err c /\ hmacKey c' = hmacKey c /\
    has_handler c' = has_handler c /\ has_onData c' = has_onData c.
Proof.
  intros Hrb Hd Hn.
  set (frame := control_frame (hmacKey c) cmd payload) in *.
  assert (Hframe : frame ++ rest = controlMagic ++ (skipn 4 frame ++ rest)).
  { unfold frame. rewrite control_frame_bytes. reflexivity. }
  rewrite Hframe in Hrb.
  destruct (skip_to_magic c d _ Hrb Hd) as [Hidx H1]. cbv zeta in H1.
  unfold processBuffer_body. rewrite Hidx.
  replace (Z.of_nat (length d) =? -1) with false by (symmetry; apply Z.eqb_neq; lia).
  set (c1 := if 0 <? Z.of_nat (length d) then _ else c) in *.
  destruct H1 as (Hr1 & Hd1 & Hh1 & Hp1 & Hs1 & He1 & Hk1 & Hha1 & Ho1).
  clearbody c1. rewrite <- Hframe in Hr1. rewrite Hr1.
  pose proof (frame_fields (hmacKey c) cmd payload rest Hn) as F. cbv zeta in F.
  fold frame in F. destruct F as (F1 & F2 & F3 & F4 & F5 & F6 & F7 & F8).
  assert (Hlen : len (frame ++ rest) = 24 + len payload + len rest).
  { unfold len. rewrite length_app. unfold frame. rewrite control_frame_length. lia. }
  replace (len (frame ++ rest) <? len controlMagic + 1 + 1 + 2 + hmacLen) with false.
  2:{ symmetry. apply Z.ltb_ge. rewrite Hlen. change (len controlMagic + 1 + 1 + 2 + hmacLen) with 24.
      unfold len. lia. }
  rewrite (magic_at_head _ F1). cbn [negb].
  replace (len (frame ++ rest) <? frame_total (frame ++ rest)) with false.
  2:{ symmetry. apply Z.ltb_ge. rewrite Hlen, F4. unfold len. lia. }
  rewrite F2, F3, F5, F8.
  unfold verifyMAC. rewrite Hk1, F6, F7.
  change (slice_to hmacLen ?x) with (firstn 16 x).
  replace (bytes_eqb _ _) with true by (symmetry; apply bytes_eqb_eq; reflexivity).
  change ((1 =? controlVersion) && true) with true. cbv iota.
  eexists. split; [reflexivity|].
  unfold set_readBuf.
  cbn [readBuf dataBuf handled reported conn_src conn_err hmacKey has_handler has_onData].
  rewrite Hha1. destruct (has_handler c); unfold set_handled;
    cbn [readBuf dataBuf handled reported conn_src conn_err hmacKey has_handler has_onData];
    rewrite ?Hh1; repeat (split; [reflexivity || assumption|]); assumption.
Qed.

(** [processBuffer] over data, then a whole frame, then anything: it
    forwards the data, hands the frame to the handler, and goes on with what
    is behind the frame as if called on that alone. *)
Lemma processBuffer_frame (c : ControlConn) (d : bytes) (cmd : Z) (payload rest : bytes) :
  readBuf c = d ++ control_frame (hmacKey c) cmd payload ++ rest ->
  index_of d controlMagic = None -> len payload <= 0xFFFF -> Forall is_byte rest ->
  exists c',
    processBuffer c = processBuffer c' /\
    readBuf c' = rest /\ dataBuf c' = dataBuf c ++ d /\
    handled c' = (if has_handler c then handled c ++ [(cmd, payload)] else handled c) /\
    reported c' = (if has_onData c then reported c ++ map len (nonempty [d]) else reported c) /\
    conn_src c' = conn_src c /\ conn_err c' = conn_err c /\ hmacKey c' = hmacKey c /\
    has_handler c' = has_handler c /\ has_onData c' = has_onData c.
Proof.
  intros Hrb Hd Hn Hrest.
  destruct (processBuffer_body_frame c d cmd payload rest Hrb Hd Hn) as (c' & Hbody & Hr & Hfields).
  exists c'. split; [|split; [exact Hr | exact Hfields]].
  unfold processBuffer at 1. cbn [processBuffer_loop]. rewrite Hbody.
  apply (ControlFacts.processBuffer_loop_enough (length (readBuf c'))).
  - rewrite Hr. exact Hrest.
  - lia.
  - rewrite Hr, Hrb, !length_app, control_frame_length. lia.
Qed.

Lemma appendData_all (b : bytes) (c : ControlConn) :
  dataBuf (appendData b c) = dataBuf c ++ b /\
  reported (appendData b c)
  = (if has_onData c then reported c ++ map len (nonempty [b]) else reported c) /\
  (if 0 <? len b then appendData b c else c) = appendData b c.
Proof.
  destruct b as [|x b].
  - unfold appendData. cbn. rewrite app_nil_r.
    destruct (has_onData c); [rewrite app_nil_r|]; repeat split.
  - destruct (ControlFacts.appendData_reports (x :: b) c ltac:(discriminate)) as [Hd Hr].
    assert (Hz : (len (x :: b) =? 0) = false)
      by (apply Z.eqb_neq; unfold len; cbn [length]; lia).
    split; [exact Hd|]. split.
    + rewrite Hr. unfold nonempty. cbn [filter]. rewrite Hz. reflexivity.
    + replace (0 <? len (x :: b)) with true; [reflexivity|].
      symmetry. apply Z.ltb_lt. unfold len. cbn [length]. lia.
Qed.

Lemma SendControl_frame (w_err : option error) (tx : ControlConn) (cmd : Z) (payload : bytes) :
  len payload <= 0xFFFF ->
  SendControl w_err tx cmd payload = (control_frame (hmacKey tx) cmd payload, w_err).
Proof.
  intro Hn. unfold SendControl.
  replace (0xFFFF <? len payload) with false by (symmetry; apply Z.ltb_ge; exact Hn).
  reflexivity.
Qed.

(** [processBuffer] over data, a whole frame, and data again. *)
Lemma processBuffer_data_frame_data (c : ControlConn) (d1 : bytes) (cmd : Z)
    (payload d2 : bytes) :
  readBuf c = d1 ++ control_frame (hmacKey c) cmd payload ++ d2 ->
  index_of d1 controlMagic = None -> index_of d2 controlMagic = None ->
  len payload <= 0xFFFF -> Forall is_byte d2 ->
  exists c',
    processBuffer c = Some c' /\
    readBuf c' = [] /\ dataBuf c' = dataBuf c ++ d1 ++ d2 /\
    handled c' = (if has_handler c then handled c ++ [(cmd, payload)] else handled c) /\
    reported c'
    = (if has_onData c then reported c ++ map len (nonempty [d1; d2]) else reported c) /\
    conn_src c' = conn_src c.
Proof.
  intros Hrb Hd1 Hd2 Hn Hb.
  destruct (processBuffer_frame c d1 cmd payload d2 Hrb Hd1 Hn Hb)
    as (c1 & Hp & Hr1 & Hdat1 & Hh1 & Hrep1 & Hs1 & _ & _ & _ & Ho1).
  rewrite Hp, ControlFacts.processBuffer_no_magic by (rewrite Hr1; exact Hd2).
  rewrite Hr1.
  destruct (appendData_all d2 c1) as (A1 & A2 & A3). rewrite A3.
  eexists. split; [reflexivity|].
  unfold set_readBuf. cbn [readBuf dataBuf handled reported conn_src].
  split; [reflexivity|].
  split; [rewrite A1, Hdat1; symmetry; apply app_assoc|].
  split; [rewrite ControlFacts.appendData_handled; exact Hh1|].
  split; [|rewrite ControlFacts.appendData_conn_src; exact Hs1].
  rewrite A2, Ho1, Hrep1.
  destruct (has_onData c); [|reflexivity].
  change [d1; d2] with ([d1] ++ [d2]). unfold nonempty.
  rewrite filter_app, map_app, app_assoc. reflexivity.
Qed.

(** A frame cut short behind its magic waits in [readBuf]. *)
Lemma processBuffer_partial (c : ControlConn) (key : bytes) (cmd : Z) (payload : bytes)
    (k : nat) :
  len payload <= 0xFFFF ->
  (4 <= k < length (control_frame key cmd payload))%nat ->
  readBuf c = firstn k (control_frame key cmd payload) ->
  processBuffer c = Some c.
Proof.
  intros Hn Hk Hrb.
  assert (Hn0 : 0 <= len payload <= 0xFFFF) by (unfold len in *; lia).
  rewrite control_frame_length in Hk.
  set (mac := firstn 16 (hmac_sha256 key (1 :: cmd :: PutUint16 (len payload) ++ payload))).
  assert (Hmac : length mac = 16%nat).
  { unfold mac. rewrite length_firstn, hmac_length. reflexivity. }
  assert (Hlen : len (readBuf c) = Z.of_nat k).
  { rewrite Hrb. unfold len. rewrite length_firstn, control_frame_length. lia. }
  assert (Hmagic : has_prefix controlMagic (readBuf c) = true).
  { rewrite Hrb, control_frame_bytes.
    do 4 (destruct k as [|k]; [lia|]). reflexivity. }
  unfold processBuffer. cbn [processBuffer_loop]. unfold processBuffer_body.
  rewrite (ControlFacts.Index_prefix _ _ Hmagic).
  change (0 =? -1) with false. change (0 <? 0) with false. cbv iota.
  change (len controlMagic + 1 + 1 + 2 + hmacLen) with 24.
  destruct (len (readBuf c) <? 24) eqn:E24; [reflexivity|].
  apply Z.ltb_ge in E24.
  rewrite (magic_at_head _ Hmagic). cbn [negb].
  assert (Htotal : frame_total (readBuf c) = 24 + len payload).
  { rewrite Hrb, control_frame_bytes. fold mac.
    do 8 (destruct k as [|k]; [lia|]).
    rewrite PutUint16_bytes. cbn [app firstn].
    apply (frame_header 1 cmd (len payload) (firstn k (payload ++ mac)) Hn0). }
  replace (len (readBuf c) <? frame_total (readBuf c)) with true; [reflexivity|].
  symmetry. apply Z.ltb_lt. rewrite Htotal, Hlen. unfold len. lia.
Qed.

(** X8.  A control frame in the data stream.  When one read of the wrapped
    connection brings data, a frame written by [SendControl] under the
    receiver's key, and data again, [Read] returns the data before and
    behind the frame as one run, without a byte of the frame; the handler
    gets the command and the payload exactly as sent, once; and the data
    callback is told the lengths of the two runs of data. *)
Theorem control_frame_round_trip :
  forall (tx c : ControlConn) (w_err : option error) (cmd : Z) (payload d1 d2 : bytes)
         (more : list bytes) (plen : nat),
    hmacKey tx = hmacKey c -> len payload <= 0xFFFF ->
    index_of d1 controlMagic = None -> index_of d2 controlMagic = None ->
    Forall is_byte d2 -> d1 ++ d2 <> [] ->
    readBuf c = [] -> dataBuf c = [] ->
    conn_src c = (d1 ++ fst (SendControl w_err tx cmd payload) ++ d2) :: more ->
    exists c',
      Read plen c = Some ((firstn plen (d1 ++ d2), None), c') /\
      dataBuf c' = skipn plen (d1 ++ d2) /\ readBuf c' = [] /\ conn_src c' = more /\
      handled c' = (if has_handler c then handled c ++ [(cmd, payload)] else handled c) /\
      reported c'
      = (if has_onData c then reported c ++ map len (nonempty [d1; d2]) else reported c).
Proof.
  intros tx c w_err cmd payload d1 d2 more plen Hkey Hn Hd1 Hd2 Hb Hne Hrb Hdb Hsrc.
  rewrite (SendControl_frame w_err tx cmd payload Hn), Hkey in Hsrc. cbn [fst] in Hsrc.
  set (chunk := d1 ++ control_frame (hmacKey c) cmd payload ++ d2) in *.
  assert (Hchunk : chunk <> []).
  { intro E. apply (f_equal (@length Z)) in E. unfold chunk in E.
    rewrite !length_app, control_frame_length in E. cbn in E. lia. }
  set (c0 := set_readBuf chunk (set_conn_src more c)).
  destruct (processBuffer_data_frame_data c0 d1 cmd payload d2 eq_refl Hd1 Hd2 Hn Hb)
    as (c1 & Hp & Hr1 & Hdat1 & Hh1 & Hrep1 & Hs1).
  change (dataBuf c0) with (dataBuf c) in Hdat1. rewrite Hdb in Hdat1. cbn [app] in Hdat1.
  unfold Read. rewrite Hsrc. cbn [Read_loop]. rewrite Hdb.
  change (readBuf (set_conn_src more c)) with (readBuf c). rewrite Hrb. cbn [app].
  fold c0.
  replace (match chunk with [] => Some (set_conn_src more c) | _ :: _ => processBuffer c0 end)
    with (processBuffer c0) by (destruct chunk; [congruence | reflexivity]).
  rewrite Hp.
  assert (Hm : forall (A : Type) (X Y : A), match dataBuf c1 with [] => X | _ :: _ => Y end = Y).
  { intros A X Y. destruct (dataBuf c1); [congruence | reflexivity]. }
  rewrite Hm, Hdat1.
  eexists. split; [reflexivity|].
  unfold set_dataBuf. cbn [readBuf dataBuf handled reported conn_src].
  repeat (split; [reflexivity || assumption|]). exact Hrep1.
Qed.

(** X9.  A control frame cut by the transport.  When a frame written by
    [SendControl] under the receiver's key comes in two reads, cut anywhere
    behind its four magic bytes, the first part waits in the scan buffer,
    and once the second read has come the handler gets the command and the
    payload as sent, and [Read] returns the data behind the frame. *)
Theorem control_frame_reassembled :
  forall (tx c : ControlConn) (w_err : option error) (cmd : Z) (payload d2 : bytes)
         (more : list bytes) (plen k : nat),
    hmacKey tx = hmacKey c -> len payload <= 0xFFFF ->
    index_of d2 controlMagic = None -> Forall is_byte d2 -> d2 <> [] ->
    readBuf c = [] -> dataBuf c = [] ->
    (4 <= k < length (fst (SendControl w_err tx cmd payload)))%nat ->
    conn_src c = firstn k (fst (SendControl w_err tx cmd payload))
                 :: (skipn k (fst (SendControl w_err tx cmd payload)) ++ d2) :: more ->
    exists c',
      Read plen c = Some ((firstn plen d2, None), c') /\
      dataBuf c' = skipn plen d2 /\ readBuf c' = [] /\ conn_src c' = more /\
      handled c' = (if has_handler c then handled c ++ [(cmd, payload)] else handled c) /\
      reported c' = (if has_onData c then reported c ++ [len d2] else reported c).
Proof.
  intros tx c w_err cmd payload d2 more plen k Hkey Hn Hd2 Hb Hne Hrb Hdb Hk Hsrc.
  rewrite (SendControl_frame w_err tx cmd payload Hn), Hkey in Hsrc, Hk. cbn [fst] in Hsrc, Hk.
  set (frame := control_frame (hmacKey c) cmd payload) in *.
  set (chunk1 := firstn k frame) in *.
  set (chunk2 := skipn k frame ++ d2) in *.
  assert (Hc1 : chunk1 <> []).
  { intro E. apply (f_equal (@length Z)) in E. unfold chunk1 in E.
    rewrite length_firstn in E. cbn [length] in E. lia. }
  assert (Hc2 : chunk2 <> []).
  { intro E. apply app_eq_nil in E. destruct E as [_ E]. contradiction. }
  set (c0 := set_readBuf chunk1 (set_conn_src (chunk2 :: more) c)).
  assert (Hp0 : processBuffer c0 = Some c0)
    by (apply (processBuffer_partial c0 (hmacKey c) cmd payload k Hn Hk); reflexivity).
  set (c1 := set_readBuf (chunk1 ++ chunk2) (set_conn_src more c0)).
  assert (Hrb1 : readBuf c1 = [] ++ control_frame (hmacKey c1) cmd payload ++ d2).
  { change (readBuf c1) with (chunk1 ++ chunk2). change (hmacKey c1) with (hmacKey c).
    unfold chunk1, chunk2. fold frame. rewrite app_assoc, firstn_skipn. reflexivity. }
  destruct (processBuffer_data_frame_data c1 [] cmd payload d2 Hrb1 eq_refl Hd2 Hn Hb)
    as (c2 & Hp & Hr2 & Hdat2 & Hh2 & Hrep2 & Hs2).
  change (dataBuf c1) with (dataBuf c) in Hdat2. rewrite Hdb in Hdat2. cbn [app] in Hdat2.
  change (handled c1) with (handled c) in Hh2. change (has_handler c1) with (has_handler c) in Hh2.
  change (reported c1) with (reported c) in Hrep2.
  change (has_onData c1) with (has_onData c) in Hrep2.
  change (conn_src c1) with more in Hs2.
  unfold Read. rewrite Hsrc. cbn [Read_loop]. rewrite Hdb.
  change (readBuf (set_conn_src (chunk2 :: more) c)) with (readBuf c). rewrite Hrb. cbn [app].
  fold c0.
  replace (match chunk1 with
           | [] => Some (set_conn_src (chunk2 :: more) c)
           | _ :: _ => processBuffer c0
           end)
    with (processBuffer c0) by (destruct chunk1; [congruence | reflexivity]).
  rewrite Hp0. change (dataBuf c0) with (dataBuf c). rewrite Hdb.
  change (readBuf (set_conn_src more c0)) with chunk1. fold c1.
  replace (match chunk2 with [] => Some (set_conn_src more c0) | _ :: _ => processBuffer c1 end)
    with (processBuffer c1) by (destruct chunk2; [congruence | reflexivity]).
  rewrite Hp.
  assert (Hm : forall (A : Type) (X Y : A), match dataBuf c2 with [] => X | _ :: _ => Y end = Y).
  { intros A X Y. destruct (dataBuf c2); [congruence | reflexivity]. }
  rewrite Hm, Hdat2.
  eexists. split; [reflexivity|].
  unfold set_dataBuf. cbn [readBuf dataBuf handled reported conn_src].
  repeat (split; [reflexivity || assumption|]).
  rewrite Hrep2. destruct (has_onData c); [|reflexivity].
  unfold nonempty. cbn [filter].
  replace (len d2 =? 0) with false; [reflexivity|].
  symmetry. apply Z.eqb_neq. unfold len. destruct d2; [congruence | cbn [length]; lia].
Qed.

(** X10.  A control frame cut inside its magic is lost as a command.  The
    scan forwards a read that does not hold the whole magic, so when the
    transport cuts a frame within its first four bytes (and the rest of the
    stream does not hold the magic) the receiver, though it has the right
    key, never calls the handler: successive reads return the frame's bytes
    as data, followed by the data behind it. *)
Theorem control_frame_cut_in_magic :
  forall (tx : ControlConn) (w_err : option error) (cmd : Z) (payload d2 : bytes)
         (e : error) (handler onData : bool) (sizes : list nat) (k : nat),
    len payload <= 0xFFFF -> (0 < k < 4)%nat ->
    index_of (skipn k (fst (SendControl w_err tx cmd payload)) ++ d2) controlMagic = None ->
    Forall (fun n => (0 < n)%nat) sizes ->
    (length (fst (SendControl w_err tx cmd payload) ++ d2) < length sizes)%nat ->
    exists c',
      Read_all sizes
        (NewControlConn [firstn k (fst (SendControl w_err tx cmd payload));
                         skipn k (fst (SendControl w_err tx cmd payload)) ++ d2]
           e (hmacKey tx) handler onData)
      = Some ((fst (SendControl w_err tx cmd payload) ++ d2, Some e), c') /\
      handled c' = [].
Proof.
  intros tx w_err cmd payload d2 e handler onData sizes k Hn Hk Hrest Hs Hlen.
  rewrite (SendControl_frame w_err tx cmd payload Hn) in *. cbn [fst] in *.
  set (frame := control_frame (hmacKey tx) cmd payload) in *.
  set (c := NewControlConn [firstn k frame; skipn k frame ++ d2] e (hmacKey tx) handler onData).
  assert (Hhead : index_of (firstn k frame) controlMagic = None).
  { unfold frame. rewrite control_frame_bytes.
    destruct k as [|[|[|[|k]]]]; try lia; reflexivity. }
  destruct (ControlFacts.Read_all_passthrough sizes c) as
    (d & res & c' & used & Hall & Hrb & Hsrc & Hdata & Hh & He & Ho & Hrep & Hres).
  { repeat constructor; assumption. }
  { reflexivity. }
  { exact Hs. }
  change (dataBuf c) with (@nil Z) in Hdata. cbn [app] in Hdata.
  change (conn_src c) with [firstn k frame; skipn k frame ++ d2] in Hsrc.
  change (conn_err c) with e in Hres. change (handled c) with (@nil (Z * bytes)) in Hh.
  assert (Hstream : concat [firstn k frame; skipn k frame ++ d2] = frame ++ d2).
  { cbn [concat]. rewrite app_nil_r, app_assoc, firstn_skipn. reflexivity. }
  exists c'. split; [|exact Hh].
  destruct res as [e'|].
  - destruct Hres as (-> & Hnil & Hdn).
    rewrite Hnil, app_nil_r in Hsrc. rewrite Hdn, app_nil_r in Hdata.
    rewrite Hall, Hdata, <- Hsrc, Hstream. reflexivity.
  - exfalso.
    assert (length d <= length (frame ++ d2))%nat; [|lia].
    rewrite <- Hstream, Hsrc, concat_app, length_app, <- Hdata, length_app. lia.
Qed.

End WithLibraries.

(** A ping with a three-byte payload between two runs of data. *)
Lemma control_frame_round_trip_witness :
  exists c',
    Read (C := Mock.crypto) 2
      (NewControlConn
         [[1; 2] ++ fst (SendControl (C := Mock.crypto) None Mock.ctrl ControlCmdBoostAck [0; 1; 2]) ++ [3]]
         EOF Mock.ctrl_key true true)
    = Some ((firstn 2 ([1; 2] ++ [3]), None), c') /\
    dataBuf c' = skipn 2 ([1; 2] ++ [3]) /\ readBuf c' = [] /\ conn_src c' = [] /\
    handled c' = [(ControlCmdBoostAck, [0; 1; 2])] /\
    reported c' = map len (nonempty [[1; 2]; [3]]).
Proof.
  apply (control_frame_round_trip (LC := MockFacts.crypto_laws) Mock.ctrl
           (NewControlConn
              [[1; 2] ++ fst (SendControl (C := Mock.crypto) None Mock.ctrl ControlCmdBoostAck [0; 1; 2]) ++ [3]]
              EOF Mock.ctrl_key true true)
           None ControlCmdBoostAck [0; 1; 2] [1; 2] [3] [] 2%nat).
  - reflexivity.
  - vm_compute. discriminate.
  - vm_compute. reflexivity.
  - vm_compute. reflexivity.
  - repeat constructor; unfold is_byte; lia.
  - discriminate.
  - reflexivity.
  - reflexivity.
  - reflexivity.
Defined.

Lemma control_frame_reassembled_witness :
  exists c',
    Read (C := Mock.crypto) 8
      (NewControlConn
         [firstn 10 (fst (SendControl (C := Mock.crypto) None Mock.ctrl ControlCmdBoostAck [0; 1; 2]));
          skipn 10 (fst (SendControl (C := Mock.crypto) None Mock.ctrl ControlCmdBoostAck [0; 1; 2])) ++ [3; 4]]
         EOF Mock.ctrl_key true true)
    = Some ((firstn 8 [3; 4], None), c') /\
    dataBuf c' = skipn 8 [3; 4] /\ readBuf c' = [] /\ conn_src c' = [] /\
    handled c' = [(ControlCmdBoostAck, [0; 1; 2])] /\
    reported c' = [len [3; 4]].
Proof.
  apply (control_frame_reassembled (LC := MockFacts.crypto_laws) Mock.ctrl
           (NewControlConn
              [firstn 10 (fst (SendControl (C := Mock.crypto) None Mock.ctrl ControlCmdBoostAck [0; 1; 2]));
               skipn 10 (fst (SendControl (C := Mock.crypto) None Mock.ctrl ControlCmdBoostAck [0; 1; 2])) ++ [3; 4]]
              EOF Mock.ctrl_key true true)
           None ControlCmdBoostAck [0; 1; 2] [3; 4] [] 8%nat 10%nat).
  - reflexivity.
  - vm_compute. discriminate.
  - vm_compute. reflexivity.
  - repeat constructor; unfold is_byte; lia.
  - discriminate.
  - reflexivity.
  - reflexivity.
  - vm_compute. split; [repeat constructor | repeat constructor].
  - reflexivity.
Defined.

Lemma control_frame_cut_in_magic_witness :
  exists c',
    Read_all  (C := Mock.crypto) (repeat 1%nat 30)
      (NewControlConn
         [firstn 2 (fst (SendControl (C := Mock.crypto) None Mock.ctrl ControlCmdBoostAck [0; 1; 2]));
          skipn 2 (fst (SendControl (C := Mock.crypto) None Mock.ctrl ControlCmdBoostAck [0; 1; 2])) ++ [3; 4]]
         EOF (hmacKey Mock.ctrl) true true)
    = Some ((fst (SendControl (C := Mock.crypto) None Mock.ctrl ControlCmdBoostAck [0; 1; 2]) ++ [3; 4], Some EOF),
            c') /\
    handled c' = [].
Proof.
  apply (control_frame_cut_in_magic (C := Mock.crypto) Mock.ctrl None
           ControlCmdBoostAck [0; 1; 2] [3; 4] EOF true true (repeat 1%nat 30) 2%nat).
  - vm_compute. discriminate.
  - lia.
  - vm_compute. reflexivity.
  - repeat constructor.
  - vm_compute. repeat constructor.
Defined.

End FrameFacts.

(* ------------------------------------------------------------------ *)
(** ** The bandwidth monitor's window *)

Module WindowFacts.
Import Tunnel.




(** Below the threshold in all, no admission is over it. *)
Lemma fires_when_silent (thr dur : Z) (calls : list (Z * Z)) :
  forall (hist : list bandwidthSample) (prev fired : bool),
    Forall (fun s => 0 < len_ s) hist ->
    sum_len hist + admitted calls < thr ->
    Forall (fun r => r = false) (fires_when Z.leb thr dur hist prev fired calls).
Proof.
  induction calls as [|[now n] rest IH]; intros hist prev fired Hpos Hsum; [constructor|].
  pose proof (MonitorFacts.admitted_nonneg rest) as Hrest.
  cbn [fires_when admitted] in *.
  destruct (n <=? 0) eqn:En.
  - constructor; [reflexivity|]. apply IH; [exact Hpos | lia].
  - apply Z.leb_gt in En.
    set (new := {| t := now; len_ := n |}) in *.
    assert (Hp' : Forall (fun s => 0 < len_ s) (hist ++ [new])).
    { apply Forall_app. split; [exact Hpos|]. constructor; [exact En | constructor]. }
    assert (Hs' : sum_len (hist ++ [new]) = sum_len hist + n).
    { rewrite MonitorFacts.sum_len_app. unfold sum_len at 2. simpl. lia. }
    assert (Hover : (thr <=? rolling_total dur (hist ++ [new]) now) = false).
    { apply Z.leb_gt. unfold rolling_total.
      pose proof (MonitorFacts.sum_len_filter_le (in_window (now - dur)) _ Hp'). lia. }
    rewrite Hover. cbn [andb]. constructor; [reflexivity|].
    apply IH; [exact Hp' | lia].
Qed.

(** With a window that reaches back in time, an admission counts in its
    own rolling total. *)
Lemma rolling_total_own (dur now n : Z) (hist : list bandwidthSample) :
  0 <= dur -> Forall (fun s => 0 < len_ s) hist ->
  n <= rolling_total dur (hist ++ [{| t := now; len_ := n |}]) now.
Proof.
  intros Hdur Hpos. unfold rolling_total. rewrite filter_app, MonitorFacts.sum_len_app.
  pose proof (MonitorFacts.sum_len_filter_le (in_window (now - dur)) hist Hpos) as Hb.
  cbn [filter]. unfold in_window at 2. cbn [t].
  replace (now <? now - dur) with false by (symmetry; apply Z.ltb_ge; lia).
  cbn [negb]. unfold sum_len at 2. cbn. lia.
Qed.

(** Two admissions in a row of at least the threshold each: by the second
    the rule has answered [true], now or before. *)
Lemma fires_when_loaded (thr dur t1 n1 t2 n2 : Z) (pre : list (Z * Z)) :
  forall (hist : list bandwidthSample) (prev fired : bool),
    0 <= dur -> Forall (fun s => 0 < len_ s) hist ->
    0 < n1 -> 0 < n2 -> thr <= n1 -> thr <= n2 ->
    fired = true \/
    In true (fires_when Z.leb thr dur hist prev fired (pre ++ [(t1, n1); (t2, n2)])).
Proof.
  induction pre as [|[now n] pre IH]; intros hist prev fired Hdur Hpos H1 H2 Ht1 Ht2.
  - cbn [app fires_when].
    replace (n1 <=? 0) with false by (symmetry; apply Z.leb_gt; lia).
    replace (n2 <=? 0) with false by (symmetry; apply Z.leb_gt; lia).
    set (s1 := {| t := t1; len_ := n1 |}). set (s2 := {| t := t2; len_ := n2 |}).
    assert (Hp1 : Forall (fun s => 0 < len_ s) (hist ++ [s1])).
    { apply Forall_app. split; [exact Hpos|]. constructor; [exact H1 | constructor]. }
    pose proof (rolling_total_own dur t1 n1 hist Hdur Hpos) as Ho1.
    pose proof (rolling_total_own dur t2 n2 (hist ++ [s1]) Hdur Hp1) as Ho2.
    fold s1 in Ho1. fold s2 in Ho2.
    replace (thr <=? rolling_total dur (hist ++ [s1]) t1) with true
      by (symmetry; apply Z.leb_le; lia).
    replace (thr <=? rolling_total dur ((hist ++ [s1]) ++ [s2]) t2) with true
      by (symmetry; apply Z.leb_le; lia).
    destruct fired; [left; reflexivity|]. right.
    destruct prev; cbn; tauto.
  - cbn [app fires_when]. destruct (n <=? 0) eqn:En.
    + destruct (IH hist prev fired Hdur Hpos H1 H2 Ht1 Ht2) as [Hf|Hin];
        [left; exact Hf | right; right; exact Hin].
    + apply Z.leb_gt in En.
      set (new := {| t := now; len_ := n |}).
      set (over := thr <=? rolling_total dur (hist ++ [new]) now).
      set (fire := over && prev && negb fired).
      assert (Hp' : Forall (fun s => 0 < len_ s) (hist ++ [new])).
      { apply Forall_app. split; [exact Hpos|]. constructor; [exact En | constructor]. }
      destruct (IH (hist ++ [new]) over (fired || fire) Hdur Hp' H1 H2 Ht1 Ht2) as [Hf|Hin].
      * apply orb_true_iff in Hf. destruct Hf as [Hf|Hf];
          [left; exact Hf | right; left; exact Hf].
      * right. right. exact Hin.
Qed.


(** X12.  No upgrade below the threshold.  While the bytes admitted in all
    stay below the threshold, [Add] never answers [true], whatever the
    timing of the calls. *)
Theorem monitor_silent_below_threshold :
  forall (thr dur t0 : Z) (calls : list (Z * Z)),
    clock_monotone t0 calls ->
    admitted calls < thr -> thr <= MaxInt64 ->
    Forall (fun r => r = false) (fst (Add_all calls (NewBandwidthMonitor thr dur))).
Proof.
  intros thr dur t0 calls Hclock Hlow Hthr.
  rewrite (MonitorFacts.Add_all_fires calls thr dur t0 [] false false
             (NewBandwidthMonitor thr dur));
    try reflexivity; try constructor; try assumption.
  - apply fires_when_silent; [constructor | exact Hlow].
  - change (sum_len []) with 0. lia.
Qed.

(** X13.  Sustained load triggers the upgrade.  With a window duration
    that is not negative, two calls in a row that each deliver at least the
    threshold make [Add] answer [true], at the second of them at the latest,
    whatever came before. *)
Theorem monitor_fires_under_load :
  forall (thr dur t0 t1 n1 t2 n2 : Z) (pre : list (Z * Z)),
    0 <= dur ->
    clock_monotone t0 (pre ++ [(t1, n1); (t2, n2)]) ->
    admitted (pre ++ [(t1, n1); (t2, n2)]) <= MaxInt64 ->
    0 < n1 -> 0 < n2 -> thr <= n1 -> thr <= n2 ->
    In true (fst (Add_all (pre ++ [(t1, n1); (t2, n2)]) (NewBandwidthMonitor thr dur))).
Proof.
  intros thr dur t0 t1 n1 t2 n2 pre Hdur Hclock Hmax H1 H2 Ht1 Ht2.
  rewrite (MonitorFacts.Add_all_fires _ thr dur t0 [] false false
             (NewBandwidthMonitor thr dur));
    try reflexivity; try constructor; try assumption.
  destruct (fires_when_loaded thr dur t1 n1 t2 n2 pre [] false false Hdur
              ltac:(constructor) H1 H2 Ht1 Ht2) as [Hf|Hin]; [discriminate Hf | exact Hin].
Qed.


Lemma monitor_silent_below_threshold_witness :
  Forall (fun r => r = false)
    (fst (Add_all [(1, 6); (2, 3); (3, 2)] (NewBandwidthMonitor 12 5))).
Proof.
  apply (monitor_silent_below_threshold 12 5 0 [(1, 6); (2, 3); (3, 2)]).
  - simpl. lia.
  - vm_compute. reflexivity.
  - vm_compute. discriminate.
Defined.

Lemma monitor_fires_under_load_witness :
  In true (fst (Add_all ([(1, 3)] ++ [(2, 12); (9, 15)]) (NewBandwidthMonitor 12 5))).
Proof.
  apply (monitor_fires_under_load 12 5 0 2 12 9 15 [(1, 3)]).
  - lia.
  - simpl. lia.
  - vm_compute. discriminate.
  - lia.
  - lia.
  - lia.
  - lia.
Defined.

End WindowFacts.

(* ------------------------------------------------------------------ *)
(** ** The HTTP mask header *)

Module MaskFacts.
Import Httpmask.

Lemma index_byte_none (s : bytes) (d : Z) : ~ In d s -> Bufio.index_byte s d = None.
Proof.
  induction s as [|c s IH]; intro H; [reflexivity|]. cbn [Bufio.index_byte].
  destruct (c =? d) eqn:E.
  - apply Z.eqb_eq in E. exfalso. apply H. left. exact E.
  - rewrite IH; [reflexivity|]. intro Hin. apply H. right. exact Hin.
Qed.

Lemma index_byte_first (a rest : bytes) (d : Z) :
  ~ In d a -> Bufio.index_byte (a ++ d :: rest) d = Some (length a).
Proof.
  induction a as [|c a IH]; intro H; cbn [app Bufio.index_byte length].
  - rewrite Z.eqb_refl. reflexivity.
  - destruct (c =? d) eqn:E.
    + apply Z.eqb_eq in E. exfalso. apply H. left. exact E.
    + rewrite IH; [reflexivity|]. intro Hin. apply H. right. exact Hin.
Qed.

Lemma index_byte_some (s : bytes) (d : Z) (i : nat) :
  Bufio.index_byte s d = Some i ->
  exists a rest, s = a ++ d :: rest /\ ~ In d a /\ length a = i.
Proof.
  revert i. induction s as [|c s IH]; intros i H; [discriminate|].
  cbn [Bufio.index_byte] in H. destruct (c =? d) eqn:E.
  - injection H as <-. apply Z.eqb_eq in E. subst c.
    exists [], s. split; [reflexivity|]. split; [intros []|reflexivity].
  - destruct (Bufio.index_byte s d) as [j|] eqn:Ej; [|discriminate].
    injection H as <-. destruct (IH j eq_refl) as (a & rest & -> & Ha & Hl).
    exists (c :: a), rest. split; [reflexivity|]. split.
    + intros [Hc|Hin]; [apply Z.eqb_neq in E; congruence | exact (Ha Hin)].
    + cbn. rewrite Hl. reflexivity.
Qed.

(** The first occurrence of a byte splits a stream in one way only. *)
Lemma first_split_unique (a b x y : bytes) (d : Z) :
  a ++ d :: x = b ++ d :: y -> ~ In d a -> ~ In d b -> a = b /\ x = y.
Proof.
  revert b. induction a as [|c a IH]; intros b H Ha Hb.
  - destruct b as [|c' b]; cbn [app] in H.
    + injection H as ->. split; reflexivity.
    + injection H as <- _. exfalso. apply Hb. left. reflexivity.
  - destruct b as [|c' b]; cbn [app] in H.
    + injection H as -> _. exfalso. apply Ha. left. reflexivity.
    + injection H as <- H. destruct (IH b H) as [-> ->].
      * intro Hin. apply Ha. right. exact Hin.
      * intro Hin. apply Hb. right. exact Hin.
      * split; reflexivity.
Qed.

(** [ReadSlice] on a reader that still holds a whole line within its
    buffer size: it returns the line with its delimiter, whatever the
    chunks the transport cuts the stream into, and keeps the rest. *)
Lemma ReadSlice_line (d : Z) (chunks : list bytes) :
  forall (fuel : nat) (b : Bufio.Reader) (line rest : bytes),
    Bufio.err b = None -> Bufio.src b = chunks ->
    Bufio.buf b ++ concat chunks = line ++ d :: rest -> ~ In d line ->
    Z.of_nat (length (Bufio.buf b ++ concat chunks)) <= Bufio.size b ->
    (length chunks < fuel)%nat ->
    exists b',
      Bufio.ReadSlice_loop fuel d b = Some ((line ++ [d], None), b') /\
      Bufio.err b' = None /\ Bufio.size b' = Bufio.size b /\
      Bufio.src_err b' = Bufio.src_err b /\
      Bufio.remaining b' = rest.
Proof.
  induction chunks as [|c chunks IH]; intros fuel b line rest He Hs Hrem Hline Hsize Hfuel.
  - destruct fuel as [|f]; [lia|]. cbn [Bufio.ReadSlice_loop].
    cbn [concat] in Hrem. rewrite app_nil_r in Hrem. rewrite Hrem.
    rewrite (index_byte_first line rest d Hline).
    assert (Hfirst : firstn (S (length line)) (line ++ d :: rest) = line ++ [d]).
    { change (line ++ d :: rest) with (line ++ [d] ++ rest). rewrite app_assoc.
      apply firstn_exact. rewrite length_app. cbn. lia. }
    rewrite Hfirst.
    eexists. split; [reflexivity|]. split; [exact He|]. split; [reflexivity|].
    split; [reflexivity|].
    + unfold Bufio.remaining, Bufio.set_buf. cbn [Bufio.buf Bufio.src]. rewrite Hs.
      cbn [concat]. rewrite app_nil_r.
      change (line ++ d :: rest) with (line ++ [d] ++ rest). rewrite app_assoc.
      apply skipn_exact. rewrite length_app. cbn. lia.
  - destruct fuel as [|f]; [lia|]. cbn [Bufio.ReadSlice_loop].
    destruct (Bufio.index_byte (Bufio.buf b) d) as [i|] eqn:Ei.
    + destruct (index_byte_some _ _ _ Ei) as (a & post & Hbuf & Ha & Hl).
      rewrite Hbuf, <- app_assoc in Hrem. cbn [app] in Hrem.
      destruct (first_split_unique _ _ _ _ _ Hrem Ha Hline) as [<- <-].
      assert (Hfirst : firstn (S i) (Bufio.buf b) = a ++ [d]).
      { rewrite Hbuf. change (a ++ d :: post) with (a ++ [d] ++ post). rewrite app_assoc.
        apply firstn_exact. rewrite length_app. cbn. lia. }
      rewrite Hfirst.
      eexists. split; [reflexivity|]. split; [exact He|]. split; [reflexivity|].
      split; [reflexivity|].
      * unfold Bufio.remaining, Bufio.set_buf. cbn [Bufio.buf Bufio.src]. rewrite Hs.
        f_equal. rewrite Hbuf. change (a ++ d :: post) with (a ++ [d] ++ post).
        rewrite app_assoc. apply skipn_exact. rewrite length_app. cbn. lia.
    + rewrite He.
      assert (Hin : In d (concat (c :: chunks))).
      { assert (H : In d (Bufio.buf b ++ concat (c :: chunks)))
          by (rewrite Hrem; apply in_or_app; right; left; reflexivity).
        apply in_app_or in H. destruct H as [H|H]; [|exact H].
        exfalso. revert Ei H. clear. induction (Bufio.buf b) as [|x s IHs]; [intros _ []|].
        cbn [Bufio.index_byte]. destruct (x =? d) eqn:E; [discriminate|].
        destruct (Bufio.index_byte s d); [discriminate|].
        intros _ [->|H]; [rewrite Z.eqb_refl in E; discriminate | exact (IHs eq_refl H)]. }
      assert (Hroom : (Bufio.size b <=? Z.of_nat (Bufio.Buffered b)) = false).
      { apply Z.leb_gt. unfold Bufio.Buffered. rewrite length_app in Hsize.
        destruct (concat (c :: chunks)); [destruct Hin | cbn [length] in Hsize; lia]. }
      rewrite Hroom.
      destruct c as [|x c].
      * (* an empty read: the next trip finds the same buffer *)
        set (b0 := Bufio.set_src chunks b).
        assert (Hfill : Bufio.fill b = Bufio.fill b0).
        { unfold Bufio.fill. rewrite Hs. reflexivity. }
        rewrite Hfill.
        destruct (IH (S f) b0 line rest He eq_refl Hrem Hline Hsize ltac:(cbn in Hfuel; lia))
          as (b' & Hr & Hrest).
        cbn [Bufio.ReadSlice_loop] in Hr.
        change (Bufio.buf b0) with (Bufio.buf b) in Hr. rewrite Ei in Hr.
        change (Bufio.err b0) with (Bufio.err b) in Hr. rewrite He in Hr.
        change (Bufio.size b0) with (Bufio.size b) in Hr.
        change (Bufio.Buffered b0) with (Bufio.Buffered b) in Hr. rewrite Hroom in Hr.
        exists b'. split; [exact Hr | exact Hrest].
      * assert (Hfill : Bufio.fill b
                        = Bufio.set_src chunks (Bufio.set_buf (Bufio.buf b ++ x :: c) b)).
        { unfold Bufio.fill. rewrite Hs. reflexivity. }
        rewrite Hfill.
        set (b1 := Bufio.set_src chunks (Bufio.set_buf (Bufio.buf b ++ x :: c) b)).
        destruct (IH f b1 line rest) as (b' & Hr & He' & Hsz' & Hse' & Hrest').
        -- exact He.
        -- reflexivity.
        -- cbn [Bufio.buf Bufio.set_src Bufio.set_buf b1]. rewrite <- app_assoc. exact Hrem.
        -- exact Hline.
        -- cbn [Bufio.buf Bufio.size Bufio.set_src Bufio.set_buf b1]. rewrite <- app_assoc.
           exact Hsize.
        -- cbn in Hfuel. lia.
        -- exists b'. repeat split; assumption.
Qed.

Lemma ReadSlice_LF (b : Bufio.Reader) (line rest : bytes) :
  Bufio.err b = None -> Bufio.remaining b = line ++ LF :: rest -> ~ In LF line ->
  Z.of_nat (length (Bufio.remaining b)) <= Bufio.size b ->
  exists b',
    Bufio.ReadSlice LF b = Some ((line ++ [LF], None), b') /\
    Bufio.err b' = None /\ Bufio.size b' = Bufio.size b /\
    Bufio.src_err b' = Bufio.src_err b /\
    Bufio.remaining b' = rest.
Proof.
  intros He Hrem Hline Hsize. unfold Bufio.ReadSlice.
  apply (ReadSlice_line LF (Bufio.src b)); try assumption; try reflexivity. lia.
Qed.

Lemma header_line_length (ls : list bytes) :
  Forall header_line ls -> (length ls <= length (concat ls))%nat.
Proof.
  induction 1 as [|l ls (body & -> & _) _ IH]; [reflexivity|].
  cbn [concat length]. rewrite !length_app. cbn [length]. lia.
Qed.

(** The header loop of [ConsumeHeader] over header lines and the empty line
    that ends them: it consumes them all, and nothing behind them. *)
Lemma ConsumeHeader_loop_lines (ls : list bytes) :
  forall (fuel : nat) (consumed : bytes) (rd : Bufio.Reader) (body : bytes),
    Forall header_line ls -> Bufio.err rd = None ->
    Bufio.remaining rd = concat ls ++ CRLF ++ body ->
    Z.of_nat (length (Bufio.remaining rd)) <= Bufio.size rd ->
    (length ls < fuel)%nat ->
    exists rd',
      ConsumeHeader_loop fuel consumed rd
      = Some ((consumed ++ concat ls ++ CRLF, None), rd') /\
      Bufio.err rd' = None /\ Bufio.remaining rd' = body /\
      Bufio.size rd' = Bufio.size rd /\ Bufio.src_err rd' = Bufio.src_err rd.
Proof.
  induction ls as [|l ls IH]; intros fuel consumed rd body Hls He Hrem Hsize Hfuel;
    (destruct fuel as [|f]; [cbn in Hfuel; lia|]); cbn [ConsumeHeader_loop].
  - cbn [concat app] in Hrem |- *.
    destruct (ReadSlice_LF rd [CR] body He Hrem) as (rd' & Hr & He' & Hsz' & Hse' & Hrem').
    { intros [H|[]]. discriminate H. }
    { exact Hsize. }
    rewrite Hr. cbn [app]. rewrite !Z.eqb_refl. cbn [andb].
    exists rd'. repeat split; assumption.
  - inversion Hls as [|? ? Hl Hrest]; subst.
    destruct Hl as (b & -> & Hb & Hne & Hcr).
    assert (Hrem1 : Bufio.remaining rd = b ++ LF :: (concat ls ++ CRLF ++ body)).
    { rewrite Hrem. cbn [concat]. rewrite <- !app_assoc. reflexivity. }
    destruct (ReadSlice_LF rd b _ He Hrem1 Hb Hsize) as (rd1 & Hr & He1 & Hsz1 & Hse1 & Hrem1').
    rewrite Hr.
    assert (Hsize1 : Z.of_nat (length (Bufio.remaining rd1)) <= Bufio.size rd1).
    { rewrite Hsz1, Hrem1'. rewrite Hrem1, length_app in Hsize. cbn [length] in Hsize. lia. }
    destruct (IH f (consumed ++ b ++ [LF]) rd1 body Hrest He1 Hrem1' Hsize1
                ltac:(cbn in Hfuel; lia)) as (rd' & Hloop & He' & Hrem' & Hsz' & Hse').
    assert (Hgo : ConsumeHeader_loop f (consumed ++ b ++ [LF]) rd1
                  = Some ((consumed ++ concat ((b ++ [LF]) :: ls) ++ CRLF, None), rd')).
    { rewrite Hloop. cbn [concat]. rewrite <- !app_assoc. reflexivity. }
    exists rd'. split; [|repeat split; congruence].
    destruct b as [|x [|y [|z b]]]; cbn [app] in *.
    + congruence.
    + replace (x =? CR) with false; [exact Hgo|].
      symmetry. apply Z.eqb_neq. intro E. apply Hcr. rewrite E. reflexivity.
    + exact Hgo.
    + exact Hgo.
Qed.

Lemma no_byte_checked (d : Z) (s : bytes) : existsb (Z.eqb d) s = false -> ~ In d s.
Proof.
  intros H Hin. assert (existsb (Z.eqb d) s = true); [|congruence].
  apply existsb_exists. exists d. split; [exact Hin | apply Z.eqb_refl].
Qed.

Lemma no_LF_app (a b : bytes) : ~ In LF a -> ~ In LF b -> ~ In LF (a ++ b).
Proof. intros Ha Hb H. apply in_app_or in H. tauto. Qed.

Lemma digits_no_LF (fuel : nat) : forall n, ~ In LF (digits fuel n).
Proof.
  induction fuel as [|f IH]; intro n; [intros []|]. cbn [digits].
  apply no_LF_app.
  - destruct (n <? 10); [intros [] | apply IH].
  - intros [H|[]]. unfold LF in H. pose proof (Z.mod_pos_bound n 10 ltac:(lia)). lia.
Qed.

Lemma format_d_no_LF (n : Z) : ~ In LF (format_d n).
Proof.
  unfold format_d. destruct (n <? 0); [|apply digits_no_LF].
  intros [H|H]; [discriminate H | exact (digits_no_LF _ _ H)].
Qed.

Lemma fixed_strings_no_LF :
  Forall (fun s => ~ In LF (bytes_of_string s)) (paths ++ userAgents ++ contentTypes).
Proof.
  apply Forall_forall. intros s Hs. apply no_byte_checked.
  revert s Hs. apply Forall_forall.
  repeat (constructor; [vm_compute; reflexivity|]). constructor.
Qed.

(** The header block as lines: the request line, six header lines, and
    the empty line. *)
Lemma header_lines (path host ua ctype cl : bytes) :
  ~ In LF path -> ~ In LF host -> ~ In LF ua -> ~ In LF ctype -> ~ In LF cl ->
  let hdr :=
    ((((((((((bytes_of_string "POST " ++ path)
             ++ bytes_of_string " HTTP/1.1" ++ CRLF ++ bytes_of_string "Host: ")
            ++ host)
           ++ CRLF ++ bytes_of_string "User-Agent: ")
          ++ ua)
         ++ CRLF ++ bytes_of_string "Content-Type: ")
        ++ ctype)
       ++ CRLF ++ bytes_of_string "Content-Length: ")
      ++ cl)
     ++ CRLF ++ bytes_of_string "Connection: keep-alive" ++ CRLF
     ++ bytes_of_string "Cache-Control: no-cache" ++ CRLF ++ CRLF) in
  exists (first : bytes) (ls : list bytes),
    hdr = (first ++ [LF]) ++ concat ls ++ CRLF /\
    ~ In LF first /\ firstn 4 first = POST /\ (4 <= length first)%nat /\
    Forall header_line ls.
Proof.
  intros Hpath Hhost Hua Hctype Hcl hdr.
  assert (Hlit : forall s : string,
             existsb (Z.eqb LF) (bytes_of_string s) = false -> ~ In LF (bytes_of_string s))
    by (intros s; apply no_byte_checked).
  assert (Hcr : ~ In LF [CR]) by (intros [H|[]]; discriminate H).
  assert (Hline : forall (lit : string) (x : bytes),
             existsb (Z.eqb LF) (bytes_of_string lit) = false ->
             (2 <= length (bytes_of_string lit))%nat ->
             ~ In LF x ->
             header_line ((bytes_of_string lit ++ x ++ [CR]) ++ [LF])).
  { intros lit x Hl Hlen Hx. exists (bytes_of_string lit ++ x ++ [CR]).
    split; [reflexivity|]. split; [|split].
    - apply no_LF_app; [apply Hlit, Hl | apply no_LF_app; assumption].
    - intro E. apply (f_equal (@length Z)) in E. rewrite length_app in E. cbn in E. lia.
    - intro E. apply (f_equal (@length Z)) in E. rewrite !length_app in E. cbn in E. lia. }
  exists (bytes_of_string "POST " ++ path ++ bytes_of_string " HTTP/1.1" ++ [CR]),
    [(bytes_of_string "Host: " ++ host ++ [CR]) ++ [LF];
     (bytes_of_string "User-Agent: " ++ ua ++ [CR]) ++ [LF];
     (bytes_of_string "Content-Type: " ++ ctype ++ [CR]) ++ [LF];
     (bytes_of_string "Content-Length: " ++ cl ++ [CR]) ++ [LF];
     (bytes_of_string "Connection: keep-alive" ++ [] ++ [CR]) ++ [LF];
     (bytes_of_string "Cache-Control: no-cache" ++ [] ++ [CR]) ++ [LF]].
  split; [|split; [|split; [|split]]].
  - unfold hdr, CRLF. cbn [concat]. repeat rewrite <- app_assoc. reflexivity.
  - apply no_LF_app; [apply Hlit; vm_compute; reflexivity|].
    apply no_LF_app; [exact Hpath|].
    apply no_LF_app; [apply Hlit; vm_compute; reflexivity | exact Hcr].
  - reflexivity.
  - rewrite length_app. change (length (bytes_of_string "POST ")) with 5%nat. lia.
  - repeat (constructor;
            [apply Hline; [vm_compute; reflexivity | vm_compute; lia | assumption || intros []]|]).
    constructor.
Qed.

Section WithLibraries.
Context {R : Rand} {LR : RandLaws R}.
Variable Int63n : Z -> rng -> option (Z * rng).
Hypothesis Int63n_returns : forall n r, 0 < n -> exists x r', Int63n n r = Some (x, r').

(** X14.  The mask header goes through.  [WriteRandomRequestHeader]
    returns, for every state of the generator, and when the host name holds
    no line feed, [ConsumeHeader] on a reader whose stream starts with the
    header it wrote (in whatever chunks, within the reader's buffer size)
    consumes exactly that header, reports it as consumed without an error,
    and leaves the bytes behind it unread. *)
Theorem mask_header_round_trip :
  forall (r : rng) (w_err : option error) (host : string),
    ~ In LF (bytes_of_string host) ->
    exists (hdr : bytes) (r' : rng),
      WriteRandomRequestHeader Int63n r w_err host = Some ((hdr, w_err), r') /\
      forall (rd : Bufio.Reader) (body : bytes),
        Bufio.err rd = None -> Bufio.remaining rd = hdr ++ body ->
        Z.of_nat (length (hdr ++ body)) <= Bufio.size rd ->
        exists rd',
          ConsumeHeader rd = Some ((hdr, None), rd') /\
          Bufio.remaining rd' = body /\ Bufio.err rd' = None.
Proof.
  intros r w_err host Hhost.
  pose proof fixed_strings_no_LF as Hfixed. rewrite Forall_forall in Hfixed.
  unfold WriteRandomRequestHeader.
  destruct (Intn_range (len_list paths) r ltac:(vm_compute; reflexivity))
    as (i & r1 & Ei & Hi). rewrite Ei.
  destruct (WriteFacts.index_at_in_range paths i Hi) as (path & Epath & Hpath). rewrite Epath.
  destruct (Intn_range (len_list userAgents) r1 ltac:(vm_compute; reflexivity))
    as (j & r2 & Ej & Hj). rewrite Ej.
  destruct (WriteFacts.index_at_in_range userAgents j Hj) as (ua & Eua & Hua). rewrite Eua.
  destruct (Intn_range (len_list contentTypes) r2 ltac:(vm_compute; reflexivity))
    as (k & r3 & Ek & Hk). rewrite Ek.
  destruct (WriteFacts.index_at_in_range contentTypes k Hk) as (ctype & Ectype & Hctype).
  rewrite Ectype.
  destruct (Int63n_returns (1024 * 1024 * 1024) r3 ltac:(lia)) as (x & r4 & Ex). rewrite Ex.
  cbv zeta.
  destruct (header_lines (bytes_of_string path) (bytes_of_string host) (bytes_of_string ua)
              (bytes_of_string ctype) (format_d (to_int64 (1024 * 1024 * 1024 + x))))
    as (first & ls & Hhdr & Hfirst & Hpost & Hlen & Hls).
  { apply Hfixed. apply in_or_app. left. exact Hpath. }
  { exact Hhost. }
  { apply Hfixed. apply in_or_app. right. apply in_or_app. left. exact Hua. }
  { apply Hfixed. apply in_or_app. right. apply in_or_app. right. exact Hctype. }
  { apply format_d_no_LF. }
  cbv zeta in Hhdr. rewrite Hhdr.
  eexists _, r4. split; [reflexivity|].
  intros rd body He Hrem Hsize.
  assert (Hrem1 : Bufio.remaining rd = first ++ LF :: (concat ls ++ CRLF ++ body)).
  { rewrite Hrem. rewrite <- !app_assoc. reflexivity. }
  assert (Hsize0 : Z.of_nat (length (Bufio.remaining rd)) <= Bufio.size rd)
    by (rewrite Hrem; exact Hsize).
  destruct (ReadSlice_LF rd first _ He Hrem1 Hfirst Hsize0)
    as (rd1 & Hr & He1 & Hsz1 & Hse1 & Hrem1').
  unfold ConsumeHeader. rewrite Hr.
  assert (Hpost' : firstn 4 (first ++ [LF]) = POST).
  { rewrite firstn_app. replace (4 - length first)%nat with 0%nat by lia.
    cbn [firstn]. rewrite app_nil_r. exact Hpost. }
  rewrite Hpost'.
  replace (length (first ++ [LF]) <? 4)%nat with false
    by (symmetry; apply Nat.ltb_ge; rewrite length_app; lia).
  replace (bytes_eqb POST POST) with true by (symmetry; apply bytes_eqb_eq; reflexivity).
  cbn [orb negb].
  destruct (ConsumeHeader_loop_lines ls (S (length (Bufio.remaining rd1))) (first ++ [LF])
              rd1 body Hls He1 Hrem1')
    as (rd' & Hloop & He' & Hrem' & _).
  { rewrite Hsz1, Hrem1'. rewrite Hrem1, length_app in Hsize0. cbn [length] in Hsize0. lia. }
  { rewrite Hrem1', length_app. pose proof (header_line_length ls Hls). lia. }
  exists rd'. rewrite Hloop. repeat split; assumption.
Qed.

End WithLibraries.

Lemma mask_header_round_trip_witness :
  exists (hdr : bytes) (r' : rng (Rand := Mock.rand)),
    WriteRandomRequestHeader (R := Mock.rand) Mock.int63n [3; 1; 4; 1] None "example.com"
    = Some ((hdr, None), r') /\
    forall (rd : Bufio.Reader) (body : bytes),
      Bufio.err rd = None -> Bufio.remaining rd = hdr ++ body ->
      Z.of_nat (length (hdr ++ body)) <= Bufio.size rd ->
      exists rd',
        ConsumeHeader rd = Some ((hdr, None), rd') /\
        Bufio.remaining rd' = body /\ Bufio.err rd' = None.
Proof.
  apply (mask_header_round_trip (LR := MockFacts.rand_laws) Mock.int63n).
  - intros n r Hn. unfold Mock.int63n.
    replace (n <=? 0) with false by (symmetry; apply Z.leb_gt; exact Hn).
    destruct r; eexists _, _; reflexivity.
  - apply no_byte_checked. vm_compute. reflexivity.
Defined.

End MaskFacts.

(* ------------------------------------------------------------------ *)
(** ** The handshake from client to server *)

Module HandshakeFacts.
Import Sudoku Apis.

Section WithLibraries.
Context {C : Crypto} {R : Rand} {K : Collaborators}.

(** The first eight bytes of the client's payload are its clock. *)
Lemma payload_head (t : Z) (key : string) :
  firstn 8 (buildHandshakePayload t key) = be_encode 8 (to_uint64 t).
Proof.
  unfold buildHandshakePayload, PutUint64.
  change (firstn 8 (repeat 0 16)) with (repeat 0 8).
  change (skipn 8 (repeat 0 16)) with (repeat 0 8).
  assert (Hc : copy_into (repeat 0 8) (be_encode 8 (to_uint64 t)) = be_encode 8 (to_uint64 t)).
  { unfold copy_into. rewrite repeat_length, be_encode_length.
    rewrite firstn_all2 by (rewrite be_encode_length; lia).
    change (skipn 8 (repeat 0 8)) with (@nil Z). apply app_nil_r. }
  rewrite Hc.
  rewrite !(firstn_exact (be_encode 8 (to_uint64 t))) by apply be_encode_length.
  reflexivity.
Qed.

(** The server reads the client's clock back. *)
Lemma handshake_ts_payload (t : Z) (key : string) :
  MinInt64 <= t <= MaxInt64 -> handshake_ts (buildHandshakePayload t key) = t.
Proof.
  intro Ht. unfold handshake_ts, Uint64. rewrite firstn_firstn. change (Nat.min 8 8) with 8%nat.
  rewrite payload_head, be_decode_encode.
  - unfold to_int64, to_uint64, MinInt64, MaxInt64 in *.
    change (2 ^ 64) with 18446744073709551616 in *.
    change (2 ^ 63) with 9223372036854775808 in *.
    Z.div_mod_to_equations. lia.
  - unfold to_uint64. change (256 ^ Z.of_nat 8) with (2 ^ 64).
    apply Z.mod_pos_bound. lia.
Qed.

(** X15.  The handshake across the wire.  When the server's AEAD layer
    delivers the 16 bytes a client built with [buildHandshakePayload] at its
    clock [t] (mask disabled, configuration and cipher accepted, both clocks
    after the epoch), the server accepts and goes on to read the target
    address exactly when the clocks are at most 60 seconds apart, and fails
    with the bytes read so far otherwise.  The key whose hash the client put
    in the last eight bytes is any key: the server does not look at it. *)
Theorem handshake_accepts_fresh_clients :
  forall (now t : Z) (seeded : rng) (rawConn : NetConn) (cfg : ProtocolConfig) (key : string)
         (sc1 sc2 : Conn) (addr : string),
    0 <= now <= 2 ^ 62 -> 0 <= t <= MaxInt64 ->
    Validate cfg = None -> DisableHTTPMask cfg = true ->
    NewAEADConn (Key cfg) (AEADMethod cfg) = None ->
    aead_ReadFull 16
      (NewConn (incoming rawConn) (incoming_err rawConn) None (Table_ cfg)
         (PaddingMin cfg) (PaddingMax cfg) true seeded)
    = ((buildHandshakePayload t key, None), sc1) ->
    ReadAddress (StopRecording sc1) = ((addr, None), sc2) ->
    ServerHandshake now seeded rawConn (Some cfg)
    = if Z.abs (now - t) <=? 60 then Accepted sc2 addr
      else Failed {| Err := ErrTimestamp; RawConn := fd rawConn; HTTPHeaderData := [];
                     ReadData := GetBufferedAndRecorded (Some sc1) |}.
Proof.
  intros now t seeded rawConn cfg key sc1 sc2 addr Hnow Ht Hval Hmask Haead Hread Haddr.
  assert (Hts : handshake_ts (buildHandshakePayload t key) = t)
    by (apply handshake_ts_payload; unfold MinInt64; lia).
  assert (Hrej : timestamp_rejected now t = negb (Z.abs (now - t) <=? 60)).
  { pose proof (ApisFacts.timestamp_rejected_iff now t Hnow ltac:(unfold MinInt64; lia)) as Hiff.
    destruct (timestamp_rejected now t) eqn:E.
    - destruct (proj1 Hiff eq_refl) as [H60 _].
      symmetry. apply negb_true_iff, Z.leb_gt. exact H60.
    - symmetry. apply negb_false_iff, Z.leb_le.
      destruct (Z_le_gt_dec (Z.abs (now - t)) 60) as [Hle|Hgt]; [exact Hle|].
      assert (Htrue : false = true); [|discriminate Htrue].
      apply Hiff. split; [lia|]. unfold MaxInt64 in Ht.
      change (2 ^ 62) with 4611686018427387904 in Hnow.
      change (2 ^ 63) with 9223372036854775808. lia. }
  unfold ServerHandshake. rewrite Hval, Hmask. cbn [negb].
  change (bufferedConn_src (Bufio.NewReader (incoming rawConn) (incoming_err rawConn)))
    with (incoming rawConn).
  change (Bufio.src_err (Bufio.NewReader (incoming rawConn) (incoming_err rawConn)))
    with (incoming_err rawConn).
  rewrite Haead, Hread, Hts, Hrej.
  destruct (Z.abs (now - t) <=? 60); cbn [negb].
  - rewrite Haddr. reflexivity.
  - reflexivity.
Qed.

End WithLibraries.

Lemma handshake_accepts_fresh_clients_witness :
  ServerHandshake (R := Mock.rand)
    (K := Mock.collaborators (buildHandshakePayload (C := Mock.crypto) 1700000030 "another key"))
    1700000000 [] {| fd := 3; incoming := []; incoming_err := ErrTimeout |}
    (Some Mock.direct_cfg)
  = if Z.abs (1700000000 - 1700000030) <=? 60
    then Accepted
           (StopRecording
              (NewConn (R := Mock.rand) [] ErrTimeout None Mock.table 0 0 true []))
           "example.com:443"
    else Failed {| Err := ErrTimestamp; RawConn := 3; HTTPHeaderData := [];
                   ReadData := GetBufferedAndRecorded
                                 (Some (NewConn (R := Mock.rand) [] ErrTimeout None
                                          Mock.table 0 0 true [])) |}.
Proof.
  apply (handshake_accepts_fresh_clients (C := Mock.crypto)
           (K := Mock.collaborators
                   (buildHandshakePayload (C := Mock.crypto) 1700000030 "another key"))
           1700000000 1700000030 [] {| fd := 3; incoming := []; incoming_err := ErrTimeout |}
           Mock.direct_cfg "another key").
  - lia.
  - unfold MaxInt64. lia.
  - reflexivity.
  - reflexivity.
  - reflexivity.
  - vm_compute. reflexivity.
  - reflexivity.
Defined.

End HandshakeFacts.
